(** * Quasiquotes, markers and the macro-expansion visitor of mcpy / mcpyrate

    A shallow embedding of [mcpy/utilities.py], [mcpy/quotes.py],
    [mcpy/visitors.py], [mcpyrate/markers.py] and the phase splitting of
    [mcpyrate/importer.py], and the properties of the quote/unquote family
    proved (or refuted) on it. *)

From Stdlib Require Import ZArith List String Ascii Bool Arith Lia.
From Stdlib Require Import DecimalString.
Import ListNotations.

Local Open Scope Z_scope.
Local Open Scope list_scope.

Set Implicit Arguments.

(* ================================================================== *)
(** * Python values *)

(** A class is either a node class of the standard [ast] module, named by its
    [__name__], or a subclass of [ASTMarker], given by the chain of class
    names that leads from [ASTMarker] (the empty chain) down to it. The model
    has single inheritance below [ASTMarker], as the source has. *)
Inductive pyclass : Type :=
| AstClass (name : string)
| MarkerClass (chain : list string).

Definition ASTMarker : list string := [].
Definition QuasiquoteMarker : list string := ["QuasiquoteMarker"%string].
Definition ASTLiteral : list string := ["QuasiquoteMarker"; "ASTLiteral"]%string.
Definition CaptureLater : list string := ["QuasiquoteMarker"; "CaptureLater"]%string.

(** A run-time value. Atoms are the six types [astify] accepts; a float is
    kept as its IEEE-754 binary64 bit pattern, no arithmetic is done on it.
    [VSet] lists the members of a set and [VDict] the items of a dict in
    iteration order. [VNode c fs] is an instance of class [c] whose
    [ast.iter_fields] yields [fs]; source positions ([_attributes]) are not
    fields and are left out. [VObject n] is any other object, known by its
    identity only. *)
#[local] Unset Elimination Schemes.
Inductive value : Type :=
| VInt (z : Z)
| VFloat (bits : Z)
| VStr (s : string)
| VBytes (b : list ascii)
| VBool (b : bool)
| VNone
| VList (elts : list value)
| VTuple (elts : list value)
| VSet (elts : list value)
| VDict (items : list (value * value))
| VNode (c : pyclass) (fields : list (string * value))
| VObject (n : nat).
#[local] Set Elimination Schemes.

(** Exceptions: class, message and [__cause__]. Only classes derived from
    [Exception] are modelled. *)
Inductive exn_class : Type :=
| TypeError | ValueError | KeyError | IndexError | AttributeError
| NotImplementedError | SyntaxError | AssertionError
| MacroExpansionError
| OtherError (name : string).

#[local] Unset Elimination Schemes.
Inductive exn : Type :=
| Exn (cls : exn_class) (msg : string) (cause : option exn).
#[local] Set Elimination Schemes.

Definition exn_cls (e : exn) : exn_class := let (c, _, _) := e in c.
Definition exn_msg (e : exn) : string := let (_, m, _) := e in m.
Definition exn_cause (e : exn) : option exn := let (_, _, c) := e in c.

Inductive result (A : Type) : Type :=
| Ok (a : A)
| Err (e : exn).
Arguments Ok {A} a.
Arguments Err {A} e.

Definition raise {A} (c : exn_class) (msg : string) : result A :=
  Err (Exn c msg None).

Declare Scope result_scope.
Delimit Scope result_scope with result.
Notation "x <- c1 ;; c2" :=
  (match c1 with Ok x => c2 | Err e => Err e end)
    (at level 61, c1 at next level, right associativity) : result_scope.

(** A computation over a state [S]: [None] when it does not return within
    the resources of the model (fuel, random draws), otherwise its outcome,
    a value or a raised exception, and the state it leaves. *)
Definition comp (S A : Type) : Type := S -> option (result A * S).

Definition ret {S A} (a : A) : comp S A := fun s => Some (Ok a, s).
Definition throw {S A} (e : exn) : comp S A := fun s => Some (Err e, s).
Definition bind {S A B} (c : comp S A) (k : A -> comp S B) : comp S B :=
  fun s =>
    match c s with
    | Some (Ok a, s1) => k a s1
    | Some (Err e, s1) => Some (Err e, s1)
    | None => None
    end.
Definition lift {S A} (r : result A) : comp S A := fun s => Some (r, s).

Declare Scope comp_scope.
Delimit Scope comp_scope with comp.
Notation "x <- c1 ;; c2" := (bind c1 (fun x => c2))
  (at level 61, c1 at next level, right associativity) : comp_scope.
Notation "c1 ;; c2" := (bind c1 (fun _ => c2))
  (at level 61, right associativity) : comp_scope.

Fixpoint mapC {S A B} (f : A -> comp S B) (l : list A) : comp S (list B) :=
  match l with
  | [] => ret []
  | a :: l' => (b <- f a ;; bs <- mapC f l' ;; ret (b :: bs))%comp
  end.

(** [isinstance(v, int)]: an [int] or a [bool], read as the integer it is. *)
Definition int_of_atom (v : value) : option Z :=
  match v with
  | VInt z => Some z
  | VBool b => Some (if b then 1 else 0)
  | _ => None
  end.

(* ================================================================== *)
(** * utilities.py *)

(** ** NestingLevelTracker *)
Module NestingLevelTracker.

(** [self.stack]. The head of the Rocq list is the top of the Python list,
    [stack[-1]]: [append] is a cons and [pop] drops the head. *)
Definition t : Type := list Z.

(** [__init__(self, start=0)]; [start] is an [int], as documented. *)
Definition __init__ (start : Z) : t := [start].

(** [_get_value]: [self.stack[-1]]. *)
Definition _get_value (tr : t) : result Z :=
  match tr with
  | v :: _ => Ok v
  | [] => raise IndexError "list index out of range"
  end.

Section ContextManagers.
(** The tracker lives in some larger state, reached by [get] and [put]. *)
Variable S : Type.
Variable get : S -> t.
Variable put : t -> S -> S.

(** [with self.set_to(value): body]. The two checks run when [set_to] is
    called, before the generator of [_set_to] starts; then the value is
    appended, the body runs, and the [finally] clause pops and asserts.
    The texts that the two messages interpolate from [value] are left
    out. *)
Definition set_to {A} (value : value) (body : comp S A) : comp S A :=
  fun s =>
    match int_of_atom value with
    | None => Some (raise TypeError "Expected integer `value`", s)
    | Some z =>
        if z <? 0 then Some (raise ValueError "`value` must be >= 0", s)
        else
          match body (put (z :: get s) s) with
          | None => None
          | Some (r, s1) =>
              match get s1 with
              | [] => Some (raise IndexError "pop from empty list", s1)
              | _ :: rest =>
                  match rest with
                  | [] => Some (raise AssertionError "", put rest s1)
                  | _ :: _ => Some (r, put rest s1)
                  end
              end
          end
    end.

(** [with self.changed_by(delta): body]; [delta] is an [int], as the callers
    in quotes.py pass it. *)
Definition changed_by {A} (delta : Z) (body : comp S A) : comp S A :=
  fun s =>
    match _get_value (get s) with
    | Ok v => set_to (VInt (v + delta)) body s
    | Err e => Some (Err e, s)
    end.
End ContextManagers.

(** A tracker on its own, which remembers every stack it has had: [cur] is
    [self.stack] now, [history] the stacks before it, latest first. *)
Record logged : Type := { cur : t; history : list t }.

Definition log_put (tr : t) (s : logged) : logged :=
  {| cur := tr; history := cur s :: history s |}.

Definition start_with (start : Z) : logged :=
  {| cur := __init__ start; history := [] |}.

(** Every stack the tracker has had so far, the current one included. *)
Definition stacks (s : logged) : list t := cur s :: history s.

(** Code that uses one tracker: blocks that leave the tracker alone and
    return or raise, sequencing, [try]/[except Exception], and the two
    [with] statements. *)
Inductive prog : Type :=
| Pass
| Raise (e : exn)
| Seq (p1 p2 : prog)
| TryExcept (p handler : prog)
| WithSetTo (v : value) (body : prog)
| WithChangedBy (delta : Z) (body : prog).

Fixpoint exec (p : prog) : comp logged unit :=
  match p with
  | Pass => ret tt
  | Raise e => throw e
  | Seq p1 p2 => bind (exec p1) (fun _ => exec p2)
  | TryExcept p1 h =>
      fun s =>
        match exec p1 s with
        | Some (Err _, s1) => exec h s1
        | r => r
        end
  | WithSetTo v body => set_to cur log_put v (exec body)
  | WithChangedBy d body => changed_by cur log_put d (exec body)
  end.

(** The level is a non-negative integer. *)
Definition level_ok (tr : t) : Prop :=
  exists v, _get_value tr = Ok v /\ 0 <= v.

(** A stack the tracker may hold: not empty, every saved level at least 0. *)
Definition good (tr : t) : Prop := tr <> [] /\ Forall (Z.le 0) tr.

(** A body that hands the stack back as it found it, however it ends. *)
Definition balanced {S A} (get : S -> t) (body : comp S A) : Prop :=
  forall s r s', body s = Some (r, s') -> get s' = get s.

End NestingLevelTracker.

(** ** gensym *)

(** The module-level set [_previous_gensyms], and the texts that the coming
    calls of [str(uuid.uuid4()).replace('-', '')] return, first call first.
    When the draws run out the model has no answer. *)
Record gensym_state : Type :=
  { _previous_gensyms : list string; uuid_draws : list string }.

Definition str_in (s : string) (l : list string) : bool :=
  existsb (String.eqb s) l.

(** [sym = generate()], then [while sym in _previous_gensyms: sym = generate()]. *)
Fixpoint gensym_loop (basename : string) (prev draws : list string)
  : option (string * list string) :=
  match draws with
  | [] => None
  | unique :: rest =>
      let sym := (basename ++ "_" ++ unique)%string in
      if str_in sym prev then gensym_loop basename prev rest
      else Some (sym, rest)
  end.

(** [gensym(basename=None)]; an empty [basename] is falsy as [None] is. *)
Definition gensym (basename : option string) (g : gensym_state)
  : option (string * gensym_state) :=
  let basename :=
    match basename with
    | None => "gensym"%string
    | Some b => if String.eqb b "" then "gensym"%string else b
    end in
  match gensym_loop basename (_previous_gensyms g) (uuid_draws g) with
  | None => None
  | Some (sym, rest) =>
      Some (sym, {| _previous_gensyms := sym :: _previous_gensyms g;
                    uuid_draws := rest |})
  end.

(* ================================================================== *)
(** * quotes.py: the capture registry *)

(** A run-time object in a registry: its identity ([id(v)]) and its value.
    Two objects may hold equal values and still be two objects. *)
Record pyobj : Type := { oid : nat; contents : value }.

(** [a is b]. *)
Definition same_object (a b : pyobj) : bool := Nat.eqb (oid a) (oid b).

Section Registry.
(** A registry is a dict from keys to objects of some type [V] that are
    compared by identity, [is_]; its items are kept in insertion order. *)
Variable V : Type.
Variable is_ : V -> V -> bool.

Definition registry : Type := list (string * V).

(** The [for k, v in mapping.items(): if v is value: ... break] scan. *)
Fixpoint find_by_identity (items : registry) (value : V) : option string :=
  match items with
  | [] => None
  | (k, v) :: rest =>
      if is_ v value then Some k else find_by_identity rest value
  end.

(** [mapping[key] = value]: an existing key keeps its place. *)
Fixpoint dict_setitem (key : string) (value : V) (items : registry) : registry :=
  match items with
  | [] => [(key, value)]
  | (k, v) :: rest =>
      if String.eqb k key then (k, value) :: rest
      else (k, v) :: dict_setitem key value rest
  end.

(** [mapping[key]], [None] for a [KeyError]. *)
Fixpoint dict_getitem (key : string) (items : registry) : option V :=
  match items with
  | [] => None
  | (k, v) :: rest => if String.eqb k key then Some v else dict_getitem key rest
  end.

Definition _capture_into (mapping : registry) (value : V) (basename : string)
  (g : gensym_state) : option (string * registry * gensym_state) :=
  match find_by_identity mapping value with
  | Some key => Some (key, mapping, g)
  | None =>
      match gensym (Some basename) g with
      | None => None
      | Some (key, g') => Some (key, dict_setitem key value mapping, g')
      end
  end.
End Registry.

(** How many keys of a registry hold the object [v]. *)
Definition times_stored (v : pyobj) (m : registry pyobj) : nat :=
  List.length (filter (fun kv => same_object (snd kv) v) m).

(** What holds of a registry that only [_capture_into] has written to: its
    keys are distinct, each came from [gensym], and no object is stored
    twice. *)
Definition registry_ok (m : registry pyobj) (g : gensym_state) : Prop :=
  NoDup (map fst m) /\
  (forall k, In k (map fst m) -> In k (_previous_gensyms g)) /\
  NoDup (map (fun kv => oid (snd kv)) m).

(** ** The macro functions, the expander and the module state *)

(** The macro functions: the six quasiquote operators, and any other. A
    function is one object, so [is] and [==] on functions are equality. *)
Inductive macro : Type :=
| Mq | Mu | Mn | Ma | Ms | Mh
| Mother (name : string).

Definition macro_eqb (f g : macro) : bool :=
  match f, g with
  | Mq, Mq | Mu, Mu | Mn, Mn | Ma, Ma | Ms, Ms | Mh, Mh => true
  | Mother a, Mother b => String.eqb a b
  | _, _ => false
  end.

(** What the operators read of an expander instance: its binding table, its
    file name ([filepath] in visitors.py, [filename] in quotes.py), and
    whether it is in recursive mode. *)
Record expander : Type :=
  { bindings : list (string * macro);
    filename : string;
    _recursive : bool }.

(** The module-level state of quotes.py and of what it imports: the tracker
    [_quotelevel], the state of [gensym], and the two registries. *)
Record estate : Type :=
  { _quotelevel : NestingLevelTracker.t;
    gensyms : gensym_state;
    _hygienic_registry : registry pyobj;
    _hygienic_bindings : registry macro }.

(* ================================================================== *)
(** * Python built-ins the sources rely on *)

(** [str.split(sep)] for a separator of one character. *)
Fixpoint split_on (sep : ascii) (s : string) : list string :=
  match s with
  | EmptyString => [EmptyString]
  | String c rest =>
      if Ascii.eqb c sep then EmptyString :: split_on sep rest
      else
        match split_on sep rest with
        | [] => [String c EmptyString]
        | w :: ws => String c w :: ws
        end
  end.

(** [sep.join(items)]. *)
Definition join (sep : string) (items : list string) : string :=
  String.concat sep items.

(** [needle in hay], on strings. *)
Fixpoint contains (hay needle : string) : bool :=
  String.prefix needle hay ||
  match hay with
  | EmptyString => false
  | String _ rest => contains rest needle
  end.

(** [hash(v)] succeeds: lists, sets and dicts are unhashable, a tuple is
    hashable when its items are, instances hash by identity. *)
Fixpoint hashable (v : value) : bool :=
  match v with
  | VList _ | VSet _ | VDict _ => false
  | VTuple elts => forallb hashable elts
  | _ => true
  end.

(** What is not in the sources and the model takes as given: the [_fields]
    of the node classes of the standard [ast] module ([None] when the module
    has no such class); the renderer, by the text [unparse] that it gives for
    a tree and by the exception [unparse_error] that it raises for a value
    it does not render ([None] when it renders the value); equality [==]
    where the model cannot compute it (floats, containers, instances); the
    callables other than node classes that a dotted name under [mcpy.quotes]
    may resolve to, given by the path after [mcpy.quotes], with the
    [KeyError] or [AttributeError] of a failed resolution;
    [fix_missing_locations] followed by [fix_missing_ctx]; the macro
    functions other than the six of quotes.py, by name, applied to a tree
    and a syntax; and [left_in_place]: a walk of the expander changes the
    nodes in place, but what it returns for an invocation site or for a list
    is another object, so a caller that keeps the site or the list keeps an
    object of which the model, which has values and no objects, cannot say
    what the macro functions and the walk of the expansion have made of it.
    [left_in_place env expander st tree] is that object after a walk by
    [expander] that started in the state [st].

    [_expand], [q] and [h] hand the renderer the use site, the target or the
    quoted code, which are nodes of the program that is being expanded and
    which it renders; [unastify] hands it whatever it was called with. *)
Record pyenv : Type :=
  { ast_fields : string -> option (list string);
    unparse : value -> string;
    unparse_error : value -> option exn;
    left_in_place : expander -> estate -> value -> value;
    other_eq : value -> value -> bool;
    other_callee :
      list string ->
      result (list value -> list (string * value) -> result value);
    fix_missing : value -> value;
    other_macro : string -> value -> string -> result value }.

(** [a == b], as a set or a dict compares its keys. *)
Definition py_eq (env : pyenv) (a b : value) : bool :=
  match a, b with
  | VStr x, VStr y => String.eqb x y
  | VNone, VNone => true
  | (VInt _ | VBool _), (VInt _ | VBool _) =>
      match int_of_atom a, int_of_atom b with
      | Some x, Some y => Z.eqb x y
      | _, _ => false
      end
  | _, _ => other_eq env a b
  end.

(** Adding a member to a set that is being built. *)
Definition set_add (env : pyenv) (x : value) (s : list value) : list value :=
  if existsb (fun y => py_eq env y x) s then s else s ++ [x].

(** [d[k] = v] on the items of a dict: an equal key keeps its place and its
    key object. *)
Fixpoint dict_put (env : pyenv) (k v : value) (items : list (value * value))
  : list (value * value) :=
  match items with
  | [] => [(k, v)]
  | (k0, v0) :: rest =>
      if py_eq env k0 k then (k0, v) :: rest
      else (k0, v0) :: dict_put env k v rest
  end.

(** What [for x in v] yields. *)
Definition py_iter (v : value) : result (list value) :=
  match v with
  | VList l | VTuple l | VSet l => Ok l
  | VDict items => Ok (map fst items)
  | VStr s => Ok (map (fun c => VStr (String c EmptyString)) (list_ascii_of_string s))
  | VBytes b => Ok (map (fun c => VInt (Z.of_nat (nat_of_ascii c))) b)
  | _ => raise TypeError "object is not iterable"
  end.

(** [k, v = item]. *)
Definition unpack_pair (item : value) : result (value * value) :=
  match py_iter item with
  | Ok [k; v] => Ok (k, v)
  | Ok _ => raise ValueError "wrong number of values to unpack"
  | Err e => Err e
  end.

(** [node.name], [AttributeError] when the instance has no such field. *)
Fixpoint getattr (fields : list (string * value)) (name : string) : result value :=
  match fields with
  | [] => raise AttributeError name
  | (n, v) :: rest => if String.eqb n name then Ok v else getattr rest name
  end.

(** [k(node.name)], written so that [k] may be the function being defined. *)
Definition with_attr {A} (name : string) (k : value -> result A)
  : list (string * value) -> result A :=
  fix go (fields : list (string * value)) : result A :=
    match fields with
    | [] => raise AttributeError name
    | (n, v) :: rest => if String.eqb n name then k v else go rest
    end.

(** Turning the outcomes of the members, in order, into one outcome. *)
Fixpoint sequence {A} (rs : list (result A)) : result (list A) :=
  match rs with
  | [] => Ok []
  | Ok a :: rest =>
      match sequence rest with Ok l => Ok (a :: l) | Err e => Err e end
  | Err e :: _ => Err e
  end.

(* ================================================================== *)
(** * The nodes that quotes.py builds *)

Definition is_class (c : pyclass) (name : string) : bool :=
  match c with
  | AstClass n => String.eqb n name
  | MarkerClass _ => false
  end.

Definition list_eqb (a b : list string) : bool :=
  if list_eq_dec string_dec a b then true else false.

(** [type(x) is cls] for a marker class [cls]. *)
Definition is_marker_class (c : pyclass) (cls : list string) : bool :=
  match c with
  | AstClass _ => false
  | MarkerClass chain => list_eqb chain cls
  end.

Definition ast_Load : value := VNode (AstClass "Load") [].

(** [ast.Name(id=id, ctx=ast.Load())]. *)
Definition ast_Name_Load (id : string) : value :=
  VNode (AstClass "Name") [("id", VStr id); ("ctx", ast_Load)]%string.

(** [ast.Attribute(value=v, attr=attr, ctx=ast.Load())]. *)
Definition ast_Attribute_Load (v : value) (attr : string) : value :=
  VNode (AstClass "Attribute")
        [("value", v); ("attr", VStr attr); ("ctx", ast_Load)]%string.

(** [ast.Call(func, args, keywords)]. *)
Definition ast_Call (func : value) (args keywords : list value) : value :=
  VNode (AstClass "Call")
        [("func", func); ("args", VList args); ("keywords", VList keywords)]%string.

(** [ast.Constant(value=v)]. *)
Definition ast_Constant (v : value) : value :=
  VNode (AstClass "Constant") [("value", v)]%string.

(** [ast.keyword(arg, v)]. *)
Definition ast_keyword (arg : string) (v : value) : value :=
  VNode (AstClass "keyword") [("arg", VStr arg); ("value", v)]%string.

(** [ast.List(elts=elts)], and likewise [Tuple], [Set]. *)
Definition ast_elts (cls : string) (elts : list value) : value :=
  VNode (AstClass cls) [("elts", VList elts)]%string.

(** [ast.Dict(keys=keys, values=values)]. *)
Definition ast_Dict (keys values : list value) : value :=
  VNode (AstClass "Dict") [("keys", VList keys); ("values", VList values)]%string.

(** [ASTLiteral(body)] and [CaptureLater(body, name)]. *)
Definition mk_ASTLiteral (body : value) : value :=
  VNode (MarkerClass ASTLiteral) [("body", body)]%string.

Definition mk_CaptureLater (body name : value) : value :=
  VNode (MarkerClass CaptureLater) [("body", body); ("name", name)]%string.

Definition _mcpy_quotes_attr (attr : string) : value :=
  ast_Attribute_Load (ast_Attribute_Load (ast_Name_Load "mcpy") "quotes") attr.

(** [x.__class__.__name__]. *)
Definition class_name (c : pyclass) : string :=
  match c with
  | AstClass n => n
  | MarkerClass chain => last chain "ASTMarker"%string
  end.

(* ================================================================== *)
(** * quotes.py: astify and unastify *)

(** [expander.ismacroname(name)]: [name in self.bindings]. *)
Definition ismacroname (e : expander) (name : value) : result bool :=
  match name with
  | VStr s =>
      Ok (match dict_getitem s (bindings e) with Some _ => true | None => false end)
  | _ => if hashable name then Ok false else raise TypeError "unhashable type"
  end.

(** [_capture_into(_hygienic_bindings, function, macroname)]. *)
Definition capture_macro (function : macro) (macroname : string) : comp estate string :=
  fun st =>
    match _capture_into macro_eqb (_hygienic_bindings st) function macroname (gensyms st) with
    | None => None
    | Some (key, m, g) =>
        Some (Ok key, {| _quotelevel := _quotelevel st; gensyms := g;
                         _hygienic_registry := _hygienic_registry st;
                         _hygienic_bindings := m |})
    end.

(** [capture(value, basename)]. *)
Definition capture (obj : pyobj) (basename : string) : comp estate value :=
  fun st =>
    match _capture_into same_object (_hygienic_registry st) obj basename (gensyms st) with
    | None => None
    | Some (key, m, g) =>
        Some (Ok (ast_Call (_mcpy_quotes_attr "lookup") [ast_Constant (VStr key)] []),
              {| _quotelevel := _quotelevel st; gensyms := g;
                 _hygienic_registry := m;
                 _hygienic_bindings := _hygienic_bindings st |})
    end.

(** [lookup(key)]. *)
Definition lookup (key : string) : comp estate pyobj :=
  fun st =>
    match dict_getitem key (_hygienic_registry st) with
    | Some v => Some (Ok v, st)
    | None => Some (raise KeyError key, st)
    end.

(** The tree that the [isinstance(x, ast.AST)] branch of [astify] returns
    for an instance of the class named [name] whose fields have been lifted
    into the keywords [fields]. *)
Definition lifted_node (name : string) (fields : list value) : value :=
  ast_Call (ast_Attribute_Load (_mcpy_quotes_attr "ast") name) [] fields.

(** [astify(x, expander=None)], that is its inner [recurse]. In the branch
    that captures a macro, [recurse(ast.Name(id=uniquename))] is written out:
    the node has the one field [id], a string. The [repr] of the value is
    left out of the message of the [TypeError]. *)
Fixpoint astify (expander : option expander) (x : value) {struct x}
  : comp estate value :=
  match x with
  | VNode c fields =>
      if is_marker_class c ASTLiteral then lift (getattr fields "body")
      else if is_marker_class c CaptureLater then
        let capture_value : comp estate value :=
          (body <- lift (getattr fields "body") ;;
           name <- lift (getattr fields "name") ;;
           ret (ast_Call (_mcpy_quotes_attr "capture") [body; ast_Constant name] []))%comp in
        match expander with
        | None => capture_value
        | Some e =>
            (body <- lift (getattr fields "body") ;;
             match body with
             | VNode cb fb =>
                 if is_class cb "Name" then
                   (id <- lift (getattr fb "id") ;;
                    ismacro <- lift (ismacroname e id) ;;
                    match id, ismacro with
                    | VStr macroname, true =>
                        match dict_getitem macroname (bindings e) with
                        | Some function =>
                            (uniquename <- capture_macro function macroname ;;
                             ret (lifted_node "Name"
                                    [ast_keyword "id" (ast_Constant (VStr uniquename))]))
                        | None => throw (Exn KeyError macroname None)
                        end
                    | _, _ => capture_value
                    end)
                 else capture_value
             | _ => capture_value
             end)%comp
        end
      else
        (fields' <- mapC (fun ab => b' <- astify expander (snd ab) ;;
                                    ret (ast_keyword (fst ab) b')) fields ;;
         ret (lifted_node (class_name c) fields'))%comp
  | VInt _ | VFloat _ | VStr _ | VBytes _ | VBool _ | VNone =>
      ret (ast_Constant x)
  | VList elts =>
      (elts' <- mapC (astify expander) elts ;; ret (ast_elts "List" elts'))%comp
  | VTuple elts =>
      (elts' <- mapC (astify expander) elts ;; ret (ast_elts "Tuple" elts'))%comp
  | VDict items =>
      (keys <- mapC (fun kv => astify expander (fst kv)) items ;;
       values <- mapC (fun kv => astify expander (snd kv)) items ;;
       ret (ast_Dict keys values))%comp
  | VSet elts =>
      (elts' <- mapC (astify expander) elts ;; ret (ast_elts "Set" elts'))%comp
  | VObject _ => throw (Exn TypeError "Don't know how to astify" None)
  end.

(** The inner [recurse] of [attr_ast_to_dotted_name], on an [Attribute]
    node: what it appends to [acc], in order. *)
Fixpoint dotted_acc (tree : value) {struct tree} : result (list value) :=
  match tree with
  | VNode _ fields =>
      match getattr fields "attr" with
      | Err e => Err e
      | Ok attr =>
          with_attr "value"
            (fun v =>
               match v with
               | VNode cv fv =>
                   if is_class cv "Attribute" then
                     match dotted_acc v with
                     | Ok rest => Ok (attr :: rest)
                     | Err e => Err e
                     end
                   else if is_class cv "Name" then
                     match getattr fv "id" with
                     | Ok id => Ok [attr; id]
                     | Err e => Err e
                     end
                   else raise NotImplementedError ""
               | _ => raise NotImplementedError ""
               end) fields
      end
  | _ => raise AttributeError "attr"
  end.

(** The items of [".".join(...)] must be strings. *)
Fixpoint strs_of (l : list value) : result (list string) :=
  match l with
  | [] => Ok []
  | VStr s :: rest =>
      match strs_of rest with Ok ss => Ok (s :: ss) | Err e => Err e end
  | _ :: _ => raise TypeError "sequence item: expected str instance"
  end.

Definition attr_ast_to_dotted_name (tree : value) : result string :=
  match tree with
  | VNode c _ =>
      if is_class c "Attribute" then
        match dotted_acc tree with
        | Ok acc =>
            match strs_of (rev acc) with
            | Ok names => Ok (join "." names)
            | Err e => Err e
            end
        | Err e => Err e
        end
      else raise TypeError ""
  | _ => raise TypeError ""
  end.

(** Something that [unastify] can call: positional arguments, then keyword
    arguments. *)
Definition callable : Type :=
  list value -> list (string * value) -> result value.

Fixpoint lookup_str (name : string) (l : list (string * value)) : option value :=
  match l with
  | [] => None
  | (n, v) :: rest => if String.eqb n name then Some v else lookup_str name rest
  end.

(** Calling the node class [ast.<name>], whose [_fields] are [fs]: positional
    arguments go to the fields in order, keyword arguments are set as
    attributes after them. The instance is given by what [ast.iter_fields]
    yields of it: the fields that were set, in the order of [_fields]. A
    constructor sets the attributes it is given; the defaults that later
    versions of Python add for fields left out are not modelled. *)
Definition construct_node (name : string) (fs : list string) : callable :=
  fun args kwargs =>
    if (List.length fs <? List.length args)%nat
    then raise TypeError "constructor takes fewer positional arguments"
    else
      let positional := combine fs args in
      let attr f :=
        match lookup_str f kwargs with
        | Some v => Some v
        | None => lookup_str f positional
        end in
      Ok (VNode (AstClass name)
            (flat_map (fun f => match attr f with
                                | Some v => [(f, v)]
                                | None => []
                                end) fs)).

(** [lookup_thing(dotted_name)]: the global [ast] of the module and the node
    classes in it are modelled, any other name is the environment's. *)
Definition lookup_thing (env : pyenv) (dotted_name : string) : result callable :=
  if negb (String.prefix "mcpy.quotes" dotted_name)
  then raise NotImplementedError ""
  else
    let path := split_on "." dotted_name in
    if (List.length path <? 3)%nat then raise NotImplementedError ""
    else
      match skipn 2 path with
      | ["ast"%string; name] =>
          match ast_fields env name with
          | Some fs => Ok (construct_node name fs)
          | None => other_callee env ["ast"%string; name]
          end
      | rest => other_callee env rest
      end.

(** The [raise TypeError] that ends [unastify]. The message is built before
    the exception is: when the renderer raises on [tree], what it raises
    comes out in place of the [TypeError]. *)
Definition dont_know (env : pyenv) (tree : value) : result value :=
  match unparse_error env tree with
  | Some e => Err e
  | None => raise TypeError ("Don't know how to unastify " ++ unparse env tree)
  end.

(** The outcome of [f] on each thing that [for elt in v] yields. A string or
    a byte string yields atoms, for which the outcome is [on_atom]. *)
Definition member_outcomes {B} (f : value -> result B)
  (on_atom : value -> result B) (v : value) : result (list (result B)) :=
  match v with
  | VList l | VTuple l | VSet l => Ok (map f l)
  | VDict items => Ok (map (fun kv => f (fst kv)) items)
  | VStr s =>
      Ok (map (fun c => on_atom (VStr (String c EmptyString)))
              (list_ascii_of_string s))
  | VBytes b =>
      Ok (map (fun c => on_atom (VInt (Z.of_nat (nat_of_ascii c)))) b)
  | _ => raise TypeError "object is not iterable"
  end.

(** [{x for x in ...}] over outcomes: each member is computed, hashed and
    added before the next one is computed. *)
Fixpoint set_comp (env : pyenv) (acc : list value) (rs : list (result value))
  : result (list value) :=
  match rs with
  | [] => Ok acc
  | Err e :: _ => Err e
  | Ok x :: rest =>
      if hashable x then set_comp env (set_add env x acc) rest
      else raise TypeError "unhashable type"
  end.

(** [{k: v for k, v in zip(keys, values)}] over outcomes, key before value. *)
Fixpoint dict_comp (env : pyenv) (acc : list (value * value))
  (ks vs : list (result value)) : result (list (value * value)) :=
  match ks, vs with
  | rk :: ks', rv :: vs' =>
      match rk with
      | Err e => Err e
      | Ok k =>
          match rv with
          | Err e => Err e
          | Ok v =>
              if hashable k then dict_comp env (dict_put env k v acc) ks' vs'
              else raise TypeError "unhashable type"
          end
      end
  | _, _ => Ok acc
  end.

(** [{k: v for k, v in items}]. *)
Fixpoint dict_from_pairs (env : pyenv) (acc : list (value * value))
  (items : list value) : result (list (value * value)) :=
  match items with
  | [] => Ok acc
  | item :: rest =>
      match unpack_pair item with
      | Err e => Err e
      | Ok (k, v) =>
          if hashable k then dict_from_pairs env (dict_put env k v acc) rest
          else raise TypeError "unhashable type"
      end
  end.

(** [**kwargs]: the keys must be strings. *)
Fixpoint kwargs_of (items : list (value * value)) : result (list (string * value)) :=
  match items with
  | [] => Ok []
  | (VStr k, v) :: rest =>
      match kwargs_of rest with Ok l => Ok ((k, v) :: l) | Err e => Err e end
  | _ :: _ => raise TypeError "keywords must be strings"
  end.

(** [unastify(tree)]. *)
Fixpoint unastify (env : pyenv) (tree : value) {struct tree} : result value :=
  let members (v : value) := member_outcomes (unastify env) (dont_know env) v in
  match tree with
  | VList elts =>
      match sequence (map (unastify env) elts) with
      | Ok l => Ok (VList l)
      | Err e => Err e
      end
  | VNode (AstClass c) fields =>
      if String.eqb c "Constant" then getattr fields "value"
      else if String.eqb c "keyword" then
        (arg <- getattr fields "arg" ;;
         v <- with_attr "value" (unastify env) fields ;;
         Ok (VTuple [arg; v]))%result
      else if String.eqb c "List" then
        (rs <- with_attr "elts" members fields ;;
         l <- sequence rs ;; Ok (VList l))%result
      else if String.eqb c "Tuple" then
        (rs <- with_attr "elts" members fields ;;
         l <- sequence rs ;; Ok (VTuple l))%result
      else if String.eqb c "Dict" then
        (ks <- with_attr "keys" Ok fields ;;
         vs <- with_attr "values" Ok fields ;;
         rks <- with_attr "keys" members fields ;;
         rvs <- with_attr "values" members fields ;;
         d <- dict_comp env [] rks rvs ;; Ok (VDict d))%result
      else if String.eqb c "Set" then
        (rs <- with_attr "elts" members fields ;;
         s <- set_comp env [] rs ;; Ok (VSet s))%result
      else if String.eqb c "Call" then
        (func <- getattr fields "func" ;;
         dotted_name <- attr_ast_to_dotted_name func ;;
         callee <- lookup_thing env dotted_name ;;
         args <- with_attr "args" (unastify env) fields ;;
         keywords <- with_attr "keywords" (unastify env) fields ;;
         items <- py_iter keywords ;;
         kwargs <- dict_from_pairs env [] items ;;
         args' <- py_iter args ;;
         kwargs' <- kwargs_of kwargs ;;
         callee args' kwargs')%result
      else dont_know env tree
  | _ => dont_know env tree
  end.

(** ** Values that survive the round trip *)

Fixpoint no_dot (s : string) : bool :=
  match s with
  | EmptyString => true
  | String c rest => negb (Ascii.eqb c ".") && no_dot rest
  end.

(** No member of [l] equals ([==]) a member of [acc] or an earlier member of
    [l]: what holds of the members of a set and of the keys of a dict. *)
Fixpoint fresh_members (env : pyenv) (acc l : list value) : bool :=
  match l with
  | [] => true
  | x :: rest =>
      negb (existsb (fun y => py_eq env y x) acc) &&
      fresh_members env (acc ++ [x]) rest
  end.

(** [names] is [fs] with some names left out. *)
Fixpoint subseqb (names fs : list string) : bool :=
  match names, fs with
  | [], _ => true
  | _ :: _, [] => false
  | n :: names', f :: fs' =>
      if String.eqb n f then subseqb names' fs' else subseqb names fs'
  end.

Fixpoint nodupb (l : list string) : bool :=
  match l with
  | [] => true
  | x :: rest => negb (str_in x rest) && nodupb rest
  end.

(** A value without markers that Python could hold and [astify] can lift:
    atoms; lists and tuples of such values; sets and dicts of such values,
    whose members (keys) are hashable and pairwise different; and instances
    of node classes of the [ast] module whose fields are among the [_fields]
    of the class, in that order, and hold such values. *)
Fixpoint plain (env : pyenv) (v : value) {struct v} : bool :=
  match v with
  | VInt _ | VFloat _ | VStr _ | VBytes _ | VBool _ | VNone => true
  | VList l | VTuple l => forallb (plain env) l
  | VSet l =>
      forallb (plain env) l && forallb hashable l && fresh_members env [] l
  | VDict items =>
      forallb (fun kv => plain env (fst kv) && plain env (snd kv)) items &&
      forallb (fun kv => hashable (fst kv)) items &&
      fresh_members env [] (map fst items)
  | VNode (AstClass c) fields =>
      match ast_fields env c with
      | Some fs =>
          no_dot c && nodupb fs && subseqb (map fst fields) fs &&
          forallb (fun fv => plain env (snd fv)) fields
      | None => false
      end
  | VNode (MarkerClass _) _ => false
  | VObject _ => false
  end.

(** What [unastify] makes of a lifted field, [(arg, value)], and the item of
    the keyword-argument dict made from it. *)
Definition kw_item (fv : string * value) : value := VTuple [VStr (fst fv); snd fv].
Definition kw_pair (fv : string * value) : value * value := (VStr (fst fv), snd fv).

(** ** What unastify accepts *)

(** The two exception classes with which [unastify] itself turns a tree
    down: this is the spec's LowerError. *)
Definition LowerError (e : exn) : Prop :=
  exn_cls e = TypeError \/ exn_cls e = NotImplementedError.

(** A dotted name that [lookup_thing] goes on to resolve: it starts with
    [mcpy.quotes] and has at least three components. *)
Definition recognized (dotted_name : string) : bool :=
  String.prefix "mcpy.quotes" dotted_name &&
  (3 <=? List.length (split_on "." dotted_name))%nat.

(** The shapes that [unastify] has a branch for. *)
Definition known_shape (tree : value) : bool :=
  match tree with
  | VList _ => true
  | VNode (AstClass c) _ =>
      existsb (String.eqb c)
        ["Constant"; "keyword"; "List"; "Tuple"; "Dict"; "Set"; "Call"]%string
  | _ => false
  end.

(** The fields that the grammar of [ast] gives the node classes which
    [unastify] takes apart. *)
Definition required_fields (c : string) : list string :=
  if String.eqb c "Call" then ["func"; "args"; "keywords"]%string
  else if String.eqb c "Attribute" then ["value"; "attr"]%string
  else if String.eqb c "Name" then ["id"]%string
  else if String.eqb c "Constant" then ["value"]%string
  else if String.eqb c "keyword" then ["arg"; "value"]%string
  else if String.eqb c "List" then ["elts"]%string
  else if String.eqb c "Tuple" then ["elts"]%string
  else if String.eqb c "Set" then ["elts"]%string
  else if String.eqb c "Dict" then ["keys"; "values"]%string
  else [].

(** A tree in which every such node carries its fields. *)
Fixpoint well_formed (v : value) {struct v} : bool :=
  match v with
  | VList l | VTuple l | VSet l => forallb well_formed l
  | VDict items =>
      forallb (fun kv => well_formed (fst kv) && well_formed (snd kv)) items
  | VNode c fields =>
      match c with
      | AstClass n =>
          forallb (fun f => str_in f (map fst fields)) (required_fields n)
      | MarkerClass _ => true
      end && forallb (fun fv => well_formed (snd fv)) fields
  | _ => true
  end.

(* ================================================================== *)
(** * utilities.py: flatten_suite *)

(** [flatten_suite(lst)]: lists among the items are spliced in, [None] is
    dropped, and an empty outcome is [None]. *)
Definition flatten_suite (lst : list value) : value :=
  let out :=
    flat_map (fun elt => match elt with
                         | VList l => l
                         | VNone => []
                         | _ => [elt]
                         end) lst in
  match out with
  | [] => VNone
  | _ :: _ => VList out
  end.

(** [NodeTransformerListMixin.visit(self, tree)], in a class whose [visit]
    is [self_visit] and whose next class in line has the [visit] that
    [super_visit] is. The generator that [flatten_suite] is given makes the
    calls of [self.visit] one by one, in the order of the list. *)
Module NodeTransformerListMixin.
Definition visit {S : Type} (self_visit super_visit : value -> comp S value)
  (tree : value) : comp S value :=
  match tree with
  | VNone => ret VNone
  | VList l => bind (mapC self_visit l) (fun l' => ret (flatten_suite l'))
  | _ => super_visit tree
  end.
End NodeTransformerListMixin.

(* ================================================================== *)
(** * markers.py *)

Fixpoint is_prefix (p l : list string) : bool :=
  match p, l with
  | [], _ => true
  | a :: p', b :: l' => String.eqb a b && is_prefix p' l'
  | _ :: _, [] => false
  end.

(** [isinstance(tree, cls)] for a marker class [cls]: the class of [tree]
    is [cls] or derives from it. *)
Definition isinstance_marker (tree : value) (cls : list string) : bool :=
  match tree with
  | VNode (MarkerClass chain) _ => is_prefix cls chain
  | _ => false
  end.

(** Modelled from the spec: [ASTVisitor] of walker.py, which is not among the
    sources, is the tree-wide search of the spec: its [visit] walks a list
    item by item and hands a node to [examine]; its [generic_visit] is that of
    [ast.NodeVisitor], which visits the nodes among the fields of a node and
    the nodes among the items of its list fields. [examine_markers] is the
    [examine] of [ASTMarkerCollector], returning what it collects, in
    order. *)
Fixpoint examine_markers (cls : list string) (tree : value) {struct tree}
  : list value :=
  match tree with
  | VNode c fields =>
      (if isinstance_marker tree cls then [tree] else []) ++
      flat_map
        (fun fv =>
           match snd fv with
           | VList items =>
               flat_map (fun item =>
                           match item with
                           | VNode _ _ => examine_markers cls item
                           | _ => []
                           end) items
           | VNode _ _ => examine_markers cls (snd fv)
           | _ => []
           end) fields
  | _ => []
  end.

(** [get_markers(tree, cls)]. What is neither a node nor a list has no
    [_fields] for [generic_visit] to read. *)
Fixpoint get_markers (cls : list string) (tree : value) {struct tree}
  : result (list value) :=
  match tree with
  | VNode _ _ => Ok (examine_markers cls tree)
  | VList l =>
      match sequence (map (get_markers cls) l) with
      | Ok found => Ok (List.concat found)
      | Err e => Err e
      end
  | _ => raise AttributeError "_fields"
  end.

(** [ast.NodeTransformer.generic_visit] on the fields of a node, with
    [visit] the method of the transformer: a node among the items of a list
    field is replaced by what [visit] returns for it, dropped when that is
    [None] and spliced in when it is a list; a field that is a node is
    replaced likewise, and deleted when [visit] returns [None]. *)
Definition visit_fields (visit : value -> result value)
  : list (string * value) -> result (list (string * value)) :=
  fix go (fields : list (string * value)) :=
    match fields with
    | [] => Ok []
    | (name, old_value) :: rest =>
        match
          match old_value with
          | VList items =>
              match
                sequence
                  (map (fun item =>
                          match item with
                          | VNode _ _ =>
                              match visit item with
                              | Ok VNone => Ok []
                              | Ok (VNode c f) => Ok [VNode c f]
                              | Ok other =>
                                  match py_iter other with
                                  | Ok l => Ok l
                                  | Err e => Err e
                                  end
                              | Err e => Err e
                              end
                          | _ => Ok [item]
                          end) items)
              with
              | Ok new_values => Ok [(name, VList (List.concat new_values))]
              | Err e => Err e
              end
          | VNode _ _ =>
              match visit old_value with
              | Ok VNone => Ok []
              | Ok new_node => Ok [(name, new_node)]
              | Err e => Err e
              end
          | _ => Ok [(name, old_value)]
          end
        with
        | Err e => Err e
        | Ok field =>
            match go rest with
            | Ok rest' => Ok (field ++ rest')
            | Err e => Err e
            end
        end
    end.

(** Modelled from the spec: [ASTTransformer] of walker.py, which is not among
    the sources, is the tree-wide replace of the spec: its [visit] hands a
    node to [transform] and maps itself over a list, flattening the
    outcome. [transform_markers] is the [transform] of [ASTMarkerDeleter]:
    when [tree] is an instance of [cls], [tree] becomes [tree.body]; then
    [generic_visit(tree)] visits the children of that [tree] and returns
    it. *)
Fixpoint transform_markers (cls : list string) (tree : value) {struct tree}
  : result value :=
  match tree with
  | VNode c fields =>
      if isinstance_marker tree cls then
        with_attr "body"
          (fun body =>
             match body with
             | VNode cb fb =>
                 match visit_fields (transform_markers cls) fb with
                 | Ok fb' => Ok (VNode cb fb')
                 | Err e => Err e
                 end
             | _ => raise AttributeError "_fields"
             end) fields
      else
        match visit_fields (transform_markers cls) fields with
        | Ok fields' => Ok (VNode c fields')
        | Err e => Err e
        end
  | _ => raise AttributeError "_fields"
  end.

(** [delete_markers(tree, cls)]: [ASTMarkerDeleter().visit(tree)]. *)
Fixpoint delete_markers (cls : list string) (tree : value) {struct tree}
  : result value :=
  match tree with
  | VList l =>
      match sequence (map (delete_markers cls) l) with
      | Ok l' => Ok (flatten_suite l')
      | Err e => Err e
      end
  | _ => transform_markers cls tree
  end.

(** [check_no_markers_remaining(tree, *, filename)]. The list of the markers
    found is left out of the message. *)
Definition check_no_markers_remaining (tree : value) (filename : string)
  : result unit :=
  match get_markers ASTMarker tree with
  | Err e => Err e
  | Ok [] => Ok tt
  | Ok (_ :: _) =>
      raise MacroExpansionError
            (filename ++ ": AST markers remaining after expansion")
  end.

(* ================================================================== *)
(** * visitors.py *)

(** [str(lineno)] for the message of [_expand]. *)
Definition str_of_lineno (lineno : option Z) : string :=
  match lineno with
  | Some z => NilZero.string_of_int (Z.to_int z)
  | None => "None"
  end.

Definition with_recursive (b : bool) (self : expander) : expander :=
  {| bindings := bindings self; filename := filename self; _recursive := b |}.

Section BaseMacroExpander.
Variable env : pyenv.

(** [_apply_macro(macro, tree, kw)]: the macro function, applied to the tree
    with the keyword arguments [syntax], [expander] and, when the caller
    gave it, [optional_vars]. *)
Variable _apply_macro :
  macro -> value -> string -> expander -> option value -> comp estate value.

(** [super().visit(tree)]: the methods that a subclass adds to
    [ast.NodeTransformer]. *)
Variable super_visit : expander -> value -> comp estate value.

(** [visit(self, tree)]. *)
Definition visit (self : expander) (tree : value) : comp estate value :=
  match bindings self with
  | [] => ret tree
  | _ :: _ => super_visit self tree
  end.

(** [visit_once(self, tree)]: the mode is an argument of the model, so
    nothing is left to restore. *)
Definition visit_once (self : expander) (tree : value) : comp estate value :=
  visit (with_recursive false self) tree.

(** [_visit_expansion(self, expansion, target)]. *)
Definition _visit_expansion (self : expander) (expansion target : value)
  : comp estate value :=
  let each (x : value) : comp estate value :=
    let x' := fix_missing env x in
    if _recursive self then visit self x' else ret x' in
  match expansion with
  | VNone => ret VNone
  | VNode _ _ => each expansion
  | _ =>
      match py_iter expansion with
      | Err e => throw e
      | Ok items => bind (mapC each items) (fun l => ret (VList l))
      end
  end.

(** [_expand(self, syntax, target, macroname, tree, kw)]. The trees of the
    model carry no source positions, so the [lineno] attribute of [target],
    when it has one, comes as an argument. *)
Definition _expand (self : expander) (syntax : string) (target : value)
  (lineno : option Z) (macroname : string) (tree : value)
  (optional_vars : option value) : comp estate value :=
  match dict_getitem macroname (bindings self) with
  | None => throw (Exn KeyError macroname None)
  | Some macro =>
      let original_code := unparse env target in
      fun st =>
        match _apply_macro macro tree syntax self optional_vars st with
        | None => None
        | Some (Ok expansion, st1) => _visit_expansion self expansion target st1
        | Some (Err err, st1) =>
            let cause :=
              match exn_cls err with
              | MacroExpansionError => exn_cause err
              | _ => Some err
              end in
            let msg :=
              ("use site was at " ++ filename self ++ ":" ++
               str_of_lineno lineno ++ ": " ++ original_code)%string in
            Some (Err (Exn MacroExpansionError msg cause), st1)
        end
  end.

(** [_ismacro(self, name)]. *)
Definition _ismacro (self : expander) (name : string) : bool :=
  match dict_getitem name (bindings self) with
  | Some _ => true
  | None => false
  end.

End BaseMacroExpander.

(* ================================================================== *)
(** * quotes.py: the quasiquote operators *)

Definition set_quotelevel (tr : NestingLevelTracker.t) (st : estate) : estate :=
  {| _quotelevel := tr; gensyms := gensyms st;
     _hygienic_registry := _hygienic_registry st;
     _hygienic_bindings := _hygienic_bindings st |}.

(** [with _quotelevel.changed_by(delta): body]. *)
Definition quotelevel_changed_by {A} (delta : Z) (body : comp estate A)
  : comp estate A :=
  NestingLevelTracker.changed_by _quotelevel set_quotelevel delta body.

(** [_quotelevel.value]. *)
Definition quotelevel_value : comp estate Z :=
  fun st => Some (NestingLevelTracker._get_value (_quotelevel st), st).

(** [v in (q, u, n, a, s, h)]. *)
Definition is_quasiquote_macro (m : macro) : bool :=
  match m with
  | Mother _ => false
  | _ => true
  end.

(** Modelled from the spec: the expander class of expander.py is not among
    the sources. An invocation site is a syntactic location recognized as
    the invocation of a transformer bound in the table; the model has the
    sites of expression macros, [name[tree]]: a [Subscript] whose [value] is
    a [Name] bound in the table and whose [slice] is the candidate subtree.
    Block and decorator sites are not modelled. *)
Definition invocation_site (bs : list (string * macro)) (node : value)
  : option (string * value) :=
  match node with
  | VNode c fields =>
      if is_class c "Subscript" then
        match getattr fields "value", getattr fields "slice" with
        | Ok (VNode cn fn), Ok tree =>
            if is_class cn "Name" then
              match getattr fn "id" with
              | Ok (VStr name) =>
                  match dict_getitem name bs with
                  | Some _ => Some (name, tree)
                  | None => None
                  end
              | _ => None
              end
            else None
        | _, _ => None
        end
      else None
  | _ => None
  end.

(** [ast.NodeTransformer.generic_visit], as [visit_fields] has it, for a
    [visit] that has effects. *)
Definition visit_item (visit : value -> comp estate value) (item : value)
  : comp estate (list value) :=
  match item with
  | VNode _ _ =>
      bind (visit item)
           (fun r => match r with
                     | VNone => ret []
                     | VNode _ _ => ret [r]
                     | other => lift (py_iter other)
                     end)
  | _ => ret [item]
  end.

Definition visit_field (visit : value -> comp estate value)
  (fv : string * value) : comp estate (list (string * value)) :=
  match snd fv with
  | VList items =>
      bind (mapC (visit_item visit) items)
           (fun ls => ret [(fst fv, VList (List.concat ls))])
  | VNode _ _ =>
      bind (visit (snd fv))
           (fun r => match r with
                     | VNone => ret []
                     | _ => ret [(fst fv, r)]
                     end)
  | _ => ret [fv]
  end.

Definition generic_visit (visit : value -> comp estate value) (node : value)
  : comp estate value :=
  match node with
  | VNode c fields =>
      bind (mapC (visit_field visit) fields)
           (fun fs => ret (VNode c (List.concat fs)))
  | _ => throw (Exn AttributeError "_fields" None)
  end.

Section Operators.
Variable env : pyenv.

(** [visit] of an expander instance, as the operators call it. *)
Variable expander_visit : expander -> value -> comp estate value.

(** Modelled from the spec: [expand_macros(tree, bindings, filename)] of
    expander.py, which is not among the sources, runs a new expander
    instance, in recursive mode, over [tree]. *)
Definition expand_macros (tree : value) (bs : list (string * macro))
  (file : string) : comp estate value :=
  expander_visit {| bindings := bs; filename := file; _recursive := true |} tree.

Definition _expand_quasiquotes (tree : value) (expander : expander)
  : comp estate value :=
  expand_macros tree
    (filter (fun kv => is_quasiquote_macro (snd kv)) (bindings expander))
    (filename expander).

(** Modelled from the spec: [visit_recursively], which quotes.py calls and
    visitors.py lacks, is the counterpart of [visit_once]: a walk in
    recursive mode. *)
Definition visit_recursively (self : expander) (tree : value)
  : comp estate value :=
  expander_visit (with_recursive true self) tree.

(** [_unquote_expand(tree, expander)]. The function runs the walk, drops
    what the walk returns and returns nothing; its callers go on with the
    object [tree]. A walk returns the node it was given, changed in place,
    unless the node is an invocation site, which it replaces; for a list it
    returns a new list. So the model gives what the walk returns when [tree]
    is not a site and not a list; otherwise it runs the walk for its effects
    and its exceptions and gives [left_in_place] of [tree]. *)
Definition _unquote_expand (tree : value) (expander : expander)
  : comp estate value :=
  bind quotelevel_value
       (fun level =>
          let inner :=
            filter (fun kv => is_quasiquote_macro (snd kv)) (bindings expander) in
          let sites := if level =? 0 then bindings expander else inner in
          let walk :=
            if level =? 0 then visit_recursively expander tree
            else _expand_quasiquotes tree expander in
          let kept : comp estate value :=
            fun st =>
              bind walk (fun _ => ret (left_in_place env expander st tree)) st in
          match tree with
          | VList _ => kept
          | _ =>
              match invocation_site sites tree with
              | Some _ => kept
              | None => walk
              end
          end).

(** [q(tree, *, syntax, expander, **kw)]. The list of the markers found is
    left out of the message of the assertion. *)
Definition q (tree : value) (syntax : string) (expander : expander)
  (optional_vars : option value) : comp estate value :=
  if negb (str_in syntax ["expr"; "block"]%string)
  then throw (Exn SyntaxError "q is an expr and block macro only" None)
  else
    quotelevel_changed_by 1
      (tree <- _expand_quasiquotes tree expander ;;
       tree <- astify (Some expander) tree ;;
       ps <- lift (get_markers QuasiquoteMarker tree) ;;
       match ps with
       | _ :: _ =>
           throw (Exn AssertionError
                      "QuasiquoteMarker instances remaining in output" None)
       | [] =>
           if String.eqb syntax "block" then
             match optional_vars with
             | None => throw (Exn KeyError "optional_vars" None)
             | Some target =>
                 match target with
                 | VNode (AstClass "Name") _ =>
                     ret (VNode (AstClass "Assign")
                                [("targets", VList [target]); ("value", tree)]%string)
                 | _ =>
                     throw (Exn SyntaxError
                                ("expected a single asname, got "
                                   ++ unparse env target) None)
                 end
             end
           else ret tree
       end)%comp.

(** The two checks that open [u], [n], [a], [s] and [h]. *)
Definition unquote_checks (name : string) (syntax : string) : comp estate unit :=
  if negb (String.eqb syntax "expr")
  then throw (Exn SyntaxError (name ++ " is an expr macro only") None)
  else
    (level <- quotelevel_value ;;
     if level <? 1
     then throw (Exn SyntaxError
                     (name ++ "[] encountered while quotelevel < 1") None)
     else ret tt)%comp.

(** [u(tree, *, syntax, expander, **kw)]. *)
Definition u (tree : value) (syntax : string) (expander : expander)
  : comp estate value :=
  (unquote_checks "u" syntax ;;
   quotelevel_changed_by (-1)
     (tree <- _unquote_expand tree expander ;;
      ret (mk_ASTLiteral (ast_Call (_mcpy_quotes_attr "astify") [tree] []))))%comp.

(** [n(tree, *, syntax, **kw)]. *)
Definition n (tree : value) (syntax : string) : comp estate value :=
  (unquote_checks "n" syntax ;;
   quotelevel_changed_by (-1)
     (lifted <- astify None
                  (VNode (AstClass "Name") [("id", mk_ASTLiteral tree)]%string) ;;
      ret (mk_ASTLiteral lifted)))%comp.

(** [a(tree, *, syntax, **kw)]. *)
Definition a (tree : value) (syntax : string) : comp estate value :=
  (unquote_checks "a" syntax ;;
   quotelevel_changed_by (-1) (ret (mk_ASTLiteral tree)))%comp.

(** [s(tree, *, syntax, **kw)]. *)
Definition s (tree : value) (syntax : string) : comp estate value :=
  (unquote_checks "s" syntax ;;
   ret (mk_ASTLiteral
          (ast_Call
             (VNode (AstClass "Attribute")
                    [("value", _mcpy_quotes_attr "ast"); ("attr", VStr "List")]%string)
             [] [ast_keyword "elts" tree])))%comp.

(** [h(tree, *, syntax, expander, **kw)]. *)
Definition h (tree : value) (syntax : string) (expander : expander)
  : comp estate value :=
  (unquote_checks "h" syntax ;;
   quotelevel_changed_by (-1)
     (let name := unparse env tree in
      tree <- _unquote_expand tree expander ;;
      ret (mk_CaptureLater tree (VStr name))))%comp.

(** [macro(tree, **kw)] for each macro function. *)
Definition apply_macro (m : macro) (tree : value) (syntax : string)
  (expander : expander) (optional_vars : option value) : comp estate value :=
  match m with
  | Mq => q tree syntax expander optional_vars
  | Mu => u tree syntax expander
  | Mn => n tree syntax
  | Ma => a tree syntax
  | Ms => s tree syntax
  | Mh => h tree syntax expander
  | Mother name => lift (other_macro env name tree syntax)
  end.

(** Modelled from the spec: what the expander class adds to
    [ast.NodeTransformer.visit]. It has [NodeTransformerListMixin] in front,
    so [None] stays [None] and a list is walked item by item and flattened;
    an invocation site is handed to [_expand]; any other node is walked by
    [generic_visit]. *)
Definition super_visit (self : expander) (tree : value) : comp estate value :=
  NodeTransformerListMixin.visit (expander_visit self)
    (fun node =>
       match invocation_site (bindings self) node with
       | Some (macroname, arg) =>
           _expand env apply_macro expander_visit self "expr" node None
                   macroname arg None
       | None => generic_visit (expander_visit self) node
       end) tree.

End Operators.

(** The expander at work, with [fuel] bounding the depth of the calls. *)
Fixpoint expander_visit (env : pyenv) (fuel : nat) (self : expander)
  (tree : value) {struct fuel} : comp estate value :=
  match fuel with
  | O => fun _ => None
  | S fuel' => visit (super_visit env (expander_visit env fuel')) self tree
  end.

(** The lexical nesting of the operators, by the table of the spec: [q]
    opens a level for its body; [u], [n], [a] and [h] need level 1 at least
    and close one for their body; [s] needs level 1 at least and leaves the
    level as it is. [well_nested bs level tree] holds when every invocation
    in [tree] of an operator bound in [bs] stands at a valid level. *)
Fixpoint well_nested (bs : list (string * macro)) (level : Z) (tree : value)
  {struct tree} : bool :=
  match tree with
  | VList l | VTuple l | VSet l => forallb (well_nested bs level) l
  | VDict items =>
      forallb (fun kv => well_nested bs level (fst kv) &&
                         well_nested bs level (snd kv)) items
  | VNode c fields =>
      match invocation_site bs tree with
      | Some (name, _) =>
          match dict_getitem name bs with
          | Some Mq =>
              forallb (fun fv => well_nested bs (level + 1) (snd fv)) fields
          | Some Ms =>
              (1 <=? level) &&
              forallb (fun fv => well_nested bs level (snd fv)) fields
          | Some (Mu | Mn | Ma | Mh) =>
              (1 <=? level) &&
              forallb (fun fv => well_nested bs (level - 1) (snd fv)) fields
          | _ => forallb (fun fv => well_nested bs level (snd fv)) fields
          end
      | None => forallb (fun fv => well_nested bs level (snd fv)) fields
      end
  | _ => true
  end.

(** [astify], with or without an expander, returns a tree and leaves the
    state alone, and [unastify] takes the tree back to [v]. *)
Definition round_trips (env : pyenv) (e : option expander) (v : value) : Prop :=
  forall st, exists t, astify e v st = Some (Ok t, st) /\ unastify env t = Ok v.

(* ================================================================== *)
(** * Sample data *)

(** An environment with a few node classes of [ast], a renderer that prints
    nothing and turns nothing down, macro functions that leave their
    argument as it is, no equality beyond the computed one, no other
    callables and no other macros. *)
Definition sample_fields (c : string) : option (list string) :=
  if String.eqb c "Name" then Some ["id"; "ctx"]%string
  else if String.eqb c "Load" then Some []
  else if String.eqb c "Constant" then Some ["value"; "kind"]%string
  else if String.eqb c "BinOp" then Some ["left"; "op"; "right"]%string
  else if String.eqb c "Add" then Some []
  else if String.eqb c "Subscript" then Some ["value"; "slice"; "ctx"]%string
  else if String.eqb c "List" then Some ["elts"; "ctx"]%string
  else None.

Definition sample_env : pyenv :=
  {| ast_fields := sample_fields;
     unparse := fun _ => "<source>"%string;
     unparse_error := fun _ => None;
     left_in_place := fun _ _ tree => tree;
     other_eq := fun _ _ => false;
     other_callee := fun path => raise KeyError (join "." path);
     fix_missing := fun tree => tree;
     other_macro := fun _ tree _ => Ok tree |}.

(** The exception of the renderer, [UnparserError]; its message is left
    out. *)
Definition UnparserError : exn := Exn (OtherError "UnparserError") "" None.

(** [sample_env] with a renderer that renders nodes and lists of nodes and
    raises on any other value. *)
Definition tree_renderer_env : pyenv :=
  {| ast_fields := sample_fields;
     unparse := fun _ => "<source>"%string;
     unparse_error := fun v => match v with
                               | VNode _ _ | VList _ => None
                               | _ => Some UnparserError
                               end;
     left_in_place := fun _ _ tree => tree;
     other_eq := fun _ _ => false;
     other_callee := fun path => raise KeyError (join "." path);
     fix_missing := fun tree => tree;
     other_macro := fun _ tree _ => Ok tree |}.

(** The state of a fresh interpreter, with two draws of [uuid4] to come. *)
Definition fresh_gensyms : gensym_state :=
  {| _previous_gensyms := []; uuid_draws := ["0a"; "0b"]%string |}.

Definition fresh_state : estate :=
  {| _quotelevel := NestingLevelTracker.__init__ 0;
     gensyms := fresh_gensyms;
     _hygienic_registry := [];
     _hygienic_bindings := [] |}.

(** The six operators, bound under their own names. *)
Definition family : list (string * macro) :=
  [("q", Mq); ("u", Mu); ("n", Mn); ("a", Ma); ("s", Ms); ("h", Mh)]%string.

Definition sample_expander : expander :=
  {| bindings := family; filename := "demo.py"; _recursive := true |}.

(** The tree of the expression [name[tree]]. *)
Definition invoke (name : string) (tree : value) : value :=
  VNode (AstClass "Subscript")
        [("value", ast_Name_Load name); ("slice", tree); ("ctx", ast_Load)]%string.

(** The tree of [s[[u[x]]]], the body of [q[s[[u[x]]]]]. *)
Definition s_of_list_of_u : value :=
  invoke "s"
    (VNode (AstClass "List")
           [("elts", VList [invoke "u" (ast_Name_Load "x")]);
            ("ctx", ast_Load)]%string).

(** The value [[1, "a", (2, 3)]]. *)
Definition sample_list : value :=
  VList [VInt 1; VStr "a"; VTuple [VInt 2; VInt 3]].

(** An [ASTLiteral] whose body is an [ASTLiteral] around the name [x]. *)
Definition nested_marker : value :=
  mk_ASTLiteral (mk_ASTLiteral (ast_Name_Load "x")).

(** Two objects with equal values. *)
Definition object_1 : pyobj := {| oid := 1; contents := VStr "spam" |}.
Definition object_2 : pyobj := {| oid := 2; contents := VStr "spam" |}.

(** A program for one tracker: a quote, two unquotes inside it of which the
    second asks for level -1, then a level that is no integer. *)
Definition sample_prog : NestingLevelTracker.prog :=
  NestingLevelTracker.WithChangedBy 1
    (NestingLevelTracker.Seq
       (NestingLevelTracker.TryExcept
          (NestingLevelTracker.WithChangedBy (-1)
             (NestingLevelTracker.WithChangedBy (-1) NestingLevelTracker.Pass))
          NestingLevelTracker.Pass)
       (NestingLevelTracker.WithSetTo (VStr "2") NestingLevelTracker.Pass)).

(** A body that raises. *)
Definition failing_body : comp estate unit :=
  throw (Exn (OtherError "RuntimeError") "boom" None).

(** An expander with an empty binding table. *)
Definition empty_expander : expander :=
  {| bindings := []; filename := "demo.py"; _recursive := true |}.

(** The tree of [{**{}}], as [ast.parse] gives it: a [Dict] whose one key
    is [None] and whose one value is the tree of [{}]. *)
Definition dict_of_starred : value := ast_Dict [VNone] [ast_Dict [] []].

(** The block [with q as quoted: u[u[x]]]: its body, its target and the
    statement. *)
Definition quoted_body : list value :=
  [VNode (AstClass "Expr")
         [("value", invoke "u" (invoke "u" (ast_Name_Load "x")))]%string].

Definition quoted_target : value :=
  VNode (AstClass "Name")
        [("id", VStr "quoted"); ("ctx", VNode (AstClass "Store") [])]%string.

Definition with_q_as_quoted : value :=
  VNode (AstClass "With")
        [("items",
          VList [VNode (AstClass "withitem")
                       [("context_expr", ast_Name_Load "q");
                        ("optional_vars", quoted_target)]%string]);
         ("body", VList quoted_body)]%string.

(** A [visit] that counts its calls, deletes [0], replaces [1] by the two
    items [7] and [8], and returns anything else as it is. *)
Definition counting_visit (tree : value) : comp nat value :=
  fun calls =>
    Some (Ok (match tree with
              | VInt 0 => VNone
              | VInt 1 => VList [VInt 7; VInt 8]
              | _ => tree
              end), S calls).

(* ================================================================== *)
(** * What the properties below are stated with *)

(** Successive calls of [gensym], one for each basename, first call first:
    the names returned, and the state after the last call. *)
Fixpoint gensym_calls (basenames : list (option string)) (g : gensym_state)
  : option (list string * gensym_state) :=
  match basenames with
  | [] => Some ([], g)
  | b :: rest =>
      match gensym b g with
      | None => None
      | Some (sym, g1) =>
          match gensym_calls rest g1 with
          | None => None
          | Some (syms, g2) => Some (sym :: syms, g2)
          end
      end
  end.

(** The tree of the dotted name [root.a1. ... .an], every node in [Load]
    context, as [_mcpy_quotes_attr] builds it for [mcpy.quotes.attr]. *)
Definition dotted_name_ast (root : string) (attrs : list string) : value :=
  fold_left ast_Attribute_Load attrs (ast_Name_Load root).

(** [self.value] read inside a [with] block of the tracker. *)
Definition read_level {S} (get : S -> NestingLevelTracker.t) : comp S Z :=
  fun s => Some (NestingLevelTracker._get_value (get s), s).

(** [basename or "gensym"]. *)
Definition basename_or_default (basename : option string) : string :=
  match basename with
  | None => "gensym"%string
  | Some b => if String.eqb b "" then "gensym"%string else b
  end.

(** An item that [flatten_suite] keeps as it is: neither a list nor [None]. *)
Definition single_item (elt : value) : bool :=
  match elt with
  | VList _ | VNone => false
  | _ => true
  end.

(** A computation that leaves the part [proj] of the state as it found it,
    however it ends. *)
Definition leaves {S A X} (proj : S -> X) (c : comp S A) : Prop :=
  forall s r s', c s = Some (r, s') -> proj s' = proj s.

(** A computation that has no effect: it returns or raises in the state it
    was started in. *)
Definition pure {S A} (c : comp S A) : Prop :=
  forall s, exists r, c s = Some (r, s).

Definition is_nil {A} (l : list A) : bool :=
  match l with
  | [] => true
  | _ :: _ => false
  end.

(** What the search of [get_markers] collects from an item of a list field,
    and from the value of a field: only nodes are visited. *)
Definition found_in_item (cls : list string) (item : value) : list value :=
  match item with
  | VNode _ _ => examine_markers cls item
  | _ => []
  end.

Definition found_in_field (cls : list string) (v : value) : list value :=
  match v with
  | VList items => flat_map (found_in_item cls) items
  | VNode _ _ => examine_markers cls v
  | _ => []
  end.

(** The code that the markers in [x] splice into the output of [astify],
    the body of an [ASTLiteral] and the body and the name of a
    [CaptureLater], holds no instance of [cls]. *)
Fixpoint splice_clean (cls : list string) (x : value) {struct x} : bool :=
  match x with
  | VNode c fields =>
      if is_marker_class c ASTLiteral then
        match getattr fields "body" with
        | Ok body => is_nil (found_in_field cls body)
        | Err _ => true
        end
      else if is_marker_class c CaptureLater then
        match getattr fields "body", getattr fields "name" with
        | Ok body, Ok name =>
            is_nil (found_in_item cls body) && is_nil (found_in_field cls name)
        | _, _ => true
        end
      else forallb (fun fv => splice_clean cls (snd fv)) fields
  | VList l | VTuple l | VSet l => forallb (splice_clean cls) l
  | VDict items =>
      forallb (fun kv => splice_clean cls (fst kv) && splice_clean cls (snd kv))
              items
  | _ => true
  end.

(** A tree in which the body of every instance of [cls] is a node that is
    not itself an instance of [cls]: no marker of the class sits directly
    inside another. *)
Fixpoint deletable (cls : list string) (tree : value) {struct tree} : bool :=
  match tree with
  | VNode c fields =>
      (if isinstance_marker tree cls then
         match getattr fields "body" with
         | Ok (VNode cb fb) => negb (isinstance_marker (VNode cb fb) cls)
         | _ => false
         end
       else true) &&
      forallb
        (fun fv =>
           match snd fv with
           | VList items =>
               forallb (fun item =>
                          match item with
                          | VNode _ _ => deletable cls item
                          | _ => true
                          end) items
           | VNode _ _ => deletable cls (snd fv)
           | _ => true
           end) fields
  | _ => true
  end.

(** What [delete_markers] does to a child that holds no instance of
    [cls]: nothing. *)
Definition kept_as_is (cls : list string) (v : value) : Prop :=
  found_in_field cls v = [] ->
  match v with
  | VNode _ _ => transform_markers cls v = Ok v
  | VList items =>
      Forall (fun item => match item with
                          | VNode _ _ => transform_markers cls item = Ok item
                          | _ => True
                          end) items
  | _ => True
  end.

(** What [delete_markers] does to a child in which no instance of [cls]
    sits directly inside another: it returns a node without instances of
    [cls]. *)
Definition cleaned_node (cls : list string) (v : value) : Prop :=
  deletable cls v = true ->
  exists c' fields',
    transform_markers cls v = Ok (VNode c' fields') /\
    examine_markers cls (VNode c' fields') = [].

Definition cleaned (cls : list string) (v : value) : Prop :=
  match v with
  | VNode _ _ => cleaned_node cls v
  | VList items =>
      Forall (fun item => match item with
                          | VNode _ _ => cleaned_node cls item
                          | _ => True
                          end) items
  | _ => True
  end.

(** How deep the nodes of a tree are nested, as [generic_visit] walks them:
    through the fields that are nodes and the nodes among the items of the
    fields that are lists. *)
Fixpoint depth (v : value) {struct v} : nat :=
  match v with
  | VNode _ fields =>
      S (list_max
           (map (fun fv =>
                   match snd fv with
                   | VList items =>
                       list_max
                         (map (fun item =>
                                 match item with
                                 | VNode _ _ => depth item
                                 | _ => O
                                 end) items)
                   | VNode _ _ => depth (snd fv)
                   | _ => O
                   end) fields))
  | _ => O
  end.

(** No node that the walk of the expander reaches in [v] is an invocation
    site of a macro bound in [bs]. *)
Fixpoint site_free (bs : list (string * macro)) (v : value) {struct v} : bool :=
  match v with
  | VNode _ fields =>
      match invocation_site bs v with
      | Some _ => false
      | None => true
      end &&
      forallb
        (fun fv =>
           match snd fv with
           | VList items =>
               forallb (fun item =>
                          match item with
                          | VNode _ _ => site_free bs item
                          | _ => true
                          end) items
           | VNode _ _ => site_free bs (snd fv)
           | _ => true
           end) fields
  | _ => true
  end.

(** [visit] called on the items of a list one after the other, first item
    first, each call in the state that the call before it left: the values
    returned, and the state after the last call. *)
Inductive walked {S : Type} (visit : value -> comp S value)
  : list value -> S -> list value -> S -> Prop :=
| walked_nil (st : S) : walked visit [] st [] st
| walked_cons (item : value) (rest : list value) (st st1 st' : S)
    (r : value) (rs : list value) :
    visit item st = Some (Ok r, st1) ->
    walked visit rest st1 rs st' ->
    walked visit (item :: rest) st (r :: rs) st'.

(** An error report with one layer at most: when the exception is a
    [MacroExpansionError], its cause is not another one. *)
Definition flat_error (e : exn) : Prop :=
  exn_cls e = MacroExpansionError ->
  match exn_cause e with
  | Some cause => exn_cls cause <> MacroExpansionError
  | None => True
  end.

(** A computation whose exceptions are such reports. *)
Definition raises_flat {S A} (c : comp S A) : Prop :=
  forall s e s', c s = Some (Err e, s') -> flat_error e.

(** An expander that binds [m] to a macro which is not one of the six
    operators; in [sample_env] such a macro returns its argument. *)
Definition other_expander : expander :=
  {| bindings := [("m", Mother "m")]%string; filename := "demo.py";
     _recursive := true |}.

(* ================================================================== *)
(** * importer.py: the phases of a module *)

(** [len(v)]. *)
Definition py_len (v : value) : result nat :=
  match v with
  | VList l | VTuple l | VSet l => Ok (List.length l)
  | VDict items => Ok (List.length items)
  | VStr s => Ok (String.length s)
  | VBytes b => Ok (List.length b)
  | _ => raise TypeError "object has no len()"
  end.

(** [v[0]]: the first item of a sequence; a set has no items to index, and
    a dict is asked for the key [0]. *)
Definition py_getitem0 (env : pyenv) (v : value) : result value :=
  match v with
  | VList l | VTuple l =>
      match l with
      | x :: _ => Ok x
      | [] => raise IndexError "index out of range"
      end
  | VStr (String c _) => Ok (VStr (String c EmptyString))
  | VStr EmptyString => raise IndexError "string index out of range"
  | VBytes (c :: _) => Ok (VInt (Z.of_nat (nat_of_ascii c)))
  | VBytes [] => raise IndexError "index out of range"
  | VDict items =>
      match find (fun kv => py_eq env (fst kv) (VInt 0)) items with
      | Some kv => Ok (snd kv)
      | None => raise KeyError "0"
      end
  | _ => raise TypeError "object is not subscriptable"
  end.

(** [bool(v)]: numbers other than zero, containers and strings that are
    not empty, and instances, which define neither [__bool__] nor
    [__len__]. A float is zero when its bits are those of 0.0 or -0.0. *)
Definition py_truthy (v : value) : bool :=
  match v with
  | VNone => false
  | VBool b => b
  | VInt z => negb (z =? 0)
  | VFloat bits => negb ((bits =? 0) || (bits =? 2 ^ 63))
  | VStr s => negb (String.eqb s "")
  | VBytes b => negb (is_nil b)
  | VList l | VTuple l | VSet l => negb (is_nil l)
  | VDict items => negb (is_nil items)
  | VNode _ _ | VObject _ => true
  end.

(** [v.name] for any value: only instances have attributes. *)
Definition node_attr (v : value) (name : string) : result value :=
  match v with
  | VNode _ fields => getattr fields name
  | _ => raise AttributeError name
  end.

(** [node.name = v] on the fields of an instance: a field keeps its place. *)
Fixpoint setattr (fields : list (string * value)) (name : string) (v : value)
  : list (string * value) :=
  match fields with
  | [] => [(name, v)]
  | (n, old) :: rest =>
      if String.eqb n name then (n, v) :: rest
      else (n, old) :: setattr rest name v
  end.

Section Phases.
Variable env : pyenv.

(** [destructure_candidate(candidate)] of expander.py, which is not among
    the sources and is taken as given: it returns two values, which
    [iswithphase] unpacks into [macroname] and [macroargs]. *)
Variable destructure_candidate : value -> result (value * value).

(** [iswithphase(stmt)]: the phase [n], or [False]. *)
Definition iswithphase (stmt : value) : result value :=
  match stmt with
  | VNode c fields =>
      if negb (is_class c "With") then Ok (VBool false)
      else
        (items <- getattr fields "items" ;;
         len <- py_len items ;;
         if negb (Nat.eqb len 1) then Ok (VBool false)
         else
           item <- py_getitem0 env items ;;
           optional_vars <- node_attr item "optional_vars" ;;
           match optional_vars with
           | VNone =>
               candidate <- node_attr item "context_expr" ;;
               match candidate with
               | VNode cc _ =>
                   if negb (is_class cc "Subscript") then Ok (VBool false)
                   else
                     names <- destructure_candidate candidate ;;
                     let (macroname, macroargs) := names in
                     if negb (py_eq env macroname (VStr "phase"))
                     then Ok (VBool false)
                     else if negb (py_truthy macroargs) then Ok (VBool false)
                     else
                       nargs <- py_len macroargs ;;
                       if negb (Nat.eqb nargs 1) then Ok (VBool false)
                       else
                         arg <- py_getitem0 env macroargs ;;
                         match arg with
                         | VNode ca fa =>
                             if is_class ca "Constant" then
                               n <- getattr fa "value" ;;
                               match int_of_atom n with
                               | Some z => if z <? 1 then Ok (VBool false) else Ok n
                               | None => Ok (VBool false)
                               end
                             else if is_class ca "Num" then
                               n <- getattr fa "n" ;;
                               match int_of_atom n with
                               | Some z => if z <? 1 then Ok (VBool false) else Ok n
                               | None => Ok (VBool false)
                               end
                             else Ok (VBool false)
                         | _ => Ok (VBool false)
                         end
               | _ => Ok (VBool false)
               end
           | _ => Ok (VBool false)
           end)%result
  | _ => Ok (VBool false)
  end.

(** The loop of [detect_highest_phase] over the statements still to come,
    with [maxn] so far. What [iswithphase] returns is never [None], and the
    comparison [n > maxn] is one of integers. *)
Fixpoint highest_phase_loop (maxn : value) (stmts : list value) : result value :=
  match stmts with
  | [] => Ok maxn
  | stmt :: rest =>
      (n <- iswithphase stmt ;;
       match maxn with
       | VNone => highest_phase_loop n rest
       | _ =>
           match n with
           | VNone => highest_phase_loop maxn rest
           | _ =>
               match int_of_atom n, int_of_atom maxn with
               | Some zn, Some zmax =>
                   if zmax <? zn then highest_phase_loop n rest
                   else highest_phase_loop maxn rest
               | _, _ => raise TypeError "'>' not supported"
               end
           end
       end)%result
  end.

(** [detect_highest_phase(tree)]. *)
Definition detect_highest_phase (tree : value) : result value :=
  (body <- node_attr tree "body" ;;
   stmts <- py_iter body ;;
   highest_phase_loop VNone stmts)%result.

(** The loop of [split_multiphase_module_ast]: the lists [remaining] and
    [thisphase] after the statements [stmts]. *)
Fixpoint split_loop (phase : Z) (stmts remaining thisphase : list value)
  : result (list value * list value) :=
  match stmts with
  | [] => Ok (remaining, thisphase)
  | stmt :: rest =>
      (n <- iswithphase stmt ;;
       if match int_of_atom n with
          | Some z => z =? phase
          | None => false
          end
       then
         body <- node_attr stmt "body" ;;
         block <- py_iter body ;;
         split_loop phase rest remaining (thisphase ++ block)
       else split_loop phase rest (remaining ++ [stmt]) thisphase)%result
  end.

(** [split_multiphase_module_ast(tree, *, phase=0)]. The function changes
    [tree] in place and returns a new module object, or [tree] itself for
    phase 0: the model returns what the function returns and, beside it,
    [tree] as the function leaves it. The slice assignment needs [tree.body]
    to be a list. *)
Definition split_multiphase_module_ast (tree phase : value)
  : result (value * value) :=
  match int_of_atom phase with
  | None => raise TypeError ""
  | Some k =>
      if k <? 0 then raise ValueError ""
      else if k =? 0 then Ok (tree, tree)
      else
        (body <- node_attr tree "body" ;;
         stmts <- py_iter body ;;
         lists <- split_loop k stmts [] [] ;;
         let (remaining, thisphase) := lists in
         match tree, body with
         | VNode c fields, VList _ =>
             Ok (VNode c (setattr fields "body" (VList thisphase)),
                 VNode c (setattr fields "body" (VList remaining)))
         | _, _ => raise TypeError "object does not support item assignment"
         end)%result
  end.

(** The phase of a statement, for the properties: the integer that
    [iswithphase] returns, 0 for [False]. *)
Definition phase_of (stmt : value) : option Z :=
  match iswithphase stmt with
  | Ok n => int_of_atom n
  | Err _ => None
  end.

End Phases.

(** Whether a statement is a [with phase[k]] block, and the statements of
    its body. *)
Definition has_phase (env : pyenv)
  (destructure_candidate : value -> result (value * value)) (k : Z)
  (stmt : value) : bool :=
  match phase_of env destructure_candidate stmt with
  | Some z => z =? k
  | None => false
  end.

Definition block_of (stmt : value) : list value :=
  match node_attr stmt "body" with
  | Ok (VList block) => block
  | _ => []
  end.

(** A stand-in for [destructure_candidate] in the examples: for [name[arg]]
    it returns the name and the list of the one argument. *)
Definition sample_destructure (candidate : value) : result (value * value) :=
  match candidate with
  | VNode _ fields =>
      match getattr fields "value", getattr fields "slice" with
      | Ok (VNode _ fn), Ok arg =>
          match getattr fn "id" with
          | Ok name => Ok (name, VList [arg])
          | Err _ => Ok (VNone, VNone)
          end
      | _, _ => Ok (VNone, VNone)
      end
  | _ => Ok (VNone, VNone)
  end.

(** The tree of [with phase[n]: body]. *)
Definition with_phase (n : Z) (body : list value) : value :=
  VNode (AstClass "With")
        [("items",
          VList [VNode (AstClass "withitem")
                       [("context_expr", invoke "phase" (ast_Constant (VInt n)));
                        ("optional_vars", VNone)]%string]);
         ("body", VList body)]%string.

(** The body of a module with a block of phase 2, a statement of its own,
    and a block of phase 1. *)
Definition sample_statements : list value :=
  [with_phase 2 [VNode (AstClass "Pass") []];
   VNode (AstClass "Expr") [("value", ast_Name_Load "x")]%string;
   with_phase 1 [VNode (AstClass "Break") []; VNode (AstClass "Continue") []]].

Definition sample_module : value :=
  VNode (AstClass "Module") [("body", VList sample_statements)]%string.

(* ================================================================== *)
(** * Properties *)

(** ** The nesting-level tracker *)
Module TrackerFacts.
Import NestingLevelTracker.

Lemma good_level_ok (tr : t) : good tr -> level_ok tr.
Proof.
  intros [Hne Hall]. destruct tr as [|v tr']; [congruence|].
  exists v. split; [reflexivity|]. now inversion Hall.
Qed.

Lemma good_init (start : Z) : 0 <= start -> good (__init__ start).
Proof.
  intros H. split; [discriminate|]. repeat constructor. exact H.
Qed.

Lemma good_push (z : Z) (tr : t) : 0 <= z -> good tr -> good (z :: tr).
Proof.
  intros Hz [_ Hall]. split; [discriminate|]. now constructor.
Qed.

Section Lens.
Variable S : Type.
Variable get : S -> t.
Variable put : t -> S -> S.
Hypothesis get_put : forall tr s, get (put tr s) = tr.

(** A refused value: [set_to] raises and nothing has happened. *)
Lemma set_to_not_int A (v : value) (body : comp S A) (s : S) :
  int_of_atom v = None ->
  exists msg, set_to get put v body s = Some (Err (Exn TypeError msg None), s).
Proof.
  intros H. unfold set_to. rewrite H. eexists. reflexivity.
Qed.

Lemma set_to_negative A (v : value) (z : Z) (body : comp S A) (s : S) :
  int_of_atom v = Some z -> z < 0 ->
  exists msg, set_to get put v body s = Some (Err (Exn ValueError msg None), s).
Proof.
  intros H Hz. unfold set_to. rewrite H.
  destruct (Z.ltb_spec z 0); [|lia]. eexists. reflexivity.
Qed.

Lemma set_to_balanced A (v : value) (body : comp S A) :
  balanced get body -> balanced get (set_to get put v body).
Proof.
  intros Hb s r s' H. unfold set_to in H.
  destruct (int_of_atom v) as [z|]; [|now inversion H].
  destruct (z <? 0); [now inversion H|].
  destruct (body (put (z :: get s) s)) as [[r1 s1]|] eqn:E; [|discriminate].
  apply Hb in E. rewrite get_put in E. rewrite E in H.
  destruct (get s) as [|x rest]; inversion H; subst; now rewrite get_put.
Qed.

Lemma changed_by_balanced A (d : Z) (body : comp S A) :
  balanced get body -> balanced get (changed_by get put d body).
Proof.
  intros Hb s r s' H. unfold changed_by in H.
  destruct (_get_value (get s)); [|now inversion H].
  eapply set_to_balanced; eauto.
Qed.

Lemma bind_balanced A B (c : comp S A) (k : A -> comp S B) :
  balanced get c -> (forall a, balanced get (k a)) -> balanced get (bind c k).
Proof.
  intros Hc Hk s r s' H. unfold bind in H.
  destruct (c s) as [[[a|e] s1]|] eqn:E; try discriminate.
  - apply Hc in E. apply Hk in H. congruence.
  - inversion H; subst. now apply Hc in E.
Qed.

Lemma ret_balanced A (a : A) : balanced get (ret a).
Proof. intros s r s' H. now inversion H. Qed.

Lemma reading_balanced A (f : S -> comp S A) :
  (forall x, balanced get (f x)) -> balanced get (fun st => f st st).
Proof. intros H s r s' E. exact (H s s r s' E). Qed.

Lemma throw_balanced A (e : exn) : balanced get (@throw S A e).
Proof. intros s r s' H. now inversion H. Qed.

Lemma lift_balanced A (r : result A) : balanced get (@lift S A r).
Proof. intros s r0 s' H. now inversion H. Qed.

Lemma mapC_balanced A B (f : A -> comp S B) (l : list A) :
  (forall a, balanced get (f a)) -> balanced get (mapC f l).
Proof.
  intros Hf. induction l as [|a l IH]; simpl.
  - apply ret_balanced.
  - apply bind_balanced; [apply Hf|]. intros b.
    apply bind_balanced; [exact IH|]. intros bs. apply ret_balanced.
Qed.
End Lens.

(** Running a program from good stacks returns, hands the stack back, and
    has only passed through good stacks. *)
Lemma exec_good (p : prog) :
  forall s, Forall good (stacks s) ->
    exists r s', exec p s = Some (r, s') /\
                 cur s' = cur s /\ Forall good (stacks s').
Proof.
  induction p as [|e|p1 IH1 p2 IH2|p1 IH1 h IHh|v body IH|d body IH];
    intros s Hs; simpl.
  - exists (Ok tt), s. auto.
  - exists (Err e), s. auto.
  - destruct (IH1 s Hs) as (r1 & s1 & E1 & C1 & G1).
    unfold bind. rewrite E1. destruct r1 as [[]|e1].
    + destruct (IH2 s1 G1) as (r2 & s2 & E2 & C2 & G2).
      exists r2, s2. repeat split; auto. congruence.
    + exists (Err e1), s1. auto.
  - destruct (IH1 s Hs) as (r1 & s1 & E1 & C1 & G1).
    rewrite E1. destruct r1 as [[]|e1].
    + exists (Ok tt), s1. auto.
    + destruct (IHh s1 G1) as (r2 & s2 & E2 & C2 & G2).
      exists r2, s2. repeat split; auto. congruence.
  - unfold set_to. destruct (int_of_atom v) as [z|]; [|eexists; eexists; eauto].
    destruct (Z.ltb_spec z 0); [eexists; eexists; eauto|].
    assert (Hc : good (cur s)) by (now inversion Hs).
    destruct (IH (log_put (z :: cur s) s)) as (r1 & s1 & E1 & C1 & G1).
    { constructor; [now apply good_push|exact Hs]. }
    rewrite E1, C1. simpl.
    destruct (cur s) as [|x rest] eqn:Ecur; [now destruct Hc|].
    exists r1, (log_put (x :: rest) s1). repeat split; auto.
    constructor; [exact Hc|exact G1].
  - unfold changed_by.
    assert (Hc : good (cur s)) by (now inversion Hs).
    destruct (cur s) as [|x rest] eqn:Ecur; [now destruct Hc|]. simpl.
    unfold set_to. simpl.
    destruct (Z.ltb_spec (x + d) 0); [eexists; eexists; rewrite Ecur; eauto|].
    destruct (IH (log_put ((x + d) :: cur s) s)) as (r1 & s1 & E1 & C1 & G1).
    { constructor; [apply good_push; [exact H|now rewrite Ecur]|exact Hs]. }
    rewrite Ecur in *. rewrite E1, C1. simpl.
    exists r1, (log_put (x :: rest) s1). repeat split; auto.
    constructor; [exact Hc|exact G1].
Qed.
End TrackerFacts.

(** ** gensym and the capture registry *)
Section RegistryFacts.

Lemma str_in_In (s : string) (l : list string) : str_in s l = true <-> In s l.
Proof.
  unfold str_in. rewrite existsb_exists. split.
  - intros (x & Hin & E). apply String.eqb_eq in E. now subst.
  - intros H. exists s. split; [exact H|apply String.eqb_refl].
Qed.

Lemma gensym_loop_fresh (b : string) (prev draws : list string) sym rest :
  gensym_loop b prev draws = Some (sym, rest) -> ~ In sym prev.
Proof.
  induction draws as [|u draws IH]; cbn [gensym_loop]; [discriminate|].
  destruct (str_in (b ++ "_" ++ u) prev) eqn:E; [exact IH|].
  intros H. inversion H; subst. rewrite <- str_in_In. congruence.
Qed.

Lemma gensym_fresh (b : option string) (g g' : gensym_state) sym :
  gensym b g = Some (sym, g') ->
  ~ In sym (_previous_gensyms g) /\
  _previous_gensyms g' = sym :: _previous_gensyms g.
Proof.
  unfold gensym. intros H.
  destruct (gensym_loop _ _ _) as [[s rest]|] eqn:E; [|discriminate].
  inversion H; subst. split; [|reflexivity]. eapply gensym_loop_fresh; eauto.
Qed.

(** With a draw at hand that was never used, [gensym] returns. *)
Lemma gensym_returns (b : string) (g : gensym_state) (u : string) rest :
  b <> ""%string -> uuid_draws g = u :: rest ->
  ~ In (b ++ "_" ++ u)%string (_previous_gensyms g) ->
  exists g', gensym (Some b) g = Some ((b ++ "_" ++ u)%string, g').
Proof.
  intros Hb Hd Hf. unfold gensym.
  destruct (String.eqb_spec b ""); [contradiction|].
  rewrite Hd. cbn [gensym_loop].
  destruct (str_in (b ++ "_" ++ u) (_previous_gensyms g)) eqn:E.
  - apply str_in_In in E. contradiction.
  - eexists. reflexivity.
Qed.

Lemma same_object_refl (v : pyobj) : same_object v v = true.
Proof. apply Nat.eqb_refl. Qed.

Lemma same_object_oid (a b : pyobj) : same_object a b = true <-> oid a = oid b.
Proof. apply Nat.eqb_eq. Qed.

Lemma find_by_identity_In (m : registry pyobj) (v : pyobj) (k : string) :
  find_by_identity same_object m v = Some k ->
  exists x, In (k, x) m /\ oid x = oid v.
Proof.
  induction m as [|[k0 x0] m IH]; simpl; [discriminate|].
  destruct (same_object x0 v) eqn:E.
  - intros H. inversion H; subst. exists x0. split; [now left|].
    now apply same_object_oid.
  - intros H. destruct (IH H) as (x & Hin & Ho). exists x. auto.
Qed.

Lemma find_by_identity_None (m : registry pyobj) (v : pyobj) :
  find_by_identity same_object m v = None ->
  forall k x, In (k, x) m -> oid x <> oid v.
Proof.
  induction m as [|[k0 x0] m IH]; simpl; [tauto|].
  destruct (same_object x0 v) eqn:E; [discriminate|].
  intros H k x [Hin|Hin].
  - inversion Hin; subst. intros Ho. apply same_object_oid in Ho. congruence.
  - eauto.
Qed.

Lemma find_after_setitem (m : registry pyobj) (v : pyobj) (key : string) :
  find_by_identity same_object m v = None ->
  find_by_identity same_object (dict_setitem key v m) v = Some key.
Proof.
  induction m as [|[k0 x0] m IH]; simpl.
  - now rewrite same_object_refl.
  - destruct (same_object x0 v) eqn:E; [discriminate|]. intros H.
    destruct (String.eqb_spec k0 key); simpl.
    + subst. now rewrite same_object_refl.
    + rewrite E. auto.
Qed.

Lemma dict_setitem_new (m : registry pyobj) (v : pyobj) (key : string) :
  ~ In key (map fst m) -> dict_setitem key v m = m ++ [(key, v)].
Proof.
  induction m as [|[k0 x0] m IH]; simpl; [reflexivity|].
  intros H. destruct (String.eqb_spec k0 key); [tauto|].
  f_equal. apply IH. tauto.
Qed.

Lemma times_stored_absent (v : pyobj) (m : registry pyobj) :
  (forall k x, In (k, x) m -> oid x <> oid v) -> times_stored v m = 0%nat.
Proof.
  induction m as [|[k0 x0] m IH]; intros H; [reflexivity|].
  unfold times_stored in *. simpl.
  destruct (same_object x0 v) eqn:E.
  - apply same_object_oid in E. exfalso. eapply H; [now left|exact E].
  - apply IH. intros k x Hin. eapply H. right. exact Hin.
Qed.

Lemma times_stored_present (v : pyobj) (m : registry pyobj) (k : string) x :
  NoDup (map (fun kv : string * pyobj => oid (snd kv)) m) ->
  In (k, x) m -> oid x = oid v -> times_stored v m = 1%nat.
Proof.
  induction m as [|[k0 x0] m IH]; simpl; [tauto|].
  intros Hnd Hin Ho. inversion Hnd as [|? ? Hnot Hnd']; subst.
  unfold times_stored in *. simpl in *.
  destruct Hin as [Hin|Hin].
  - inversion Hin; subst. apply same_object_oid in Ho. rewrite Ho. simpl.
    f_equal. apply times_stored_absent. intros k1 x1 Hin1 Ho1.
    apply Hnot. apply same_object_oid in Ho.
    rewrite Ho, <- Ho1. now apply (in_map (fun kv => oid (snd kv)) m (k1, x1)).
  - destruct (same_object x0 v) eqn:E.
    + exfalso. apply Hnot. apply same_object_oid in E.
      rewrite E, <- Ho. now apply (in_map (fun kv => oid (snd kv)) m (k, x)).
    + now apply IH.
Qed.

(** [_capture_into] keeps a registry well formed, and the key it returns
    holds the captured object afterwards. *)
Lemma capture_into_ok (m m1 : registry pyobj) (g g1 : gensym_state)
  (v : pyobj) (b k : string) :
  registry_ok m g ->
  _capture_into same_object m v b g = Some (k, m1, g1) ->
  registry_ok m1 g1 /\ exists x, In (k, x) m1 /\ oid x = oid v.
Proof.
  intros (Hk & Hg & Ho) H. unfold _capture_into in H.
  destruct (find_by_identity same_object m v) as [k0|] eqn:F.
  - inversion H; subst. split; [now repeat split|].
    now apply find_by_identity_In.
  - destruct (gensym (Some b) g) as [[key g']|] eqn:G; [|discriminate].
    inversion H; subst. apply gensym_fresh in G. destruct G as [Hfresh Hprev].
    assert (Hnew : ~ In k (map fst m)) by (intros Hin; apply Hfresh; auto).
    rewrite dict_setitem_new by exact Hnew. split.
    + repeat split.
      * rewrite map_app. simpl. apply NoDup_app; [exact Hk|repeat constructor; simpl; tauto|].
        intros a Ha [Hb|[]]. subst. contradiction.
      * intros k'. rewrite map_app, in_app_iff, Hprev. simpl.
        intros [Hin|[Hin|[]]]; [right; auto|left; auto].
      * rewrite map_app. simpl. apply NoDup_app; [exact Ho|repeat constructor; simpl; tauto|].
        intros a Ha [Hb|[]]. subst. apply in_map_iff in Ha.
        destruct Ha as ([k' x'] & E & Hin). simpl in E.
        eapply find_by_identity_None; eauto.
    + exists v. split; [|reflexivity]. apply in_or_app. right. now left.
Qed.

Lemma NoDup_keys_functional (m : registry pyobj) (k : string) (x y : pyobj) :
  NoDup (map fst m) -> In (k, x) m -> In (k, y) m -> x = y.
Proof.
  induction m as [|[k0 x0] m IH]; simpl; [tauto|].
  intros Hnd Hx Hy. inversion Hnd as [|? ? Hnot Hnd']; subst.
  destruct Hx as [Hx|Hx], Hy as [Hy|Hy].
  - congruence.
  - inversion Hx; subst. exfalso. apply Hnot.
    now apply (in_map fst m (k, y)).
  - inversion Hy; subst. exfalso. apply Hnot.
    now apply (in_map fst m (k, x)).
  - eauto.
Qed.

(** Capturing again what was just captured finds it. *)
Lemma capture_into_again (m : registry pyobj) (g : gensym_state)
  (v : pyobj) (b b' k : string) m1 g1 :
  _capture_into same_object m v b g = Some (k, m1, g1) ->
  _capture_into same_object m1 v b' g1 = Some (k, m1, g1).
Proof.
  intros H. unfold _capture_into in *.
  destruct (find_by_identity same_object m v) as [k0|] eqn:F.
  - inversion H; subst. now rewrite F.
  - destruct (gensym (Some b) g) as [[key g']|]; [|discriminate].
    inversion H; subst. now rewrite find_after_setitem.
Qed.

End RegistryFacts.


(** ** Induction on values *)

Lemma value_ind (P : value -> Prop) :
  (forall z, P (VInt z)) ->
  (forall b, P (VFloat b)) ->
  (forall s, P (VStr s)) ->
  (forall b, P (VBytes b)) ->
  (forall b, P (VBool b)) ->
  P VNone ->
  (forall l, Forall P l -> P (VList l)) ->
  (forall l, Forall P l -> P (VTuple l)) ->
  (forall l, Forall P l -> P (VSet l)) ->
  (forall items, Forall (fun kv => P (fst kv) /\ P (snd kv)) items -> P (VDict items)) ->
  (forall c fields, Forall (fun fv => P (snd fv)) fields -> P (VNode c fields)) ->
  (forall n, P (VObject n)) ->
  forall v, P v.
Proof.
  intros Hi Hf Hs Hby Hb Hn Hl Ht Hse Hd Hno Ho.
  fix IH 1. intros [z|b|s|b|b| |l|l|l|items|c fields|n].
  - apply Hi.
  - apply Hf.
  - apply Hs.
  - apply Hby.
  - apply Hb.
  - exact Hn.
  - apply Hl. induction l as [|x l IHl]; constructor; [apply IH|exact IHl].
  - apply Ht. induction l as [|x l IHl]; constructor; [apply IH|exact IHl].
  - apply Hse. induction l as [|x l IHl]; constructor; [apply IH|exact IHl].
  - apply Hd. induction items as [|[k v] items IHi]; constructor;
      [split; apply IH|exact IHi].
  - apply Hno. induction fields as [|[a b] fields IHf]; constructor;
      [apply IH|exact IHf].
  - apply Ho.
Qed.

(** ** Strings and dotted names *)

Lemma split_on_no_dot (c : string) :
  no_dot c = true -> split_on "." c = [c].
Proof.
  induction c as [|a c IH]; simpl; [reflexivity|].
  intros H. apply andb_true_iff in H. destruct H as [Ha Hc].
  apply negb_true_iff in Ha. rewrite Ha, (IH Hc). reflexivity.
Qed.

Lemma split_on_component (p rest : string) :
  no_dot p = true ->
  split_on "." (p ++ String "." rest) = p :: split_on "." rest.
Proof.
  induction p as [|a p IH]; simpl; [reflexivity|].
  intros H. apply andb_true_iff in H. destruct H as [Ha Hp].
  apply negb_true_iff in Ha. rewrite Ha, (IH Hp). reflexivity.
Qed.

Lemma dotted_name_of_lifted (c : string) :
  attr_ast_to_dotted_name (ast_Attribute_Load (_mcpy_quotes_attr "ast") c)
  = Ok ("mcpy.quotes.ast." ++ c)%string.
Proof. reflexivity. Qed.

Lemma lookup_thing_node_class (env : pyenv) (c : string) (fs : list string) :
  no_dot c = true -> ast_fields env c = Some fs ->
  lookup_thing env ("mcpy.quotes.ast." ++ c)%string = Ok (construct_node c fs).
Proof.
  intros Hc Hfs. unfold lookup_thing.
  change ("mcpy.quotes.ast." ++ c)%string
    with ("mcpy" ++ String "." ("quotes" ++ String "." ("ast" ++ String "." c)))%string.
  rewrite !split_on_component by reflexivity.
  rewrite (split_on_no_dot c Hc). cbn. now rewrite Hfs.
Qed.

(** ** Building sets, dicts and keyword arguments *)

Lemma set_comp_fresh (env : pyenv) (l : list value) :
  forall acc,
    forallb hashable l = true -> fresh_members env acc l = true ->
    set_comp env acc (map Ok l) = Ok (acc ++ l).
Proof.
  induction l as [|x l IH]; intros acc Hh Hf; simpl.
  - now rewrite app_nil_r.
  - simpl in Hh, Hf. apply andb_true_iff in Hh. destruct Hh as [Hx Hl].
    apply andb_true_iff in Hf. destruct Hf as [Hn Hf].
    apply negb_true_iff in Hn. rewrite Hx. unfold set_add. rewrite Hn.
    rewrite (IH _ Hl Hf). now rewrite <- app_assoc.
Qed.

Lemma dict_put_fresh (env : pyenv) (k v : value) (acc : list (value * value)) :
  existsb (fun y => py_eq env y k) (map fst acc) = false ->
  dict_put env k v acc = acc ++ [(k, v)].
Proof.
  induction acc as [|[k0 v0] acc IH]; simpl; [reflexivity|].
  intros H. apply orb_false_iff in H. destruct H as [H0 H].
  rewrite H0, (IH H). reflexivity.
Qed.

Lemma dict_comp_fresh (env : pyenv) (items : list (value * value)) :
  forall acc,
    forallb (fun kv => hashable (fst kv)) items = true ->
    fresh_members env (map fst acc) (map fst items) = true ->
    dict_comp env acc (map (fun kv => Ok (fst kv)) items)
                      (map (fun kv => Ok (snd kv)) items)
    = Ok (acc ++ items).
Proof.
  induction items as [|[k v] items IH]; intros acc Hh Hf; simpl.
  - now rewrite app_nil_r.
  - simpl in Hh, Hf. apply andb_true_iff in Hh. destruct Hh as [Hk Hl].
    apply andb_true_iff in Hf. destruct Hf as [Hn Hf].
    apply negb_true_iff in Hn. rewrite Hk, (dict_put_fresh env k v acc Hn).
    rewrite IH; [now rewrite <- app_assoc|exact Hl|].
    now rewrite map_app.
Qed.

Lemma existsb_py_eq_str (env : pyenv) (n : string) (acc : list (string * value)) :
  existsb (fun y => py_eq env y (VStr n)) (map fst (map kw_pair acc))
  = str_in n (map fst acc).
Proof.
  induction acc as [|[a b] acc IH]; simpl; [reflexivity|].
  rewrite IH. f_equal. apply String.eqb_sym.
Qed.

Lemma dict_from_pairs_fields (env : pyenv) (fields : list (string * value)) :
  forall acc,
    NoDup (map fst acc ++ map fst fields) ->
    dict_from_pairs env (map kw_pair acc) (map kw_item fields)
    = Ok (map kw_pair (acc ++ fields)).
Proof.
  induction fields as [|[a b] fields IH]; intros acc Hnd; simpl.
  - now rewrite app_nil_r.
  - rewrite dict_put_fresh.
    + change (map kw_pair acc ++ [(VStr a, b)]) with (map kw_pair acc ++ map kw_pair [(a, b)]).
      rewrite <- map_app, IH.
      * now rewrite <- app_assoc.
      * rewrite map_app, <- app_assoc. exact Hnd.
    + rewrite existsb_py_eq_str.
      destruct (str_in a (map fst acc)) eqn:E; [|reflexivity].
      apply str_in_In in E. exfalso.
      apply NoDup_remove_2 in Hnd. apply Hnd. apply in_or_app. now left.
Qed.

Lemma kwargs_of_fields (fields : list (string * value)) :
  kwargs_of (map kw_pair fields) = Ok fields.
Proof.
  induction fields as [|[a b] fields IH]; simpl; [reflexivity|].
  now rewrite IH.
Qed.

(** ** Rebuilding a node from its keyword arguments *)

Lemma nodupb_NoDup (l : list string) : nodupb l = true -> NoDup l.
Proof.
  induction l as [|x l IH]; simpl; intros H; constructor.
  - apply andb_true_iff in H. destruct H as [H _].
    apply negb_true_iff in H. rewrite <- str_in_In. congruence.
  - apply IH. apply andb_true_iff in H. tauto.
Qed.

Lemma subseqb_In (names fs : list string) :
  subseqb names fs = true -> forall n, In n names -> In n fs.
Proof.
  revert names. induction fs as [|f fs IH]; intros [|n names] H x Hx;
    simpl in *; try tauto; try discriminate.
  destruct (String.eqb_spec n f).
  - subst. destruct Hx as [Hx|Hx]; [now left|right; eauto].
  - right. eapply IH; eauto.
Qed.

Lemma lookup_str_absent (f : string) (l : list (string * value)) :
  ~ In f (map fst l) -> lookup_str f l = None.
Proof.
  induction l as [|[n v] l IH]; simpl; [reflexivity|].
  intros H. destruct (String.eqb_spec n f); [tauto|]. apply IH. tauto.
Qed.

Lemma flat_map_ext_in {A B} (g h : A -> list B) (l : list A) :
  (forall a, In a l -> g a = h a) -> flat_map g l = flat_map h l.
Proof.
  induction l as [|a l IH]; simpl; intros H; [reflexivity|].
  rewrite H by now left. f_equal. apply IH. intros; apply H. now right.
Qed.

Lemma rebuild_fields (fs : list string) :
  forall fields : list (string * value),
    NoDup fs -> subseqb (map fst fields) fs = true ->
    flat_map (fun f => match lookup_str f fields with
                       | Some v => [(f, v)]
                       | None => []
                       end) fs = fields.
Proof.
  induction fs as [|f fs IH]; intros [|[n v] fields] Hnd Hs; simpl in *;
    try reflexivity; try discriminate.
  - apply (IH []); [now inversion Hnd|now destruct fs].
  - inversion Hnd as [|? ? Hnot Hnd']; subst.
    destruct (String.eqb_spec n f) as [->|Hne].
    + simpl. f_equal. etransitivity; [|exact (IH fields Hnd' Hs)].
      apply flat_map_ext_in. intros a Ha.
      destruct (String.eqb_spec f a); [subst; contradiction|reflexivity].
    + assert (Hf : lookup_str f fields = None).
      { apply lookup_str_absent. intros Hin. apply Hnot.
        eapply (subseqb_In (n :: map fst fields) fs Hs). now right. }
      destruct (String.eqb_spec n f); [contradiction|]. rewrite Hf. simpl.
      exact (IH ((n, v) :: fields) Hnd' Hs).
Qed.

Lemma subseqb_NoDup (fs names : list string) :
  NoDup fs -> subseqb names fs = true -> NoDup names.
Proof.
  revert names. induction fs as [|f fs IH]; intros [|n names] Hnd Hs;
    simpl in *; try constructor; try discriminate.
  - inversion Hnd as [|? ? Hnot Hnd']; subst.
    destruct (String.eqb_spec n f) as [->|Hne].
    + intros Hin. apply Hnot. eapply subseqb_In; eauto.
    + assert (H := IH (n :: names) Hnd' Hs). now inversion H.
  - inversion Hnd as [|? ? Hnot Hnd']; subst.
    destruct (String.eqb_spec n f) as [->|Hne].
    + eauto.
    + assert (H := IH (n :: names) Hnd' Hs). now inversion H.
Qed.

Lemma construct_node_rebuilds (c : string) (fs : list string)
  (fields : list (string * value)) :
  NoDup fs -> subseqb (map fst fields) fs = true ->
  construct_node c fs [] fields = Ok (VNode (AstClass c) fields).
Proof.
  intros Hnd Hs. unfold construct_node. simpl.
  rewrite combine_nil. do 2 f_equal.
  etransitivity; [|exact (rebuild_fields fields Hnd Hs)].
  apply flat_map_ext_in. intros a _. now destruct (lookup_str a fields).
Qed.

(** ** The round trip *)
Section RoundTrip.
Variable env : pyenv.
Variable ex : option expander.

Lemma sequence_map_Ok {A B} (f : A -> B) (l : list A) :
  sequence (map (fun a => Ok (f a)) l) = Ok (map f l).
Proof.
  induction l as [|a l IH]; simpl; [reflexivity|]. now rewrite IH.
Qed.

Lemma mapC_round_trips {A} (f : A -> value) (l : list A) :
  Forall (fun a => plain env (f a) = true -> round_trips env ex (f a)) l ->
  forallb (fun a => plain env (f a)) l = true ->
  forall st, exists ts,
    mapC (fun a => astify ex (f a)) l st = Some (Ok ts, st) /\
    map (unastify env) ts = map (fun a => Ok (f a)) l.
Proof.
  induction 1 as [|a l Ha _ IH]; intros Hp st; simpl.
  - exists []. auto.
  - simpl in Hp. apply andb_true_iff in Hp. destruct Hp as [Hpa Hpl].
    destruct (Ha Hpa st) as (t & Et & Ut).
    destruct (IH Hpl st) as (ts & Ets & Uts).
    exists (t :: ts). unfold bind. rewrite Et, Ets. simpl.
    now rewrite Ut, Uts.
Qed.

Lemma mapC_fields_round_trip (fields : list (string * value)) :
  Forall (fun fv => plain env (snd fv) = true -> round_trips env ex (snd fv)) fields ->
  forallb (fun fv => plain env (snd fv)) fields = true ->
  forall st, exists ts,
    mapC (fun ab => bind (astify ex (snd ab))
                         (fun b' => ret (ast_keyword (fst ab) b'))) fields st
    = Some (Ok ts, st) /\
    map (unastify env) ts = map (fun fv => Ok (kw_item fv)) fields.
Proof.
  induction 1 as [|[a b] l Ha _ IH]; intros Hp st; simpl.
  - exists []. auto.
  - simpl in Hp. apply andb_true_iff in Hp. destruct Hp as [Hpa Hpl].
    destruct (Ha Hpa st) as (t & Et & Ut). simpl in Et, Ut.
    destruct (IH Hpl st) as (ts & Ets & Uts).
    exists (ast_keyword a t :: ts). unfold bind in *. rewrite Et. simpl.
    rewrite Ets. split; [reflexivity|]. rewrite Uts. f_equal.
    change (unastify env (ast_keyword a t))
      with (match unastify env t with
            | Ok v => Ok (VTuple [VStr a; v])
            | Err e => Err e
            end).
    now rewrite Ut.
Qed.

Lemma unastify_lifted_node (c : string) (ts : list value) :
  unastify env (lifted_node c ts) =
  match lookup_thing env ("mcpy.quotes.ast." ++ c)%string with
  | Err e => Err e
  | Ok callee =>
      match sequence (map (unastify env) ts) with
      | Err e => Err e
      | Ok l =>
          match dict_from_pairs env [] l with
          | Err e => Err e
          | Ok kwargs =>
              match kwargs_of kwargs with
              | Err e => Err e
              | Ok kwargs' => callee [] kwargs'
              end
          end
      end
  end.
Proof.
  cbn -[lookup_thing sequence dict_from_pairs kwargs_of append map].
  change ("mcpy" ++ "." ++ "quotes" ++ "." ++ "ast" ++ "." ++ c)%string
    with ("mcpy.quotes.ast." ++ c)%string.
  destruct (lookup_thing env ("mcpy.quotes.ast." ++ c)) as [callee|e];
    [|reflexivity].
  cbn [sequence map].
  destruct (sequence (map (unastify env) ts)) as [l|e]; [|reflexivity].
  cbn [py_iter].
  destruct (dict_from_pairs env [] l) as [kwargs|e]; [|reflexivity].
  destruct (kwargs_of kwargs); reflexivity.
Qed.

Lemma forallb_and {A} (p q : A -> bool) (l : list A) :
  forallb (fun a => p a && q a) l = forallb p l && forallb q l.
Proof.
  induction l as [|a l IH]; simpl; [reflexivity|]. rewrite IH.
  destruct (p a), (q a), (forallb p l); reflexivity.
Qed.

Lemma astify_plain_round_trips (v : value) :
  plain env v = true -> round_trips env ex v.
Proof.
  induction v as [z|b|s|b|b| |l IH|l IH|l IH|items IH|c fields IH|n]
    using value_ind; intros Hp st;
    try (eexists; split; reflexivity).
  - destruct (mapC_round_trips (fun x => x) IH Hp st) as (ts & E & U).
    exists (ast_elts "List" ts). simpl. unfold bind.
    change (mapC (astify ex) l) with (mapC (fun x => astify ex x) l).
    rewrite E. split; [reflexivity|]. cbn. rewrite U.
    now rewrite (sequence_map_Ok (fun x => x)), map_id.
  - destruct (mapC_round_trips (fun x => x) IH Hp st) as (ts & E & U).
    exists (ast_elts "Tuple" ts). simpl. unfold bind.
    change (mapC (astify ex) l) with (mapC (fun x => astify ex x) l).
    rewrite E. split; [reflexivity|]. cbn. rewrite U.
    now rewrite (sequence_map_Ok (fun x => x)), map_id.
  - simpl in Hp. apply andb_true_iff in Hp. destruct Hp as [Hp Hfresh].
    apply andb_true_iff in Hp. destruct Hp as [Hp Hhash].
    destruct (mapC_round_trips (fun x => x) IH Hp st) as (ts & E & U).
    exists (ast_elts "Set" ts). simpl. unfold bind.
    change (mapC (astify ex) l) with (mapC (fun x => astify ex x) l).
    rewrite E. split; [reflexivity|]. cbn -[set_comp map]. rewrite U.
    change (map (fun a => Ok a) l) with (map (@Ok value) l).
    now rewrite (set_comp_fresh env l [] Hhash Hfresh).
  - simpl in Hp. apply andb_true_iff in Hp. destruct Hp as [Hp Hfresh].
    apply andb_true_iff in Hp. destruct Hp as [Hp Hhash].
    rewrite forallb_and in Hp. apply andb_true_iff in Hp.
    destruct Hp as [Hpk Hpv].
    assert (IHk : Forall (fun kv => plain env (fst kv) = true -> round_trips env ex (fst kv)) items)
      by (eapply Forall_impl; [|exact IH]; simpl; tauto).
    assert (IHv : Forall (fun kv => plain env (snd kv) = true -> round_trips env ex (snd kv)) items)
      by (eapply Forall_impl; [|exact IH]; simpl; tauto).
    destruct (mapC_round_trips fst IHk Hpk st) as (tk & Ek & Uk).
    destruct (mapC_round_trips snd IHv Hpv st) as (tv & Ev & Uv).
    exists (ast_Dict tk tv). simpl. unfold bind. rewrite Ek, Ev.
    split; [reflexivity|]. cbn -[dict_comp map]. rewrite Uk, Uv.
    now rewrite (dict_comp_fresh env items [] Hhash Hfresh).
  - destruct c as [c|chain]; [|discriminate]. simpl in Hp.
    destruct (ast_fields env c) as [fs|] eqn:Efs; [|discriminate].
    apply andb_true_iff in Hp. destruct Hp as [Hp Hpf].
    apply andb_true_iff in Hp. destruct Hp as [Hp Hsub].
    apply andb_true_iff in Hp. destruct Hp as [Hdot Hnd].
    apply nodupb_NoDup in Hnd.
    destruct (mapC_fields_round_trip IH Hpf st) as (ts & E & U).
    exists (lifted_node c ts). split.
    + simpl. unfold bind in *. now rewrite E.
    + rewrite unastify_lifted_node, (lookup_thing_node_class env c Hdot Efs), U.
      rewrite (sequence_map_Ok kw_item).
      assert (D : dict_from_pairs env [] (map kw_item fields)
                  = Ok (map kw_pair fields)).
      { apply (dict_from_pairs_fields env fields []). simpl.
        eapply subseqb_NoDup; eauto. }
      rewrite D, kwargs_of_fields. now apply construct_node_rebuilds.
  - discriminate.
Qed.

End RoundTrip.

(** ** What unastify turns down *)
Section Rejection.
Variable env : pyenv.

Lemma getattr_present (fields : list (string * value)) (name : string) :
  str_in name (map fst fields) = true -> exists v, getattr fields name = Ok v.
Proof.
  induction fields as [|[n v] fields IH]; simpl; [discriminate|].
  rewrite String.eqb_sym. destruct (String.eqb n name); eauto.
Qed.

Lemma with_attr_getattr {A} (name : string) (k : value -> result A)
  (fields : list (string * value)) :
  with_attr name k fields =
  match getattr fields name with
  | Ok v => k v
  | Err e => Err e
  end.
Proof.
  induction fields as [|[n v] fields IH]; simpl; [reflexivity|].
  destruct (String.eqb n name); [reflexivity|exact IH].
Qed.

Lemma getattr_In (fields : list (string * value)) (name : string) (v : value) :
  getattr fields name = Ok v -> In (name, v) fields.
Proof.
  induction fields as [|[n x] fields IH]; simpl; [discriminate|].
  destruct (String.eqb_spec n name).
  - intros H. inversion H; subst. now left.
  - intros H. right. auto.
Qed.

Lemma well_formed_field (c : pyclass) (fields : list (string * value))
  (name : string) (v : value) :
  well_formed (VNode c fields) = true -> In (name, v) fields ->
  well_formed v = true.
Proof.
  simpl. intros H Hin. apply andb_true_iff in H. destruct H as [_ H].
  rewrite forallb_forall in H. exact (H (name, v) Hin).
Qed.

Lemma well_formed_required (c : string) (fields : list (string * value))
  (name : string) :
  well_formed (VNode (AstClass c) fields) = true ->
  In name (required_fields c) ->
  exists v, getattr fields name = Ok v.
Proof.
  simpl. intros H Hin. apply andb_true_iff in H. destruct H as [H _].
  rewrite forallb_forall in H. apply getattr_present. now apply H.
Qed.

Lemma is_class_eq (c : pyclass) (name : string) :
  is_class c name = true -> c = AstClass name.
Proof.
  destruct c as [n|chain]; simpl; [|discriminate].
  intros H. apply String.eqb_eq in H. now subst.
Qed.

Lemma dotted_acc_eq (c : pyclass) (fields : list (string * value)) :
  dotted_acc (VNode c fields) =
  match getattr fields "attr" with
  | Err e => Err e
  | Ok attr =>
      with_attr "value"
        (fun v =>
           match v with
           | VNode cv fv =>
               if is_class cv "Attribute" then
                 match dotted_acc v with
                 | Ok rest => Ok (attr :: rest)
                 | Err e => Err e
                 end
               else if is_class cv "Name" then
                 match getattr fv "id" with
                 | Ok id => Ok [attr; id]
                 | Err e => Err e
                 end
               else raise NotImplementedError ""
           | _ => raise NotImplementedError ""
           end) fields
  end.
Proof. reflexivity. Qed.

(** On a well-formed [Attribute] node the inner [recurse] can only fail
    because the chain does not end in a [Name]. *)
Lemma dotted_acc_error (tree : value) :
  well_formed tree = true ->
  forall fields, tree = VNode (AstClass "Attribute") fields ->
  forall e, dotted_acc tree = Err e -> exn_cls e = NotImplementedError.
Proof.
  induction tree as [z|b|s|b|b| |l IH|l IH|l IH|items IH|c fs IH|n]
    using value_ind; intros Hwf fields Heq e; try discriminate.
  inversion Heq; subst. rewrite dotted_acc_eq.
  destruct (well_formed_required "Attribute" fields "attr" Hwf) as (attr & Ea);
    [simpl; tauto|].
  destruct (well_formed_required "Attribute" fields "value" Hwf) as (v & Ev);
    [simpl; tauto|].
  rewrite Ea, with_attr_getattr, Ev.
  assert (Hin : In ("value"%string, v) fields) by (now apply getattr_In).
  assert (Hwv : well_formed v = true) by (eapply well_formed_field; eauto).
  destruct v as [ | | | | | | | | | |cv fv| ]; try (intros H; now inversion H).
  destruct (is_class cv "Attribute") eqn:Eattr.
  - apply is_class_eq in Eattr. subst cv.
    rewrite Forall_forall in IH. specialize (IH _ Hin Hwv fv eq_refl).
    simpl snd in IH.
    destruct (dotted_acc (VNode (AstClass "Attribute") fv)) as [rest|e'].
    + discriminate.
    + intros H. inversion H; subst. now apply IH.
  - destruct (is_class cv "Name") eqn:Ename.
    + apply is_class_eq in Ename. subst cv.
      destruct (well_formed_required "Name" fv "id" Hwv) as (id & Ei);
        [simpl; tauto|].
      rewrite Ei. discriminate.
    + intros H. now inversion H.
Qed.

Lemma strs_of_error (l : list value) (e : exn) :
  strs_of l = Err e -> exn_cls e = TypeError.
Proof.
  induction l as [|x l IH]; simpl; [discriminate|].
  destruct x; try (intros H; now inversion H).
  destruct (strs_of l); [discriminate|]. intros H. inversion H; subst. auto.
Qed.

Lemma dotted_name_error (func : value) (e : exn) :
  well_formed func = true ->
  attr_ast_to_dotted_name func = Err e -> LowerError e.
Proof.
  intros Hwf. unfold attr_ast_to_dotted_name.
  destruct func as [ | | | | | | | | | |c fields| ];
    try (intros H; inversion H; now left).
  destruct (is_class c "Attribute") eqn:Ec; [|intros H; inversion H; now left].
  apply is_class_eq in Ec. subst c.
  destruct (dotted_acc (VNode (AstClass "Attribute") fields)) as [acc|e'] eqn:Ed.
  - destruct (strs_of (rev acc)) as [names|e'] eqn:Es; [discriminate|].
    intros H. inversion H; subst. left. eapply strs_of_error; eauto.
  - intros H. inversion H; subst. right.
    eapply dotted_acc_error; eauto.
Qed.

Lemma lookup_thing_unrecognized (name : string) :
  recognized name = false ->
  lookup_thing env name = Err (Exn NotImplementedError "" None).
Proof.
  unfold recognized, lookup_thing. intros H.
  destruct (String.prefix "mcpy.quotes" name); simpl in *; [|reflexivity].
  destruct (List.length (split_on "." name)) as [|[|[|n]]]; simpl in *;
    try reflexivity; discriminate.
Qed.

Lemma lookup_thing_recognized (name : string) (callee : callable) :
  lookup_thing env name = Ok callee -> recognized name = true.
Proof.
  intros H. destruct (recognized name) eqn:E; [reflexivity|].
  rewrite (lookup_thing_unrecognized name E) in H. discriminate.
Qed.

Lemma unastify_Call (fields : list (string * value)) :
  unastify env (VNode (AstClass "Call") fields) =
  match getattr fields "func" with
  | Err e => Err e
  | Ok func =>
      match attr_ast_to_dotted_name func with
      | Err e => Err e
      | Ok dotted_name =>
          match lookup_thing env dotted_name with
          | Err e => Err e
          | Ok callee =>
              (args <- with_attr "args" (unastify env) fields ;;
               keywords <- with_attr "keywords" (unastify env) fields ;;
               items <- py_iter keywords ;;
               kwargs <- dict_from_pairs env [] items ;;
               args' <- py_iter args ;;
               kwargs' <- kwargs_of kwargs ;;
               callee args' kwargs')%result
          end
      end
  end.
Proof. reflexivity. Qed.

Lemma unastify_unknown_shape (tree : value) :
  known_shape tree = false -> unastify env tree = dont_know env tree.
Proof.
  destruct tree as [ | | | | | | | | | |c fields| ]; try reflexivity;
    try discriminate.
  destruct c as [c|chain]; [|reflexivity]. simpl. intros H.
  repeat (apply orb_false_iff in H; destruct H as [?H H]).
  cbn [unastify].
  repeat match goal with
         | E : String.eqb c ?s = false |- _ => rewrite E; clear E
         end.
  reflexivity.
Qed.

End Rejection.


(** ** The operators hand the level back *)
Module LevelFacts.
Import NestingLevelTracker TrackerFacts.

Lemma none_balanced {S A} (get : S -> t) : balanced get (fun _ : S => @None (result A * S)).
Proof. intros s r s' H. discriminate. Qed.

Ltac balanced_step :=
  first
    [ assumption
    | apply ret_balanced
    | apply throw_balanced
    | apply lift_balanced
    | apply none_balanced
    | apply bind_balanced; [|intros ?]
    | apply mapC_balanced; intros ?
    | match goal with
      | |- balanced _ (match ?x with _ => _ end) => destruct x
      | |- balanced _ (if ?b then _ else _) => destruct b
      | H : forall e t, balanced _ (?visit e t) |- balanced _ (?visit _ _) => apply H
      end ].

Ltac balanced_auto := repeat balanced_step.

Lemma quotelevel_get_put (tr : t) (st : estate) :
  _quotelevel (set_quotelevel tr st) = tr.
Proof. reflexivity. Qed.

Lemma quotelevel_changed_by_balanced A (d : Z) (body : comp estate A) :
  balanced _quotelevel body -> balanced _quotelevel (quotelevel_changed_by d body).
Proof.
  intros H. unfold quotelevel_changed_by.
  apply changed_by_balanced; [exact quotelevel_get_put|exact H].
Qed.

Lemma quotelevel_value_balanced : balanced _quotelevel quotelevel_value.
Proof. intros s r s' H. unfold quotelevel_value in H. now inversion H. Qed.

Lemma capture_macro_balanced (f : macro) (name : string) :
  balanced _quotelevel (capture_macro f name).
Proof.
  intros s r s' H. unfold capture_macro in H.
  destruct (_capture_into _ _ _ _ _) as [[[k m] g]|]; [|discriminate].
  now inversion H.
Qed.

Lemma capture_balanced (v : pyobj) (name : string) :
  balanced _quotelevel (capture v name).
Proof.
  intros s r s' H. unfold capture in H.
  destruct (_capture_into _ _ _ _ _) as [[[k m] g]|]; [|discriminate].
  now inversion H.
Qed.

Lemma astify_balanced (e : option expander) (x : value) :
  balanced _quotelevel (astify e x).
Proof.
  induction x as [z|b|s0|b|b| |l IH|l IH|l IH|items IH|c fields IH|n0]
    using value_ind; cbn [astify];
    try (apply ret_balanced); try (apply throw_balanced).
  - apply bind_balanced; [|intros; apply ret_balanced].
    induction IH; simpl; balanced_auto.
  - apply bind_balanced; [|intros; apply ret_balanced].
    induction IH; simpl; balanced_auto.
  - apply bind_balanced; [|intros; apply ret_balanced].
    induction IH; simpl; balanced_auto.
  - apply bind_balanced.
    + induction IH as [|kv items [Hk Hv] _ IHi]; simpl; balanced_auto.
    + intros ks. apply bind_balanced; [|intros; apply ret_balanced].
      induction IH as [|kv items [Hk Hv] _ IHi]; simpl; balanced_auto.
  - destruct (is_marker_class c ASTLiteral); [apply lift_balanced|].
    destruct (is_marker_class c CaptureLater).
    + destruct e as [e|]; balanced_auto; apply capture_macro_balanced.
    + apply bind_balanced; [|intros; apply ret_balanced].
      induction IH; simpl; balanced_auto.
Qed.

Section Family.
Variable env : pyenv.
Variable walk : expander -> value -> comp estate value.
Hypothesis walk_balanced : forall e t, balanced _quotelevel (walk e t).

Lemma expand_quasiquotes_balanced (tree : value) (e : expander) :
  balanced _quotelevel (_expand_quasiquotes walk tree e).
Proof. apply walk_balanced. Qed.

Lemma unquote_expand_balanced (tree : value) (e : expander) :
  balanced _quotelevel (_unquote_expand env walk tree e).
Proof.
  unfold _unquote_expand.
  apply bind_balanced; [apply quotelevel_value_balanced|]. intros level.
  unfold visit_recursively, _expand_quasiquotes, expand_macros.
  assert (Hwalk : balanced _quotelevel
                    (if level =? 0 then walk (with_recursive true e) tree
                     else walk {| bindings := filter (fun kv => is_quasiquote_macro (snd kv)) (bindings e);
                                  filename := filename e; _recursive := true |} tree))
    by (destruct (level =? 0); apply walk_balanced).
  assert (Hkept : forall (f : estate -> value),
             balanced _quotelevel
               (fun st => bind (if level =? 0 then walk (with_recursive true e) tree
                                else walk {| bindings := filter (fun kv => is_quasiquote_macro (snd kv)) (bindings e);
                                             filename := filename e; _recursive := true |} tree)
                               (fun _ => ret (f st)) st)).
  { intros f.
    apply (@reading_balanced estate _quotelevel value
             (fun x => bind _ (fun _ => ret (f x)))).
    intros x. apply bind_balanced; [exact Hwalk|intros; apply ret_balanced]. }
  destruct tree; try apply Hkept;
    try (destruct (invocation_site _ _); [apply Hkept|exact Hwalk]);
    exact Hwalk.
Qed.

Lemma unquote_checks_balanced (name syntax : string) :
  balanced _quotelevel (unquote_checks name syntax).
Proof.
  unfold unquote_checks. destruct (negb _); [apply throw_balanced|].
  apply bind_balanced; [apply quotelevel_value_balanced|].
  intros level. balanced_auto.
Qed.

Lemma q_balanced (tree : value) (syntax : string) (e : expander)
  (ov : option value) :
  balanced _quotelevel (q env walk tree syntax e ov).
Proof.
  unfold q. destruct (negb _); [apply throw_balanced|].
  apply quotelevel_changed_by_balanced.
  apply bind_balanced; [apply expand_quasiquotes_balanced|]. intros t1.
  apply bind_balanced; [apply astify_balanced|]. intros t2.
  apply bind_balanced; [apply lift_balanced|]. intros ps.
  destruct ps; [|apply throw_balanced].
  destruct (String.eqb syntax "block"); [|apply ret_balanced].
  destruct ov as [target|]; [|apply throw_balanced].
  destruct target as [ | | | | | | | | | |[c|c] f| ];
    try apply throw_balanced.
  repeat match goal with
         | |- balanced _ (match ?x with _ => _ end) => destruct x
         | |- balanced _ (if ?b then _ else _) => destruct b
         end; first [apply ret_balanced|apply throw_balanced].
Qed.

Lemma apply_macro_balanced (m : macro) (tree : value) (syntax : string)
  (e : expander) (ov : option value) :
  balanced _quotelevel (apply_macro env walk m tree syntax e ov).
Proof.
  destruct m; simpl.
  - apply q_balanced.
  - unfold u. apply bind_balanced; [apply unquote_checks_balanced|]. intros _.
    apply quotelevel_changed_by_balanced.
    apply bind_balanced; [apply unquote_expand_balanced|].
    intros; apply ret_balanced.
  - unfold n. apply bind_balanced; [apply unquote_checks_balanced|]. intros _.
    apply quotelevel_changed_by_balanced.
    apply bind_balanced; [apply astify_balanced|]. intros; apply ret_balanced.
  - unfold a. apply bind_balanced; [apply unquote_checks_balanced|]. intros _.
    apply quotelevel_changed_by_balanced. apply ret_balanced.
  - unfold s. apply bind_balanced; [apply unquote_checks_balanced|]. intros _.
    apply ret_balanced.
  - unfold h. apply bind_balanced; [apply unquote_checks_balanced|]. intros _.
    apply quotelevel_changed_by_balanced.
    apply bind_balanced; [apply unquote_expand_balanced|].
    intros; apply ret_balanced.
  - apply lift_balanced.
Qed.

Lemma visit_balanced (e : expander) (tree : value) :
  balanced _quotelevel (visit walk e tree).
Proof.
  unfold visit. destruct (bindings e); [apply ret_balanced|apply walk_balanced].
Qed.

Lemma visit_expansion_balanced (e : expander) (expansion target : value) :
  balanced _quotelevel (_visit_expansion env walk e expansion target).
Proof.
  unfold _visit_expansion.
  assert (Heach : forall x,
             balanced _quotelevel
               (if _recursive e then visit walk e (fix_missing env x)
                else ret (fix_missing env x))).
  { intros x. destruct (_recursive e); [apply visit_balanced|apply ret_balanced]. }
  destruct expansion; simpl; balanced_auto; apply Heach.
Qed.

Lemma expand_balanced (e : expander) (syntax : string) (target : value)
  (lineno : option Z) (macroname : string) (tree : value) (ov : option value) :
  balanced _quotelevel
    (_expand env (apply_macro env walk) walk e syntax target lineno macroname tree ov).
Proof.
  unfold _expand. destruct (dict_getitem macroname (bindings e)) as [m|];
    [|apply throw_balanced].
  intros st r st' H.
  destruct (apply_macro env walk m tree syntax e ov st) as [[[x|err] st1]|] eqn:E;
    [| |discriminate].
  - apply apply_macro_balanced in E. apply visit_expansion_balanced in H.
    congruence.
  - apply apply_macro_balanced in E. inversion H; subst. exact E.
Qed.

Lemma generic_visit_balanced (e : expander) (tree : value) :
  balanced _quotelevel (generic_visit (walk e) tree).
Proof.
  unfold generic_visit. destruct tree; try apply throw_balanced.
  apply bind_balanced; [|intros; apply ret_balanced].
  apply mapC_balanced. intros [name v]. unfold visit_field. simpl.
  destruct v; try apply ret_balanced.
  - apply bind_balanced; [|intros; apply ret_balanced].
    apply mapC_balanced. intros item. unfold visit_item.
    destruct item; try apply ret_balanced.
    apply bind_balanced; [apply walk_balanced|]. intros r.
    destruct r; first [apply ret_balanced|apply lift_balanced].
  - apply bind_balanced; [apply walk_balanced|]. intros r.
    destruct r; apply ret_balanced.
Qed.

Lemma super_visit_balanced (e : expander) (tree : value) :
  balanced _quotelevel (super_visit env walk e tree).
Proof.
  unfold super_visit, NodeTransformerListMixin.visit.
  assert (Hnode : balanced _quotelevel
            match invocation_site (bindings e) tree with
            | Some (macroname, arg) =>
                _expand env (apply_macro env walk) walk e "expr" tree None
                        macroname arg None
            | None => generic_visit (walk e) tree
            end).
  { destruct (invocation_site (bindings e) tree) as [[name arg]|];
      [apply expand_balanced|apply generic_visit_balanced]. }
  destruct tree; try exact Hnode.
  - apply ret_balanced.
  - apply bind_balanced; [|intros; apply ret_balanced].
    apply mapC_balanced. intros x. apply walk_balanced.
Qed.
End Family.

Lemma expander_visit_balanced (env : pyenv) (fuel : nat) :
  forall e t, balanced _quotelevel (expander_visit env fuel e t).
Proof.
  induction fuel as [|fuel IH]; intros e t; simpl.
  - apply none_balanced.
  - apply visit_balanced. intros e' t'. now apply super_visit_balanced.
Qed.

End LevelFacts.

(* ================================================================== *)
(** * The claims *)

(** C1, as stated, fails: [astify] lifts a Literal-marker, which is a tree
    node, to its body, and [unastify] takes the body [Constant(value=1)] to
    the integer 1, not back to the marker. *)
Lemma round_trip_fails_on_marker :
  exists (v t : value),
    astify None v fresh_state = Some (Ok t, fresh_state) /\
    unastify sample_env t = Ok (VInt 1) /\
    unastify sample_env t <> Ok v.
Proof.
  exists (mk_ASTLiteral (ast_Constant (VInt 1))), (ast_Constant (VInt 1)).
  repeat split. discriminate.
Qed.

(** C1, amended. For every value without markers that [astify] can lift
    (atoms; lists, tuples, sets and dicts of such values; instances of node
    classes of the [ast] module with such fields), [astify], with or without
    an expander, returns a tree, and [unastify] of that tree is the value. *)
Theorem astify_unastify_round_trip :
  forall (env : pyenv) (e : option expander) (v : value),
    plain env v = true ->
    forall st : estate,
    exists t, astify e v st = Some (Ok t, st) /\ unastify env t = Ok v.
Proof.
  intros env e v Hp. exact (@astify_plain_round_trips env e v Hp).
Qed.

Lemma astify_unastify_round_trip_witness :
  plain sample_env sample_list = true /\
  exists t, astify None sample_list fresh_state = Some (Ok t, fresh_state) /\
            unastify sample_env t = Ok sample_list.
Proof.
  split; [reflexivity|].
  apply (@astify_unastify_round_trip sample_env None sample_list). reflexivity.
Defined.

(** C2, at the failing input [q[s[[u[x]]]]]. Every operator of the body
    stands at a valid level; the inner expansion leaves the marker of [u]
    inside the marker of [s]; [astify] unwraps the outer marker only; and [q]
    ends in its assertion. *)
Theorem q_assertion_reached_after_s :
  well_nested family 1 s_of_list_of_u = true /\
  (exists inner,
      _expand_quasiquotes (expander_visit sample_env 20) s_of_list_of_u
                          sample_expander
                          (set_quotelevel [1; 0] fresh_state)
      = Some (Ok (mk_ASTLiteral inner), set_quotelevel [1; 0] fresh_state) /\
      astify (Some sample_expander) (mk_ASTLiteral inner)
             (set_quotelevel [1; 0] fresh_state)
      = Some (Ok inner, set_quotelevel [1; 0] fresh_state) /\
      get_markers QuasiquoteMarker inner
      = Ok [mk_ASTLiteral
              (ast_Call (_mcpy_quotes_attr "astify") [ast_Name_Load "x"] [])]) /\
  q sample_env (expander_visit sample_env 20) s_of_list_of_u "expr"
    sample_expander None fresh_state
  = Some (Err (Exn AssertionError
                   "QuasiquoteMarker instances remaining in output" None),
          fresh_state).
Proof.
  split; [reflexivity|]. split; [|vm_compute; reflexivity].
  eexists. split; [vm_compute; reflexivity|].
  split; vm_compute; reflexivity.
Qed.

(** C3, as stated, fails on the text of the message: what [u] raises at
    level 0 says "quotelevel", not "quoting level". *)
Lemma unquote_message_is_not_as_claimed :
  exists err,
    u sample_env (expander_visit sample_env 20) (ast_Name_Load "x") "expr"
      sample_expander fresh_state = Some (Err err, fresh_state) /\
    exn_cls err = SyntaxError /\
    contains (exn_msg err) "encountered while quoting level < 1" = false /\
    contains (exn_msg err) "encountered while quotelevel < 1" = true.
Proof.
  eexists. split; [reflexivity|]. repeat split.
Qed.

(** C3, amended. At level 0, each of [u], [n], [a], [s] and [h], called as
    an expression macro, raises a [SyntaxError] whose message reads
    "<name>[] encountered while quotelevel < 1", and the state, the level
    with it, is as it was. *)
Theorem unquote_rejected_at_level_zero :
  forall (env : pyenv) (walk : expander -> value -> comp estate value)
         (tree : value) (e : expander) (st : estate) (saved : list Z),
    _quotelevel st = 0 :: saved ->
    u env walk tree "expr" e st
    = Some (Err (Exn SyntaxError "u[] encountered while quotelevel < 1" None), st) /\
    n tree "expr" st
    = Some (Err (Exn SyntaxError "n[] encountered while quotelevel < 1" None), st) /\
    a tree "expr" st
    = Some (Err (Exn SyntaxError "a[] encountered while quotelevel < 1" None), st) /\
    s tree "expr" st
    = Some (Err (Exn SyntaxError "s[] encountered while quotelevel < 1" None), st) /\
    h env walk tree "expr" e st
    = Some (Err (Exn SyntaxError "h[] encountered while quotelevel < 1" None), st).
Proof.
  intros env walk tree e st saved Hl.
  assert (Hc : forall name,
             unquote_checks name "expr" st
             = Some (Err (Exn SyntaxError
                              (name ++ "[] encountered while quotelevel < 1") None),
                     st)).
  { intros name. unfold unquote_checks, bind, quotelevel_value. simpl.
    now rewrite Hl. }
  unfold u, n, a, s, h, bind. rewrite !Hc. repeat split.
Qed.

Lemma unquote_rejected_at_level_zero_witness :
  _quotelevel fresh_state = 0 :: [] /\
  u sample_env (expander_visit sample_env 20) (ast_Name_Load "x") "expr" sample_expander
    fresh_state
  = Some (Err (Exn SyntaxError "u[] encountered while quotelevel < 1" None),
          fresh_state).
Proof.
  split; [reflexivity|].
  exact (proj1 (unquote_rejected_at_level_zero
                  sample_env (expander_visit sample_env 20)
                  (ast_Name_Load "x") sample_expander fresh_state
                  (saved := []) eq_refl)).
Defined.

(** C4. Whatever state the tracker lives in, for a body that hands the stack
    back as it found it: [with set_to(v)] and [with changed_by(d)] hand the
    stack back however the block ends; when the level is accepted and the
    body returns or raises, the [with] statement ends the same way, with
    the stack restored; and [q], run with an expander whose walks hand the
    stack back, leaves the level as it found it, whether it returns a tree
    or raises. *)
Theorem level_restored_on_every_exit :
  forall (S A : Type) (get : S -> NestingLevelTracker.t)
         (put : NestingLevelTracker.t -> S -> S) (body : comp S A)
         (env : pyenv) (walk : expander -> value -> comp estate value),
    (forall tr s, get (put tr s) = tr) ->
    NestingLevelTracker.balanced get body ->
    (forall e t, NestingLevelTracker.balanced _quotelevel (walk e t)) ->
    (forall v s r s',
        NestingLevelTracker.set_to get put v body s = Some (r, s') ->
        get s' = get s) /\
    (forall d s r s',
        NestingLevelTracker.changed_by get put d body s = Some (r, s') ->
        get s' = get s) /\
    (forall v z s outcome s1,
        int_of_atom v = Some z -> 0 <= z -> get s <> [] ->
        body (put (z :: get s) s) = Some (outcome, s1) ->
        exists s', NestingLevelTracker.set_to get put v body s = Some (outcome, s') /\
                   get s' = get s) /\
    (forall tree syntax e optional_vars st r st',
        q env walk tree syntax e optional_vars st = Some (r, st') ->
        _quotelevel st' = _quotelevel st).
Proof.
  intros S A get put body env walk Hlens Hbody Hwalk. repeat split.
  - intros v s r s' H.
    eapply (@TrackerFacts.set_to_balanced S get put Hlens A v body Hbody); eauto.
  - intros d s r s' H.
    eapply (@TrackerFacts.changed_by_balanced S get put Hlens A d body Hbody); eauto.
  - intros v z s outcome s1 Hv Hz Hne Hb.
    unfold NestingLevelTracker.set_to. rewrite Hv.
    destruct (Z.ltb_spec z 0); [lia|]. rewrite Hb.
    apply Hbody in Hb. rewrite Hlens in Hb. rewrite Hb.
    destruct (get s) as [|x rest]; [congruence|].
    eexists. split; [reflexivity|]. apply Hlens.
  - intros tree syntax e ov st r st' H.
    eapply (@LevelFacts.q_balanced env walk Hwalk tree syntax e ov); eauto.
Qed.

Lemma level_restored_on_every_exit_witness :
  exists err st',
    q sample_env (expander_visit sample_env 20) s_of_list_of_u "expr"
      sample_expander None fresh_state = Some (Err err, st') /\
    _quotelevel st' = _quotelevel fresh_state.
Proof.
  eexists. eexists. split; [vm_compute; reflexivity|].
  refine (proj2 (proj2 (proj2
            (@level_restored_on_every_exit
               estate unit _quotelevel set_quotelevel failing_body
               sample_env (expander_visit sample_env 20) _ _ _)))
            s_of_list_of_u "expr"%string sample_expander None fresh_state _ _ _).
  - intros tr s0. reflexivity.
  - intros s0 r s' H. now inversion H.
  - apply LevelFacts.expander_visit_balanced.
  - vm_compute. reflexivity.
Defined.

(** C5. Capturing an object that was just captured returns the same key,
    whatever the registry and the basename, and changes neither the registry
    nor the gensym state; [capture] then returns the same tree. In a registry that only captures have written to,
    the object is then stored under exactly one key, and capturing another
    object, one of another identity, returns another key, even when the two
    objects hold equal values. *)
Theorem capture_dedup_by_identity :
  forall (m : registry pyobj) (g : gensym_state),
    (forall (v : pyobj) (b b' k : string) m1 g1,
        _capture_into same_object m v b g = Some (k, m1, g1) ->
        _capture_into same_object m1 v b' g1 = Some (k, m1, g1)) /\
    (forall (v : pyobj) (b b' : string) (st st1 : estate) (tree : result value),
        _hygienic_registry st = m -> gensyms st = g ->
        capture v b st = Some (tree, st1) ->
        capture v b' st1 = Some (tree, st1)) /\
    (registry_ok m g ->
     (forall (v : pyobj) (b k : string) m1 g1,
         _capture_into same_object m v b g = Some (k, m1, g1) ->
         times_stored v m1 = 1%nat) /\
     (forall (v1 v2 : pyobj) (b1 b2 k1 k2 : string) m1 g1 m2 g2,
         oid v1 <> oid v2 ->
         _capture_into same_object m v1 b1 g = Some (k1, m1, g1) ->
         _capture_into same_object m1 v2 b2 g1 = Some (k2, m2, g2) ->
         k1 <> k2)).
Proof.
  intros m g. split; [|split; [|intros Hok; split]].
  - intros v b b' k m1 g1 H. eapply capture_into_again; eauto.
  - intros v b b' st st1 tree Hm Hg H. unfold capture in *.
    destruct (_capture_into same_object (_hygienic_registry st) v b (gensyms st))
      as [[[k m1] g1]|] eqn:E; [|discriminate].
    inversion H; subst. simpl.
    now rewrite (@capture_into_again _ _ v b b' k m1 g1 E).
  - intros v b k m1 g1 H.
    destruct (capture_into_ok v b Hok H) as ((Hk1 & Hg1 & Ho1) & x & Hin & Hox).
    eapply times_stored_present; eauto.
  - intros v1 v2 b1 b2 k1 k2 m1 g1 m2 g2 Hne H1 H2 Heq. subst k2.
    destruct (capture_into_ok v1 b1 Hok H1) as (Hok1 & x & Hin & Hox).
    destruct Hok1 as (Hk1 & Hg1 & Ho1).
    unfold _capture_into in H2.
    destruct (find_by_identity same_object m1 v2) as [k0|] eqn:F.
    + inversion H2; subst. apply find_by_identity_In in F.
      destruct F as (y & Hy & Hoy).
      assert (x = y) by (eapply NoDup_keys_functional; eauto). subst y.
      congruence.
    + destruct (gensym (Some b2) g1) as [[key g']|] eqn:G; [|discriminate].
      inversion H2; subst. apply gensym_fresh in G. destruct G as [Hfresh _].
      apply Hfresh, Hg1. now apply (in_map fst m1 (k1, x)).
Qed.

Lemma capture_dedup_by_identity_witness :
  registry_ok [] fresh_gensyms /\
  exists k1 k2 m1 g1 m2 g2,
    _capture_into same_object [] object_1 "spam" fresh_gensyms = Some (k1, m1, g1) /\
    _capture_into same_object m1 object_1 "eggs" g1 = Some (k1, m1, g1) /\
    _capture_into same_object m1 object_2 "spam" g1 = Some (k2, m2, g2) /\
    times_stored object_1 m1 = 1%nat /\
    k1 <> k2.
Proof.
  assert (Hok : registry_ok [] fresh_gensyms).
  { repeat split; simpl; try constructor. intros k []. }
  split; [exact Hok|].
  exists "spam_0a"%string, "spam_0b"%string. do 4 eexists.
  split; [reflexivity|].
  split; [exact (proj1 (@capture_dedup_by_identity [] fresh_gensyms)
                   object_1 "spam"%string "eggs"%string _ _ _ eq_refl)|].
  split; [reflexivity|].
  split; [exact (proj1 (proj2 (proj2 (@capture_dedup_by_identity [] fresh_gensyms)) Hok)
                   object_1 "spam"%string _ _ _ eq_refl)|].
  refine (proj2 (proj2 (proj2 (@capture_dedup_by_identity [] fresh_gensyms)) Hok)
            object_1 object_2 "spam"%string "spam"%string _ _ _ _ _ _ _ eq_refl eq_refl).
  simpl. lia.
Defined.

(** C6. With an empty binding table, [visit] returns the tree it was given
    and does nothing else, whatever the subclass would do with it; so do
    [visit_once] and the expander at work. *)
Theorem visit_with_empty_bindings_is_noop :
  forall (super_visit : expander -> value -> comp estate value)
         (env : pyenv) (fuel : nat) (self : expander) (tree : value) (st : estate),
    bindings self = [] ->
    visit super_visit self tree st = Some (Ok tree, st) /\
    visit_once super_visit self tree st = Some (Ok tree, st) /\
    expander_visit env (S fuel) self tree st = Some (Ok tree, st).
Proof.
  intros super_visit env fuel self tree st H.
  cbn [expander_visit]. unfold visit_once, visit. simpl. rewrite H.
  repeat split.
Qed.

Lemma visit_with_empty_bindings_is_noop_witness :
  bindings empty_expander = [] /\
  expander_visit sample_env 1 empty_expander s_of_list_of_u fresh_state
  = Some (Ok s_of_list_of_u, fresh_state).
Proof.
  split; [reflexivity|].
  exact (proj2 (proj2 (@visit_with_empty_bindings_is_noop
                         (fun _ _ => throw (Exn TypeError "" None))
                         sample_env 0 empty_expander s_of_list_of_u
                         fresh_state eq_refl))).
Defined.

(** C7. When the macro function bound to [macroname] raises [err], [_expand]
    raises a [MacroExpansionError] in the state the macro left; its message
    is "use site was at <file>:<line>: <source of the use site>"; its cause
    is [err], unless [err] is itself a [MacroExpansionError], and then its
    cause is the cause of [err]. *)
Theorem expand_wraps_and_collapses :
  forall (env : pyenv)
         (apply : macro -> value -> string -> expander -> option value ->
                  comp estate value)
         (super_visit : expander -> value -> comp estate value)
         (self : expander) (syntax : string) (target : value)
         (lineno : option Z) (macroname : string) (tree : value)
         (optional_vars : option value) (macro : macro) (err : exn)
         (st st1 : estate),
    dict_getitem macroname (bindings self) = Some macro ->
    apply macro tree syntax self optional_vars st = Some (Err err, st1) ->
    exists wrapped,
      _expand env apply super_visit self syntax target lineno macroname tree
              optional_vars st = Some (Err wrapped, st1) /\
      exn_cls wrapped = MacroExpansionError /\
      exn_msg wrapped =
        ("use site was at " ++ filename self ++ ":" ++ str_of_lineno lineno
           ++ ": " ++ unparse env target)%string /\
      (exn_cls err <> MacroExpansionError -> exn_cause wrapped = Some err) /\
      (exn_cls err = MacroExpansionError -> exn_cause wrapped = exn_cause err).
Proof.
  intros env apply super_visit self syntax target lineno macroname tree ov
         macro err st st1 Hm Ha.
  unfold _expand. rewrite Hm, Ha. eexists. split; [reflexivity|].
  simpl. repeat split.
  - intros Hne. destruct (exn_cls err); congruence.
  - intros He. now rewrite He.
Qed.

Lemma expand_wraps_and_collapses_witness :
  exists wrapped,
    _expand sample_env (apply_macro sample_env (expander_visit sample_env 5))
            (expander_visit sample_env 5) sample_expander "expr"
            (invoke "u" (ast_Name_Load "x")) (Some 7) "u" (ast_Name_Load "x")
            None fresh_state = Some (Err wrapped, fresh_state) /\
    exn_msg wrapped = "use site was at demo.py:7: <source>"%string /\
    exn_cause wrapped
    = Some (Exn SyntaxError "u[] encountered while quotelevel < 1" None).
Proof.
  destruct (@expand_wraps_and_collapses
              sample_env (apply_macro sample_env (expander_visit sample_env 5))
              (expander_visit sample_env 5) sample_expander "expr"
              (invoke "u" (ast_Name_Load "x")) (Some 7) "u"%string
              (ast_Name_Load "x") None Mu
              (Exn SyntaxError "u[] encountered while quotelevel < 1" None)
              fresh_state fresh_state eq_refl eq_refl)
    as (wrapped & E & _ & Hmsg & Hcause & _).
  exists wrapped. split; [exact E|]. split; [exact Hmsg|].
  apply Hcause. discriminate.
Defined.

(** The part of [unastify] that deals with constructor calls, on a tree
    whose nodes carry the fields of their classes: a call whose callee is not
    a dotted name that starts with [mcpy.quotes] and has three components or
    more is turned down with a [TypeError] or a [NotImplementedError], before
    anything is called; and a call that [unastify] lowers had such a
    callee. *)
Lemma foreign_calls_are_turned_down :
  forall (env : pyenv) (tree : value),
    well_formed tree = true ->
    (forall fields func,
        tree = VNode (AstClass "Call") fields ->
        getattr fields "func" = Ok func ->
        (forall name, attr_ast_to_dotted_name func = Ok name ->
                      recognized name = false) ->
        exists e, unastify env tree = Err e /\ LowerError e) /\
    (forall fields v,
        tree = VNode (AstClass "Call") fields ->
        unastify env tree = Ok v ->
        exists func name,
          getattr fields "func" = Ok func /\
          attr_ast_to_dotted_name func = Ok name /\
          recognized name = true).
Proof.
  intros env tree Hwf. split.
  - intros fields func -> Hf Hname. rewrite unastify_Call, Hf.
    destruct (attr_ast_to_dotted_name func) as [name|e] eqn:Ed.
    + rewrite (lookup_thing_unrecognized env name (Hname name eq_refl)).
      eexists. split; [reflexivity|]. now right.
    + exists e. split; [reflexivity|].
      apply (@dotted_name_error func e); [|exact Ed].
      apply (@well_formed_field (AstClass "Call") fields "func" func Hwf).
      now apply getattr_In.
  - intros fields v -> H. rewrite unastify_Call in H.
    destruct (getattr fields "func") as [func|e] eqn:Ef; [|discriminate].
    destruct (attr_ast_to_dotted_name func) as [name|e] eqn:Ed; [|discriminate].
    destruct (lookup_thing env name) as [callee|e] eqn:El; [|discriminate].
    exists func, name. split; [reflexivity|]. split; [exact Ed|].
    exact (lookup_thing_recognized env name El).
Qed.

(** C8, at the failing inputs [unastify(None)] and [unastify] of the tree
    of [{**{}}], whose one key is [None]. [None] is a shape that [unastify]
    has no branch for, so the call ends in the last line of the function,
    which renders the tree for the message of the [TypeError] before it
    raises. With a renderer that renders trees and raises on any other
    value, what [unastify] raises is the exception of the renderer, which is
    neither a [TypeError] nor a [NotImplementedError]. For every shape
    without a branch the outcome is the exception of the renderer when it
    raises on the tree, and the [TypeError] otherwise. *)
Theorem unastify_none_raises_renderer_error :
  known_shape VNone = false /\
  unastify tree_renderer_env VNone = Err UnparserError /\
  well_formed dict_of_starred = true /\
  unastify tree_renderer_env dict_of_starred = Err UnparserError /\
  ~ LowerError UnparserError /\
  (forall (env : pyenv) (tree : value),
      known_shape tree = false ->
      unastify env tree
      = match unparse_error env tree with
        | Some e => Err e
        | None =>
            Err (Exn TypeError
                     ("Don't know how to unastify " ++ unparse env tree) None)
        end).
Proof.
  split; [reflexivity|]. split; [reflexivity|].
  split; [reflexivity|]. split; [reflexivity|].
  split; [intros [H|H]; discriminate H|].
  intros env tree H. rewrite (unastify_unknown_shape env tree H). reflexivity.
Qed.

(** C9, at the failing input [ASTLiteral(ASTLiteral(x))]: [delete_markers]
    for the class [QuasiquoteMarker] returns the inner marker, and
    [get_markers] finds it in what was returned. *)
Theorem delete_markers_keeps_nested_marker :
  delete_markers QuasiquoteMarker nested_marker
  = Ok (mk_ASTLiteral (ast_Name_Load "x")) /\
  get_markers QuasiquoteMarker (mk_ASTLiteral (ast_Name_Load "x"))
  = Ok [mk_ASTLiteral (ast_Name_Load "x")].
Proof. split; reflexivity. Qed.

(** C10. From a start level that is at least 0, any program of [with]
    blocks on one tracker returns, and every stack the tracker has had on the
    way holds a level that is at least 0. [set_to] turns down what is not an
    integer with a [TypeError] and a negative integer with a [ValueError],
    [changed_by] turns down a change that would make the level negative, and
    each leaves the state as it was, the body not run. *)
Theorem tracker_level_never_negative :
  forall (p : NestingLevelTracker.prog) (start : Z),
    0 <= start ->
    (exists r s',
        NestingLevelTracker.exec p (NestingLevelTracker.start_with start)
        = Some (r, s') /\
        Forall NestingLevelTracker.level_ok (NestingLevelTracker.stacks s')) /\
    (forall (S A : Type) (get : S -> NestingLevelTracker.t)
            (put : NestingLevelTracker.t -> S -> S) (v : value)
            (body : comp S A) (s : S),
        int_of_atom v = None ->
        exists msg,
          NestingLevelTracker.set_to get put v body s
          = Some (Err (Exn TypeError msg None), s)) /\
    (forall (S A : Type) (get : S -> NestingLevelTracker.t)
            (put : NestingLevelTracker.t -> S -> S) (v : value) (z : Z)
            (body : comp S A) (s : S),
        int_of_atom v = Some z -> z < 0 ->
        exists msg,
          NestingLevelTracker.set_to get put v body s
          = Some (Err (Exn ValueError msg None), s)) /\
    (forall (S A : Type) (get : S -> NestingLevelTracker.t)
            (put : NestingLevelTracker.t -> S -> S) (delta level : Z)
            (body : comp S A) (s : S),
        NestingLevelTracker._get_value (get s) = Ok level ->
        level + delta < 0 ->
        exists msg,
          NestingLevelTracker.changed_by get put delta body s
          = Some (Err (Exn ValueError msg None), s)).
Proof.
  intros p start Hstart. repeat split.
  - destruct (@TrackerFacts.exec_good p (NestingLevelTracker.start_with start))
      as (r & s' & E & _ & G).
    { constructor; [now apply TrackerFacts.good_init|constructor]. }
    exists r, s'. split; [exact E|].
    eapply Forall_impl; [|exact G]. apply TrackerFacts.good_level_ok.
  - intros S A get put v body s0 H.
    now apply TrackerFacts.set_to_not_int.
  - intros S A get put v z body s0 H Hz.
    eapply TrackerFacts.set_to_negative; eauto.
  - intros S A get put delta level body s0 H Hneg.
    unfold NestingLevelTracker.changed_by. rewrite H.
    eapply TrackerFacts.set_to_negative; [reflexivity|exact Hneg].
Qed.

Lemma tracker_level_never_negative_witness :
  0 <= 0 /\
  exists r s',
    NestingLevelTracker.exec sample_prog (NestingLevelTracker.start_with 0)
    = Some (r, s') /\
    Forall NestingLevelTracker.level_ok (NestingLevelTracker.stacks s').
Proof.
  split; [lia|].
  exact (proj1 (@tracker_level_never_negative sample_prog 0 (Z.le_refl 0))).
Defined.

(* ================================================================== *)
(** * Further properties of the code *)

(** ** utilities.py *)

Lemma gensym_basename (b : option string) (g : gensym_state) :
  gensym b g =
  match gensym_loop (basename_or_default b) (_previous_gensyms g) (uuid_draws g) with
  | None => None
  | Some (sym, rest) =>
      Some (sym, {| _previous_gensyms := sym :: _previous_gensyms g;
                    uuid_draws := rest |})
  end.
Proof. reflexivity. Qed.

Lemma gensym_loop_form (b : string) (prev draws : list string) sym rest :
  gensym_loop b prev draws = Some (sym, rest) ->
  exists unique, In unique draws /\ sym = (b ++ "_" ++ unique)%string.
Proof.
  induction draws as [|d draws IH]; cbn [gensym_loop]; [discriminate|].
  destruct (str_in (b ++ "_" ++ d) prev).
  - intros H. destruct (IH H) as (x & Hin & Hx). exists x. split; [right|]; assumption.
  - intros H. injection H as <- _. exists d. split; [left|]; reflexivity.
Qed.

Lemma gensym_loop_progress (b : string) (prev draws : list string) (unique : string) :
  In unique draws -> ~ In (b ++ "_" ++ unique)%string prev ->
  exists sym rest, gensym_loop b prev draws = Some (sym, rest).
Proof.
  induction draws as [|d draws IH]; intros Hin Hfresh; [destruct Hin|].
  cbn [gensym_loop].
  destruct (str_in (b ++ "_" ++ d) prev) eqn:E.
  - destruct Hin as [->|Hin].
    + apply str_in_In in E. contradiction.
    + apply IH; assumption.
  - eauto.
Qed.

(** X1. The names that successive calls of [gensym] return are pairwise
    different, none of them was in [_previous_gensyms] before the first
    call, and after the last call [_previous_gensyms] holds them and what
    it held before. *)
Theorem gensym_names_are_unique :
  forall (basenames : list (option string)) (g g' : gensym_state)
         (names : list string),
    gensym_calls basenames g = Some (names, g') ->
    NoDup names /\
    (forall x, In x names -> ~ In x (_previous_gensyms g)) /\
    (forall x, In x (_previous_gensyms g') <->
               In x names \/ In x (_previous_gensyms g)).
Proof.
  induction basenames as [|b bs IH]; intros g g' names; cbn [gensym_calls].
  - intros H. injection H as <- <-. split; [constructor|]. split.
    + intros x [].
    + intros x. split; [right; assumption|intros [[]|H]; exact H].
  - destruct (gensym b g) as [[sym g1]|] eqn:E1; [|discriminate].
    destruct (gensym_calls bs g1) as [[syms g2]|] eqn:E2; [|discriminate].
    intros H. injection H as <- <-.
    destruct (gensym_fresh _ _ E1) as [Hfresh Hprev].
    destruct (IH _ _ _ E2) as (Hnd & Hnew & Hall).
    split; [|split].
    + constructor; [|exact Hnd].
      intros Hin. apply (Hnew _ Hin). rewrite Hprev. left. reflexivity.
    + intros x [<-|Hin]; [exact Hfresh|].
      intros Hx. apply (Hnew _ Hin). rewrite Hprev. right. exact Hx.
    + intros x. rewrite Hall, Hprev. cbn [In]. tauto.
Qed.

Lemma gensym_names_are_unique_witness :
  gensym_calls [None; Some "x"%string] fresh_gensyms
  = Some (["gensym_0a"; "x_0b"]%string,
          {| _previous_gensyms := ["x_0b"; "gensym_0a"]%string; uuid_draws := [] |}) /\
  NoDup ["gensym_0a"; "x_0b"]%string.
Proof.
  split; [reflexivity|].
  exact (proj1 (@gensym_names_are_unique [None; Some "x"%string] fresh_gensyms _ _
                  eq_refl)).
Defined.

(** X2. The name that [gensym] returns is the basename, or [gensym] when
    the basename is [None] or empty, then an underscore, then one of the
    texts drawn from [uuid4], and it is not in [_previous_gensyms]; and
    [gensym] returns as soon as a draw gives a name that is not there. *)
Theorem gensym_name_form_and_progress :
  forall (basename : option string) (g : gensym_state),
    (forall sym g',
        gensym basename g = Some (sym, g') ->
        exists unique,
          In unique (uuid_draws g) /\
          sym = (basename_or_default basename ++ "_" ++ unique)%string /\
          ~ In sym (_previous_gensyms g)) /\
    ((exists unique,
         In unique (uuid_draws g) /\
         ~ In (basename_or_default basename ++ "_" ++ unique)%string
              (_previous_gensyms g)) ->
     exists sym g', gensym basename g = Some (sym, g')).
Proof.
  intros b g. split.
  - intros sym g' H.
    destruct (gensym_fresh _ _ H) as [Hfresh _].
    rewrite gensym_basename in H.
    destruct (gensym_loop _ _ _) as [[sym' rest]|] eqn:E; [|discriminate].
    injection H as <- _.
    destruct (gensym_loop_form _ _ _ E) as (x & Hin & ->).
    exists x. repeat split; assumption.
  - intros (x & Hin & Hfresh).
    rewrite gensym_basename.
    destruct (@gensym_loop_progress _ _ _ _ Hin Hfresh) as (sym & rest & ->).
    eauto.
Qed.

(** X3. [flatten_suite] never returns an empty list: it returns [None] or a
    list with an item in it. It returns [None] exactly when every item of
    its argument is [None] or an empty list. A non-empty argument without
    lists and [None]s is returned as it is. *)
Theorem flatten_suite_none_or_nonempty :
  forall lst : list value,
    (flatten_suite lst = VNone \/
     exists x out, flatten_suite lst = VList (x :: out)) /\
    (flatten_suite lst = VNone <->
     Forall (fun elt => elt = VNone \/ elt = VList []) lst) /\
    (forallb single_item lst = true -> lst <> [] ->
     flatten_suite lst = VList lst).
Proof.
  intros lst. unfold flatten_suite.
  set (f := fun elt : value => match elt with
                               | VList l => l
                               | VNone => []
                               | _ => [elt]
                               end).
  split; [|split].
  - destruct (flat_map f lst); [left; reflexivity|right; eauto].
  - assert (Hnil : flat_map f lst = [] <->
                   Forall (fun elt => elt = VNone \/ elt = VList []) lst).
    { induction lst as [|x l IH]; cbn [flat_map].
      - split; [constructor|reflexivity].
      - split.
        + intros H. apply app_eq_nil in H. destruct H as [Hx Hl].
          constructor; [|apply IH; exact Hl].
          destruct x; cbn in Hx; try discriminate; [left; reflexivity|right; subst; reflexivity].
        + intros H. inversion H as [|? ? Hx Hl]; subst.
          apply IH in Hl. rewrite Hl, app_nil_r.
          destruct Hx as [->| ->]; reflexivity. }
    rewrite <- Hnil.
    destruct (flat_map f lst); split; intros H; try reflexivity; discriminate.
  - intros Hs Hne.
    assert (Hid : flat_map f lst = lst).
    { clear Hne. induction lst as [|x l IH]; [reflexivity|].
      cbn [forallb] in Hs. apply andb_prop in Hs. destruct Hs as [Hx Hl].
      cbn [flat_map]. rewrite (IH Hl).
      destruct x; cbn in Hx; try discriminate; reflexivity. }
    rewrite Hid. destruct lst; [contradiction Hne; reflexivity|reflexivity].
Qed.

Section TrackerReads.
Import NestingLevelTracker.
Variable S : Type.
Variable get : S -> t.
Variable put : t -> S -> S.
Hypothesis get_put : forall tr s, get (put tr s) = tr.

Lemma set_to_read (z v : Z) (rest : list Z) (s : S) :
  0 <= z -> get s = v :: rest ->
  set_to get put (VInt z) (read_level get) s
  = Some (Ok z, put (v :: rest) (put (z :: v :: rest) s)).
Proof.
  intros Hz Hs. unfold set_to, read_level. cbn [int_of_atom].
  destruct (Z.ltb_spec z 0) as [H|_]; [lia|].
  rewrite get_put, Hs. reflexivity.
Qed.

Lemma changed_by_eq A (d v : Z) (rest : list Z) (body : comp S A) (s : S) :
  get s = v :: rest ->
  changed_by get put d body s = set_to get put (VInt (v + d)) body s.
Proof. intros Hs. unfold changed_by. rewrite Hs. reflexivity. Qed.

Lemma set_to_runs A (z v : Z) (rest : list Z) (body : comp S A) (s s1 : S)
  (r : result A) :
  0 <= z -> get s = v :: rest ->
  body (put (z :: v :: rest) s) = Some (r, s1) ->
  get s1 = z :: v :: rest ->
  set_to get put (VInt z) body s = Some (r, put (v :: rest) s1).
Proof.
  intros Hz Hs Hb H1. unfold set_to. cbn [int_of_atom].
  destruct (Z.ltb_spec z 0) as [H|_]; [lia|].
  rewrite Hs, Hb, H1. reflexivity.
Qed.
End TrackerReads.

(** X4. Inside [with set_to(z)] the level reads [z]; inside
    [with changed_by(d1)] around [with changed_by(d2)] it reads the level
    outside plus [d1] plus [d2]; and after either block the stack is what
    it was before. *)
Theorem level_inside_nested_blocks :
  forall (S : Type) (get : S -> NestingLevelTracker.t)
         (put : NestingLevelTracker.t -> S -> S) (s : S) (v : Z)
         (rest : list Z) (z d1 d2 : Z),
    (forall tr s, get (put tr s) = tr) ->
    get s = v :: rest ->
    0 <= z -> 0 <= v + d1 -> 0 <= v + d1 + d2 ->
    (exists s',
        NestingLevelTracker.set_to get put (VInt z) (read_level get) s
        = Some (Ok z, s') /\
        get s' = v :: rest) /\
    (exists s',
        NestingLevelTracker.changed_by get put d1
          (NestingLevelTracker.changed_by get put d2 (read_level get)) s
        = Some (Ok (v + d1 + d2), s') /\
        get s' = v :: rest).
Proof.
  intros S get put s v rest z d1 d2 get_put Hs Hz H1 H2. split.
  - eexists. split; [apply set_to_read; eassumption|]. apply get_put.
  - eexists. split; [|apply get_put].
    rewrite (@changed_by_eq S get put Z d1 v rest _ s Hs).
    eapply set_to_runs; [exact H1|exact Hs| |].
    + rewrite (@changed_by_eq S get put Z d2 (v + d1) (v :: rest))
        by apply get_put.
      apply set_to_read; [exact get_put|exact H2|apply get_put].
    + apply get_put.
Qed.

Lemma level_inside_nested_blocks_witness :
  exists s',
    NestingLevelTracker.changed_by _quotelevel set_quotelevel 1
      (NestingLevelTracker.changed_by _quotelevel set_quotelevel (-1)
         (read_level _quotelevel)) fresh_state
    = Some (Ok 0, s') /\
    _quotelevel s' = [0].
Proof.
  exact (proj2 (@level_inside_nested_blocks estate _quotelevel set_quotelevel
                  fresh_state 0 [] 0 1 (-1) (fun _ _ => eq_refl) eq_refl
                  ltac:(lia) ltac:(lia) ltac:(lia))).
Defined.

(** ** quotes.py: the capture registry *)

Section DictFacts.
Variable V : Type.

Lemma dict_getitem_In (k : string) (m : registry V) (x : V) :
  dict_getitem k m = Some x -> In k (map fst m).
Proof.
  induction m as [|[k0 v0] m IH]; cbn [dict_getitem map fst]; [discriminate|].
  destruct (String.eqb_spec k0 k) as [->|_]; [left; reflexivity|].
  intros H. right. apply IH. exact H.
Qed.

Lemma dict_getitem_absent (k : string) (m : registry V) :
  ~ In k (map fst m) -> dict_getitem k m = None.
Proof.
  induction m as [|[k0 v0] m IH]; cbn [dict_getitem map fst In]; [reflexivity|].
  intros H. destruct (String.eqb_spec k0 k) as [->|_]; [tauto|].
  apply IH. tauto.
Qed.

Lemma dict_getitem_setitem (k : string) (v : V) (m : registry V) :
  dict_getitem k (dict_setitem k v m) = Some v.
Proof.
  induction m as [|[k0 v0] m IH]; cbn [dict_setitem dict_getitem].
  - rewrite String.eqb_refl. reflexivity.
  - destruct (String.eqb_spec k0 k) as [->|Hne]; cbn [dict_getitem].
    + rewrite String.eqb_refl. reflexivity.
    + destruct (String.eqb_spec k0 k) as [->|_]; [contradiction Hne; reflexivity|].
      exact IH.
Qed.

Lemma dict_getitem_setitem_other (k key : string) (v : V) (m : registry V) :
  k <> key -> dict_getitem k (dict_setitem key v m) = dict_getitem k m.
Proof.
  intros Hne. induction m as [|[k0 v0] m IH]; cbn [dict_setitem dict_getitem].
  - destruct (String.eqb_spec key k) as [->|_]; [contradiction Hne; reflexivity|].
    reflexivity.
  - destruct (String.eqb_spec k0 key) as [->|Hk0]; cbn [dict_getitem].
    + destruct (String.eqb_spec key k) as [->|_]; [contradiction Hne|]; reflexivity.
    + rewrite IH. reflexivity.
Qed.

Variable is_ : V -> V -> bool.

Lemma find_then_getitem (m : registry V) (v : V) (k : string) :
  NoDup (map fst m) ->
  find_by_identity is_ m v = Some k ->
  exists x, dict_getitem k m = Some x /\ is_ x v = true.
Proof.
  induction m as [|[k0 v0] m IH]; cbn [find_by_identity dict_getitem map fst];
    [discriminate|].
  intros Hnd. inversion Hnd as [|? ? Hnotin Hnd']; subst.
  destruct (is_ v0 v) eqn:E.
  - intros H. injection H as <-. rewrite String.eqb_refl. eauto.
  - intros H. destruct (IH Hnd' H) as (x & Hget & Hx).
    destruct (String.eqb_spec k0 k) as [->|_].
    + contradiction Hnotin. eapply dict_getitem_In. exact Hget.
    + eauto.
Qed.

Lemma capture_into_getitem (m m1 : registry V) (g g1 : gensym_state)
  (v : V) (b k : string) :
  (forall x, is_ x x = true) ->
  NoDup (map fst m) ->
  _capture_into is_ m v b g = Some (k, m1, g1) ->
  exists x, dict_getitem k m1 = Some x /\ is_ x v = true.
Proof.
  intros Hrefl Hnd. unfold _capture_into.
  destruct (find_by_identity is_ m v) as [key|] eqn:E.
  - intros H. injection H as <- <- <-. eapply find_then_getitem; eassumption.
  - destruct (gensym (Some b) g) as [[key g']|]; [|discriminate].
    intros H. injection H as <- <- <-.
    exists v. split; [apply dict_getitem_setitem|apply Hrefl].
Qed.

Lemma capture_into_keeps (m m1 : registry V) (g g1 : gensym_state)
  (v x : V) (b k k0 : string) :
  (forall k, In k (map fst m) -> In k (_previous_gensyms g)) ->
  _capture_into is_ m v b g = Some (k, m1, g1) ->
  dict_getitem k0 m = Some x -> dict_getitem k0 m1 = Some x.
Proof.
  intros Hkeys. unfold _capture_into.
  destruct (find_by_identity is_ m v) as [key|].
  - intros H. injection H as <- <- <-. exact (fun H => H).
  - destruct (gensym (Some b) g) as [[key g']|] eqn:E; [|discriminate].
    intros H. injection H as <- <- <-. intros Hget.
    rewrite dict_getitem_setitem_other; [exact Hget|].
    intros <-. destruct (gensym_fresh _ _ E) as [Hfresh _].
    apply Hfresh, Hkeys. eapply dict_getitem_In. exact Hget.
Qed.
End DictFacts.

(** X5. In a registry that only captures have written to: [lookup] of the
    key inside the tree that [capture] returns gives back the object that
    was captured; every key that [lookup] resolved before the capture
    resolves to the same object after it; a key that [gensym] has not handed
    out raises [KeyError]; and the registry is again one that only captures
    have written to. *)
Theorem lookup_after_capture :
  forall (obj : pyobj) (basename : string) (st st1 : estate) (tree : value),
    registry_ok (_hygienic_registry st) (gensyms st) ->
    capture obj basename st = Some (Ok tree, st1) ->
    (exists key found,
        tree = ast_Call (_mcpy_quotes_attr "lookup") [ast_Constant (VStr key)] [] /\
        lookup key st1 = Some (Ok found, st1) /\
        same_object found obj = true) /\
    (forall k x, lookup k st = Some (Ok x, st) ->
                 lookup k st1 = Some (Ok x, st1)) /\
    (forall k, ~ In k (_previous_gensyms (gensyms st1)) ->
               lookup k st1 = Some (Err (Exn KeyError k None), st1)) /\
    registry_ok (_hygienic_registry st1) (gensyms st1).
Proof.
  intros obj b st st1 tree Hok. unfold capture.
  destruct (_capture_into same_object (_hygienic_registry st) obj b (gensyms st))
    as [[[key m] g]|] eqn:E; [|discriminate].
  intros H. injection H as <- <-.
  destruct (@capture_into_ok _ _ _ _ _ _ _ Hok E) as [Hok1 _].
  split; [|split; [|split]].
  - destruct (@capture_into_getitem pyobj same_object _ _ _ _ _ _ _
                same_object_refl (proj1 Hok) E) as (x & Hget & Hx).
    exists key, x. split; [reflexivity|]. split; [|exact Hx].
    unfold lookup. cbn [_hygienic_registry]. rewrite Hget. reflexivity.
  - intros k x. unfold lookup. cbn [_hygienic_registry].
    destruct (dict_getitem k (_hygienic_registry st)) as [y|] eqn:Hk;
      [|discriminate].
    intros H. injection H as ->.
    rewrite (@capture_into_keeps pyobj same_object _ _ _ _ _ _ _ _ _
               (proj1 (proj2 Hok)) E Hk).
    reflexivity.
  - intros k Hk. unfold lookup. cbn [_hygienic_registry gensyms] in *.
    rewrite dict_getitem_absent; [reflexivity|].
    intros Hin. apply Hk. apply (proj1 (proj2 Hok1)). exact Hin.
  - exact Hok1.
Qed.

Lemma lookup_after_capture_witness :
  exists key found st1,
    capture object_1 "spam" fresh_state
    = Some (Ok (ast_Call (_mcpy_quotes_attr "lookup") [ast_Constant (VStr key)] []),
            st1) /\
    lookup key st1 = Some (Ok found, st1) /\
    same_object found object_1 = true.
Proof.
  assert (Hok : registry_ok (_hygienic_registry fresh_state) (gensyms fresh_state)).
  { repeat split; try constructor. intros k []. }
  destruct (proj1 (@lookup_after_capture object_1 "spam" fresh_state _ _ Hok eq_refl))
    as (key & found & Htree & Hlookup & Hsame).
  exists key, found. eexists. split; [|split; eassumption].
  rewrite <- Htree. reflexivity.
Defined.

(** ** quotes.py: astify *)

Section Effects.
Variable S : Type.

Lemma ret_pure A (a : A) : pure (@ret S A a).
Proof. intros s. eexists. reflexivity. Qed.

Lemma throw_pure A (e : exn) : pure (@throw S A e).
Proof. intros s. eexists. reflexivity. Qed.

Lemma lift_pure A (r : result A) : pure (@lift S A r).
Proof. intros s. eexists. reflexivity. Qed.

Lemma bind_pure A B (c : comp S A) (k : A -> comp S B) :
  pure c -> (forall a, pure (k a)) -> pure (bind c k).
Proof.
  intros Hc Hk s. unfold bind. destruct (Hc s) as [r ->].
  destruct r as [a|e]; [apply Hk|eexists; reflexivity].
Qed.

Lemma mapC_pure A B (f : A -> comp S B) (l : list A) :
  Forall (fun a => pure (f a)) l -> pure (mapC f l).
Proof.
  induction 1 as [|a l Ha _ IH]; cbn [mapC]; [apply ret_pure|].
  apply bind_pure; [exact Ha|]. intros b.
  apply bind_pure; [exact IH|]. intros bs. apply ret_pure.
Qed.

Variable X : Type.
Variable proj : S -> X.

Lemma ret_leaves A (a : A) : leaves proj (@ret S A a).
Proof. intros s r s' H. injection H as _ <-. reflexivity. Qed.

Lemma throw_leaves A (e : exn) : leaves proj (@throw S A e).
Proof. intros s r s' H. injection H as _ <-. reflexivity. Qed.

Lemma lift_leaves A (r : result A) : leaves proj (@lift S A r).
Proof. intros s r' s' H. injection H as _ <-. reflexivity. Qed.

Lemma bind_leaves A B (c : comp S A) (k : A -> comp S B) :
  leaves proj c -> (forall a, leaves proj (k a)) -> leaves proj (bind c k).
Proof.
  intros Hc Hk s r s'. unfold bind.
  destruct (c s) as [[[a|e] s1]|] eqn:E; [| |discriminate].
  - intros H. rewrite (Hk _ _ _ _ H). eapply Hc. exact E.
  - intros H. injection H as _ <-. eapply Hc. exact E.
Qed.

Lemma mapC_leaves A B (f : A -> comp S B) (l : list A) :
  Forall (fun a => leaves proj (f a)) l -> leaves proj (mapC f l).
Proof.
  induction 1 as [|a l Ha _ IH]; cbn [mapC]; [apply ret_leaves|].
  apply bind_leaves; [exact Ha|]. intros b.
  apply bind_leaves; [exact IH|]. intros bs. apply ret_leaves.
Qed.
End Effects.

Lemma astify_None_pure (x : value) : pure (astify None x).
Proof.
  induction x using value_ind; cbn [astify];
    try apply ret_pure; try apply throw_pure.
  - apply bind_pure; [apply mapC_pure; assumption|intros; apply ret_pure].
  - apply bind_pure; [apply mapC_pure; assumption|intros; apply ret_pure].
  - apply bind_pure; [apply mapC_pure; assumption|intros; apply ret_pure].
  - apply bind_pure.
    { apply mapC_pure. eapply Forall_impl; [|eassumption].
      intros kv [Hk _]. exact Hk. }
    intros keys. apply bind_pure.
    { apply mapC_pure. eapply Forall_impl; [|eassumption].
      intros kv [_ Hv]. exact Hv. }
    intros values. apply ret_pure.
  - destruct (is_marker_class c ASTLiteral); [apply lift_pure|].
    destruct (is_marker_class c CaptureLater).
    + apply bind_pure; [apply lift_pure|intros body].
      apply bind_pure; [apply lift_pure|intros name]. apply ret_pure.
    + apply bind_pure; [|intros; apply ret_pure].
      apply mapC_pure. eapply Forall_impl; [|eassumption].
      intros fv Hfv. apply bind_pure; [exact Hfv|intros; apply ret_pure].
Qed.

Lemma capture_macro_leaves_registry (f : macro) (name : string) :
  leaves _hygienic_registry (capture_macro f name).
Proof.
  intros st r st'. unfold capture_macro.
  destruct (_capture_into _ _ _ _ _) as [[[key m] g]|]; [|discriminate].
  intros H. injection H as _ <-. reflexivity.
Qed.

Lemma astify_leaves_registry (e : option expander) (x : value) :
  leaves _hygienic_registry (astify e x).
Proof.
  induction x using value_ind; cbn [astify];
    try apply ret_leaves; try apply throw_leaves.
  - apply bind_leaves; [apply mapC_leaves; assumption|intros; apply ret_leaves].
  - apply bind_leaves; [apply mapC_leaves; assumption|intros; apply ret_leaves].
  - apply bind_leaves; [apply mapC_leaves; assumption|intros; apply ret_leaves].
  - apply bind_leaves.
    { apply mapC_leaves. eapply Forall_impl; [|eassumption].
      intros kv [Hk _]. exact Hk. }
    intros keys. apply bind_leaves.
    { apply mapC_leaves. eapply Forall_impl; [|eassumption].
      intros kv [_ Hv]. exact Hv. }
    intros values. apply ret_leaves.
  - destruct (is_marker_class c ASTLiteral); [apply lift_leaves|].
    destruct (is_marker_class c CaptureLater).
    + assert (Hcv : leaves _hygienic_registry
                      (bind (lift (getattr fields "body"))
                         (fun body =>
                            bind (lift (getattr fields "name"))
                              (fun name =>
                                 ret (S := estate)
                                   (ast_Call (_mcpy_quotes_attr "capture")
                                      [body; ast_Constant name] []))))).
      { apply bind_leaves; [apply lift_leaves|intros body].
        apply bind_leaves; [apply lift_leaves|intros name]. apply ret_leaves. }
      destruct e as [e|]; [|exact Hcv].
      apply bind_leaves; [apply lift_leaves|intros body].
      destruct body; try exact Hcv.
      destruct (is_class c0 "Name"); [|exact Hcv].
      apply bind_leaves; [apply lift_leaves|intros id].
      apply bind_leaves; [apply lift_leaves|intros ismacro].
      destruct id as [?|?|macroname|?|?| |?|?|?|?|? ?|?]; try exact Hcv.
      destruct ismacro; [|exact Hcv].
      destruct (dict_getitem macroname (bindings e)); [|apply throw_leaves].
      apply bind_leaves; [apply capture_macro_leaves_registry|].
      intros; apply ret_leaves.
    + apply bind_leaves; [|intros; apply ret_leaves].
      apply mapC_leaves. eapply Forall_impl; [|eassumption].
      intros fv Hfv. apply bind_leaves; [exact Hfv|intros; apply ret_leaves].
Qed.

(** X6. Without an expander, [astify] has no effect: in every state it
    returns a tree or raises, and the state is as it was. With an expander,
    the only effect it can have is the capture of a macro: the quote level
    and the registry of captured run-time values are as they were. *)
Theorem astify_effects :
  forall x : value,
    (forall st, exists r, astify None x st = Some (r, st)) /\
    (forall e st r st',
        astify e x st = Some (r, st') ->
        _quotelevel st' = _quotelevel st /\
        _hygienic_registry st' = _hygienic_registry st).
Proof.
  intros x. split.
  - exact (astify_None_pure x).
  - intros e st r st' H. split.
    + exact (@LevelFacts.astify_balanced e x st r st' H).
    + exact (@astify_leaves_registry e x st r st' H).
Qed.

Lemma bind_Ok_inv {S A B} (c : comp S A) (k : A -> comp S B) (s s' : S) (b : B) :
  bind c k s = Some (Ok b, s') ->
  exists a s1, c s = Some (Ok a, s1) /\ k a s1 = Some (Ok b, s').
Proof.
  unfold bind. destruct (c s) as [[[a|e] s1]|]; [|discriminate|discriminate].
  intros H. exists a, s1. split; [reflexivity|exact H].
Qed.

Lemma lift_Ok_inv {S A} (r : result A) (s s' : S) (a : A) :
  lift r s = Some (Ok a, s') -> r = Ok a /\ s' = s.
Proof. unfold lift. intros H. injection H as -> <-. split; reflexivity. Qed.

Lemma ret_Ok_inv {S A} (a a' : A) (s s' : S) :
  ret a s = Some (Ok a', s') -> a' = a /\ s' = s.
Proof. unfold ret. intros H. injection H as -> <-. split; reflexivity. Qed.

Lemma mapC_Ok_Forall {S A B} (P : B -> Prop) (f : A -> comp S B) (l : list A) :
  Forall (fun a => forall st t st', f a st = Some (Ok t, st') -> P t) l ->
  forall st ts st', mapC f l st = Some (Ok ts, st') -> Forall P ts.
Proof.
  induction 1 as [|a l Ha _ IH]; cbn [mapC]; intros st ts st' H.
  - apply ret_Ok_inv in H. destruct H as [-> _]. constructor.
  - apply bind_Ok_inv in H. destruct H as (b & s1 & Hb & H).
    apply bind_Ok_inv in H. destruct H as (bs & s2 & Hbs & H).
    apply ret_Ok_inv in H. destruct H as [-> _].
    constructor; [eapply Ha; exact Hb|eapply IH; exact Hbs].
Qed.

Lemma flat_map_nil {A B} (f : A -> list B) (l : list A) :
  Forall (fun a => f a = []) l -> flat_map f l = [].
Proof.
  induction 1 as [|a l Ha _ IH]; cbn [flat_map]; [reflexivity|].
  rewrite Ha, IH. reflexivity.
Qed.

Lemma is_nil_true {A} (l : list A) : is_nil l = true -> l = [].
Proof. destruct l; [reflexivity|discriminate]. Qed.

Lemma examine_markers_node (cls : list string) (c : pyclass)
  (fields : list (string * value)) :
  examine_markers cls (VNode c fields) =
  (if isinstance_marker (VNode c fields) cls then [VNode c fields] else []) ++
  flat_map (fun fv => found_in_field cls (snd fv)) fields.
Proof. reflexivity. Qed.

Lemma found_in_item_of_field (cls : list string) (v : value) :
  found_in_field cls v = [] -> found_in_item cls v = [].
Proof. destruct v; intros H; try reflexivity. exact H. Qed.

Lemma found_in_elts (cls : list string) (name : string) (elts : list value) :
  Forall (fun t => found_in_field cls t = []) elts ->
  found_in_field cls (ast_elts name elts) = [].
Proof.
  intros H. unfold ast_elts, found_in_field. rewrite examine_markers_node.
  cbn [isinstance_marker app flat_map snd found_in_field].
  rewrite app_nil_r. apply flat_map_nil.
  eapply Forall_impl; [|exact H]. intros t. apply found_in_item_of_field.
Qed.

Lemma found_in_lifted_node (cls : list string) (name : string)
  (keywords : list value) :
  Forall (fun t => found_in_item cls t = []) keywords ->
  found_in_field cls (lifted_node name keywords) = [].
Proof.
  intros H. unfold lifted_node, ast_Call, found_in_field.
  rewrite examine_markers_node.
  cbn [isinstance_marker app flat_map snd found_in_field found_in_item].
  rewrite (flat_map_nil _ H). reflexivity.
Qed.

Lemma found_in_keyword (cls : list string) (arg : string) (v : value) :
  found_in_field cls v = [] -> found_in_item cls (ast_keyword arg v) = [].
Proof.
  intros H. unfold ast_keyword, found_in_item. rewrite examine_markers_node.
  cbn [isinstance_marker app flat_map snd]. rewrite H. reflexivity.
Qed.

Lemma found_in_capture_call (cls : list string) (body name : value) :
  found_in_item cls body = [] -> found_in_field cls name = [] ->
  found_in_field cls
    (ast_Call (_mcpy_quotes_attr "capture") [body; ast_Constant name] []) = [].
Proof.
  intros Hb Hn. unfold ast_Call, found_in_field. rewrite examine_markers_node.
  cbn [isinstance_marker app flat_map snd found_in_field].
  rewrite Hb.
  change (found_in_item cls (ast_Constant name))
    with (found_in_field cls name ++ []).
  rewrite Hn. reflexivity.
Qed.

Lemma astify_clean (cls : list string) (e : option expander) (x : value) :
  splice_clean cls x = true ->
  forall st t st', astify e x st = Some (Ok t, st') -> found_in_field cls t = [].
Proof.
  induction x as [z|b|str|b|b| |l IH|l IH|l IH|items IH|c fields IH|n]
    using value_ind; intros Hclean st t st' H; cbn [astify] in H;
    try (apply ret_Ok_inv in H; destruct H as [-> _]; reflexivity);
    try discriminate.
  - apply bind_Ok_inv in H. destruct H as (elts' & s1 & Hm & H).
    apply ret_Ok_inv in H. destruct H as [-> _].
    apply found_in_elts. eapply mapC_Ok_Forall; [|exact Hm].
    cbn [splice_clean] in Hclean. rewrite forallb_forall in Hclean.
    rewrite Forall_forall in *. intros a Ha. apply IH; [exact Ha|apply Hclean, Ha].
  - apply bind_Ok_inv in H. destruct H as (elts' & s1 & Hm & H).
    apply ret_Ok_inv in H. destruct H as [-> _].
    apply found_in_elts. eapply mapC_Ok_Forall; [|exact Hm].
    cbn [splice_clean] in Hclean. rewrite forallb_forall in Hclean.
    rewrite Forall_forall in *. intros a Ha. apply IH; [exact Ha|apply Hclean, Ha].
  - apply bind_Ok_inv in H. destruct H as (elts' & s1 & Hm & H).
    apply ret_Ok_inv in H. destruct H as [-> _].
    apply found_in_elts. eapply mapC_Ok_Forall; [|exact Hm].
    cbn [splice_clean] in Hclean. rewrite forallb_forall in Hclean.
    rewrite Forall_forall in *. intros a Ha. apply IH; [exact Ha|apply Hclean, Ha].
  - apply bind_Ok_inv in H. destruct H as (keys & s1 & Hk & H).
    apply bind_Ok_inv in H. destruct H as (values & s2 & Hv & H).
    apply ret_Ok_inv in H. destruct H as [-> _].
    cbn [splice_clean] in Hclean. rewrite forallb_forall in Hclean.
    assert (Hkeys : Forall (fun t => found_in_field cls t = []) keys).
    { eapply mapC_Ok_Forall; [|exact Hk]. rewrite Forall_forall in *.
      intros kv Hin. apply (proj1 (IH kv Hin)).
      apply Hclean in Hin. apply andb_prop in Hin. apply Hin. }
    assert (Hvalues : Forall (fun t => found_in_field cls t = []) values).
    { eapply mapC_Ok_Forall; [|exact Hv]. rewrite Forall_forall in *.
      intros kv Hin. apply (proj2 (IH kv Hin)).
      apply Hclean in Hin. apply andb_prop in Hin. apply Hin. }
    unfold ast_Dict, found_in_field. rewrite examine_markers_node.
    cbn [isinstance_marker app flat_map snd found_in_field].
    rewrite !flat_map_nil; [reflexivity| |].
    + eapply Forall_impl; [|exact Hvalues]. intros v. apply found_in_item_of_field.
    + eapply Forall_impl; [|exact Hkeys]. intros v. apply found_in_item_of_field.
  - cbn [splice_clean] in Hclean.
    destruct (is_marker_class c ASTLiteral).
    { apply lift_Ok_inv in H. destruct H as [Hb _]. rewrite Hb in Hclean.
      apply is_nil_true. exact Hclean. }
    destruct (is_marker_class c CaptureLater).
    { assert (Hcv : forall st t st',
                 bind (lift (getattr fields "body"))
                   (fun body =>
                      bind (lift (getattr fields "name"))
                        (fun name =>
                           ret (S := estate)
                             (ast_Call (_mcpy_quotes_attr "capture")
                                [body; ast_Constant name] []))) st
                 = Some (Ok t, st') -> found_in_field cls t = []).
      { clear H. intros st0 t0 st0' H.
        apply bind_Ok_inv in H. destruct H as (body & s1 & Hb & H).
        apply bind_Ok_inv in H. destruct H as (name & s2 & Hn & H).
        apply ret_Ok_inv in H. destruct H as [-> _].
        apply lift_Ok_inv in Hb. destruct Hb as [Hb _].
        apply lift_Ok_inv in Hn. destruct Hn as [Hn _].
        rewrite Hb, Hn in Hclean. apply andb_prop in Hclean.
        apply found_in_capture_call; apply is_nil_true; apply Hclean. }
      destruct e as [e|]; [|eapply Hcv; exact H].
      apply bind_Ok_inv in H. destruct H as (body & s1 & Hb & H).
      apply lift_Ok_inv in Hb. destruct Hb as [Hb ->].
      assert (Hcv' : bind (lift (getattr fields "body"))
                   (fun body =>
                      bind (lift (getattr fields "name"))
                        (fun name =>
                           ret (S := estate)
                             (ast_Call (_mcpy_quotes_attr "capture")
                                [body; ast_Constant name] []))) st
                 = Some (Ok t, st') -> found_in_field cls t = []) by apply Hcv.
      destruct body as [?|?|?|?|?| |?|?|?|?|cb fb|?]; try (apply Hcv'; exact H).
      destruct (is_class cb "Name"); [|apply Hcv'; exact H].
      apply bind_Ok_inv in H. destruct H as (id & s2 & Hid & H).
      apply lift_Ok_inv in Hid. destruct Hid as [Hid ->].
      apply bind_Ok_inv in H. destruct H as (ismacro & s3 & Him & H).
      apply lift_Ok_inv in Him. destruct Him as [Him ->].
      destruct id as [?|?|macroname|?|?| |?|?|?|?|? ?|?]; try (apply Hcv'; exact H).
      destruct ismacro; [|apply Hcv'; exact H].
      destruct (dict_getitem macroname (bindings e)); [|discriminate].
      apply bind_Ok_inv in H. destruct H as (uniquename & s4 & _ & H).
      apply ret_Ok_inv in H. destruct H as [-> _]. reflexivity. }
    apply bind_Ok_inv in H. destruct H as (fields' & s1 & Hm & H).
    apply ret_Ok_inv in H. destruct H as [-> _].
    apply found_in_lifted_node. eapply mapC_Ok_Forall; [|exact Hm].
    rewrite forallb_forall in Hclean. rewrite Forall_forall in *.
    intros fv Hin st0 t0 st0' H0.
    apply bind_Ok_inv in H0. destruct H0 as (b' & s2 & Hb' & H0).
    apply ret_Ok_inv in H0. destruct H0 as [-> _].
    apply found_in_keyword. eapply IH; [exact Hin|apply Hclean, Hin|exact Hb'].
Qed.

(** X7. [astify] compiles the markers away: a marker of class [cls] is in
    its output only when it was inside the code that a marker splices in,
    the body of an [ASTLiteral] or the body or name of a [CaptureLater].
    When that code holds no instance of [cls], neither does the tree that
    [astify] returns, so [get_markers] finds nothing in it and
    [check_no_markers_remaining] passes. *)
Theorem astify_compiles_markers_away :
  forall (cls : list string) (e : option expander) (x : value)
         (st st' : estate) (c : pyclass) (fields : list (string * value)),
    splice_clean cls x = true ->
    astify e x st = Some (Ok (VNode c fields), st') ->
    get_markers cls (VNode c fields) = Ok [] /\
    (cls = ASTMarker ->
     forall filename,
       check_no_markers_remaining (VNode c fields) filename = Ok tt).
Proof.
  intros cls e x st st' c fields Hclean H.
  pose proof (@astify_clean cls e x Hclean st _ st' H) as Hnone.
  cbn [found_in_field] in Hnone. split.
  - cbn [get_markers]. rewrite Hnone. reflexivity.
  - intros -> filename. unfold check_no_markers_remaining.
    cbn [get_markers]. rewrite Hnone. reflexivity.
Qed.

Lemma astify_compiles_markers_away_witness :
  get_markers QuasiquoteMarker
    (lifted_node "Tuple"
       [ast_keyword "elts" (ast_elts "List" [ast_Name_Load "x"; ast_Constant (VInt 1)])])
  = Ok [].
Proof.
  exact (proj1 (@astify_compiles_markers_away QuasiquoteMarker None
                  (VNode (AstClass "Tuple")
                         [("elts",
                           VList [mk_ASTLiteral (ast_Name_Load "x"); VInt 1])]%string)
                  fresh_state fresh_state _ _ eq_refl eq_refl)).
Defined.

Section IdentityFacts.
Variable V : Type.
Variable is_ : V -> V -> bool.
Hypothesis is_refl : forall x, is_ x x = true.

Lemma find_after_setitem_any (m : registry V) (v : V) (key : string) :
  find_by_identity is_ m v = None ->
  find_by_identity is_ (dict_setitem key v m) v = Some key.
Proof.
  induction m as [|[k0 v0] m IH]; cbn [find_by_identity dict_setitem].
  - intros _. rewrite is_refl. reflexivity.
  - destruct (is_ v0 v) eqn:E; [discriminate|]. intros H.
    destruct (String.eqb k0 key) eqn:Ek; cbn [find_by_identity].
    + rewrite is_refl. apply String.eqb_eq in Ek. subst. reflexivity.
    + rewrite E. apply IH. exact H.
Qed.

Lemma capture_into_again_any (m m1 : registry V) (g g1 : gensym_state)
  (v : V) (b b' k : string) :
  _capture_into is_ m v b g = Some (k, m1, g1) ->
  _capture_into is_ m1 v b' g1 = Some (k, m1, g1).
Proof.
  unfold _capture_into.
  destruct (find_by_identity is_ m v) as [key|] eqn:E.
  - intros H. injection H as <- <- <-. rewrite E. reflexivity.
  - destruct (gensym (Some b) g) as [[key g']|]; [|discriminate].
    intros H. injection H as <- <- <-.
    rewrite (@find_after_setitem_any m v key E). reflexivity.
Qed.
End IdentityFacts.

Lemma macro_eqb_refl (f : macro) : macro_eqb f f = true.
Proof. destruct f; try reflexivity. apply String.eqb_refl. Qed.

Lemma macro_eqb_eq (f g : macro) : macro_eqb f g = true -> f = g.
Proof.
  destruct f, g; try discriminate; try reflexivity.
  cbn [macro_eqb]. intros H. apply String.eqb_eq in H. subst. reflexivity.
Qed.

Lemma astify_CaptureLater_Name (e : expander) (fb : list (string * value))
  (name : value) (macroname : string) (st : estate) :
  getattr fb "id" = Ok (VStr macroname) ->
  astify (Some e) (mk_CaptureLater (VNode (AstClass "Name") fb) name) st =
  match dict_getitem macroname (bindings e) with
  | Some function =>
      bind (capture_macro function macroname)
           (fun uniquename =>
              ret (lifted_node "Name"
                     [ast_keyword "id" (ast_Constant (VStr uniquename))])) st
  | None =>
      Some (Ok (ast_Call (_mcpy_quotes_attr "capture")
                         [VNode (AstClass "Name") fb; ast_Constant name] []), st)
  end.
Proof.
  intros Hid. unfold mk_CaptureLater. cbn [astify].
  change (is_marker_class (MarkerClass CaptureLater) ASTLiteral) with false.
  change (is_marker_class (MarkerClass CaptureLater) CaptureLater) with true.
  cbv iota. cbn [getattr String.eqb Ascii.eqb Bool.eqb].
  unfold bind at 1, lift at 1. cbn [is_class String.eqb Ascii.eqb Bool.eqb].
  rewrite Hid. unfold bind at 1, lift at 1. unfold bind at 1, lift at 1.
  cbn [ismacroname].
  destruct (dict_getitem macroname (bindings e)); reflexivity.
Qed.

(** X8. [astify], given an expander, of a [CaptureLater] around the name of
    a macro bound in the expander: the macro function is stored in
    [_hygienic_bindings] under a unique name, the tree returned rebuilds a
    [Name] with that unique name as its [id], and the same call again
    returns the same tree and stores nothing more. When the name is not
    bound to a macro, nothing is stored and the tree returned is the call
    of [mcpy.quotes.capture], for the use site to run. *)
Theorem astify_captures_macro_names :
  forall (e : expander) (fb : list (string * value)) (name : value)
         (macroname : string) (st : estate),
    getattr fb "id" = Ok (VStr macroname) ->
    NoDup (map fst (_hygienic_bindings st)) ->
    (forall function t st1,
        dict_getitem macroname (bindings e) = Some function ->
        astify (Some e) (mk_CaptureLater (VNode (AstClass "Name") fb) name) st
        = Some (Ok t, st1) ->
        exists uniquename,
          t = lifted_node "Name"
                [ast_keyword "id" (ast_Constant (VStr uniquename))] /\
          dict_getitem uniquename (_hygienic_bindings st1) = Some function /\
          astify (Some e) (mk_CaptureLater (VNode (AstClass "Name") fb) name) st1
          = Some (Ok t, st1)) /\
    (dict_getitem macroname (bindings e) = None ->
     astify (Some e) (mk_CaptureLater (VNode (AstClass "Name") fb) name) st
     = Some (Ok (ast_Call (_mcpy_quotes_attr "capture")
                          [VNode (AstClass "Name") fb; ast_Constant name] []),
             st)).
Proof.
  intros e fb name macroname st Hid Hnd. split.
  - intros function t st1 Hf.
    rewrite (@astify_CaptureLater_Name e fb name macroname st Hid), Hf.
    unfold bind, capture_macro.
    destruct (_capture_into macro_eqb (_hygienic_bindings st) function macroname
                (gensyms st)) as [[[key m] g]|] eqn:E; [|discriminate].
    unfold ret. intros H. injection H as <- <-.
    exists key. split; [reflexivity|]. cbn [_hygienic_bindings gensyms]. split.
    + destruct (@capture_into_getitem macro macro_eqb _ _ _ _ _ _ _
                  macro_eqb_refl Hnd E) as (x & Hget & Hx).
      apply macro_eqb_eq in Hx. subst x. exact Hget.
    + rewrite (@astify_CaptureLater_Name e fb name macroname _ Hid), Hf.
      unfold bind, capture_macro. cbn [_hygienic_bindings gensyms].
      rewrite (@capture_into_again_any macro macro_eqb macro_eqb_refl
                 _ _ _ _ _ _ macroname _ E).
      reflexivity.
  - intros Hf.
    rewrite (@astify_CaptureLater_Name e fb name macroname st Hid), Hf.
    reflexivity.
Qed.

Lemma astify_captures_macro_names_witness :
  exists uniquename st1,
    astify (Some sample_expander)
           (mk_CaptureLater (ast_Name_Load "q") (VStr "q")) fresh_state
    = Some (Ok (lifted_node "Name"
                  [ast_keyword "id" (ast_Constant (VStr uniquename))]), st1) /\
    dict_getitem uniquename (_hygienic_bindings st1) = Some Mq.
Proof.
  destruct (proj1 (@astify_captures_macro_names sample_expander
                     [("id", VStr "q"); ("ctx", ast_Load)]%string (VStr "q")
                     "q" fresh_state eq_refl (NoDup_nil _))
                  Mq _ _ eq_refl eq_refl)
    as (uniquename & Ht & Hget & _).
  exists uniquename. eexists. split; [|exact Hget].
  rewrite <- Ht. reflexivity.
Defined.

(** ** quotes.py: the operators *)

Lemma set_quotelevel_same (st : estate) : set_quotelevel (_quotelevel st) st = st.
Proof. destruct st. reflexivity. Qed.

Lemma set_quotelevel_twice (tr tr' : NestingLevelTracker.t) (st : estate) :
  set_quotelevel tr (set_quotelevel tr' st) = set_quotelevel tr st.
Proof. reflexivity. Qed.

(** A block that has no effect on the state, run under
    [with _quotelevel.changed_by(delta)] at an accepted level. *)
Lemma quotelevel_changed_by_runs A (delta v : Z) (rest : list Z)
  (body : comp estate A) (r : result A) (st : estate) :
  _quotelevel st = v :: rest -> 0 <= v + delta ->
  body (set_quotelevel ((v + delta) :: v :: rest) st)
  = Some (r, set_quotelevel ((v + delta) :: v :: rest) st) ->
  quotelevel_changed_by delta body st = Some (r, st).
Proof.
  intros Hst Hlevel Hbody. unfold quotelevel_changed_by.
  rewrite (@changed_by_eq estate _quotelevel set_quotelevel A delta v rest body st Hst).
  rewrite (@set_to_runs estate _quotelevel set_quotelevel A (v + delta) v rest
             body st _ r Hlevel Hst Hbody eq_refl).
  rewrite set_quotelevel_twice, <- Hst, set_quotelevel_same. reflexivity.
Qed.

Lemma unquote_checks_pass (name : string) (v : Z) (rest : list Z) (st : estate) :
  _quotelevel st = v :: rest -> 1 <= v ->
  unquote_checks name "expr" st = Some (Ok tt, st).
Proof.
  intros Hst Hv. unfold unquote_checks. cbn [String.eqb Ascii.eqb Bool.eqb negb].
  unfold bind, quotelevel_value. rewrite Hst. cbn [NestingLevelTracker._get_value].
  destruct (Z.ltb_spec v 1) as [H|_]; [lia|]. reflexivity.
Qed.

(** X9. At a level of 1 or more, [a], called as an expression macro,
    returns the tree it was given inside an [ASTLiteral] and leaves the
    state as it was; and [astify] of that marker, with or without an
    expander, is the tree itself, unchanged. *)
Theorem a_splices_the_tree_as_it_is :
  forall (tree : value) (e : option expander) (st st0 : estate) (v : Z)
         (rest : list Z),
    _quotelevel st = v :: rest -> 1 <= v ->
    a tree "expr" st = Some (Ok (mk_ASTLiteral tree), st) /\
    astify e (mk_ASTLiteral tree) st0 = Some (Ok tree, st0).
Proof.
  intros tree e st st0 v rest Hst Hv. split; [|reflexivity].
  unfold a, bind at 1. rewrite (@unquote_checks_pass "a" v rest st Hst Hv).
  apply quotelevel_changed_by_runs with (v := v) (rest := rest);
    [exact Hst|lia|reflexivity].
Qed.

Lemma a_splices_the_tree_as_it_is_witness :
  a (ast_Name_Load "x") "expr" (set_quotelevel [1; 0] fresh_state)
  = Some (Ok (mk_ASTLiteral (ast_Name_Load "x")), set_quotelevel [1; 0] fresh_state) /\
  astify None (mk_ASTLiteral (ast_Name_Load "x")) fresh_state
  = Some (Ok (ast_Name_Load "x"), fresh_state).
Proof.
  apply (@a_splices_the_tree_as_it_is (ast_Name_Load "x") None
           (set_quotelevel [1; 0] fresh_state) fresh_state 1 [0] eq_refl).
  lia.
Defined.

Lemma subseqb_single (k : string) (fs : list string) :
  In k fs -> subseqb [k] fs = true.
Proof.
  induction fs as [|f fs IH]; intros Hin; [destruct Hin|].
  cbn [subseqb]. destruct (String.eqb_spec k f) as [->|Hne].
  - destruct fs; reflexivity.
  - destruct Hin as [->|Hin]; [contradiction Hne; reflexivity|].
    apply IH. exact Hin.
Qed.

(** What [unastify] makes of a call with one keyword argument. *)
Lemma unastify_call_with_keyword (env : pyenv) (func tree val : value)
  (name k : string) (callee : callable) :
  attr_ast_to_dotted_name func = Ok name ->
  lookup_thing env name = Ok callee ->
  unastify env tree = Ok val ->
  unastify env (ast_Call func [] [ast_keyword k tree]) = callee [] [(k, val)].
Proof.
  intros Hname Hcallee Htree. unfold ast_Call. rewrite unastify_Call.
  cbn [getattr String.eqb Ascii.eqb Bool.eqb]. rewrite Hname, Hcallee.
  rewrite !with_attr_getattr. cbn [getattr String.eqb Ascii.eqb Bool.eqb].
  unfold ast_keyword.
  cbn [unastify map sequence String.eqb Ascii.eqb Bool.eqb getattr].
  rewrite with_attr_getattr. cbn [getattr String.eqb Ascii.eqb Bool.eqb].
  rewrite Htree. reflexivity.
Qed.

Lemma construct_node_one_field (c k : string) (fs : list string) (v : value) :
  NoDup fs -> In k fs ->
  construct_node c fs [] [(k, v)] = Ok (VNode (AstClass c) [(k, v)]).
Proof.
  intros Hnd Hin. apply construct_node_rebuilds; [exact Hnd|].
  apply subseqb_single. exact Hin.
Qed.

(** X10. At a level of 1 or more, [n] and [s], called as expression
    macros, leave the state as it was and return an [ASTLiteral] around a
    constructor call: when [unastify] takes the argument [tree] to a value,
    it takes the call that [n] built to the node [Name(id=value)], and the
    call that [s] built to the node [List(elts=value)]. *)
Theorem n_and_s_build_name_and_list :
  forall (env : pyenv) (tree val : value) (st : estate) (v : Z)
         (rest : list Z) (name_fields list_fields : list string),
    _quotelevel st = v :: rest -> 1 <= v ->
    unastify env tree = Ok val ->
    ast_fields env "Name" = Some name_fields ->
    NoDup name_fields -> In "id"%string name_fields ->
    ast_fields env "List" = Some list_fields ->
    NoDup list_fields -> In "elts"%string list_fields ->
    (exists call,
        n tree "expr" st = Some (Ok (mk_ASTLiteral call), st) /\
        unastify env call = Ok (VNode (AstClass "Name") [("id", val)]%string)) /\
    (exists call,
        s tree "expr" st = Some (Ok (mk_ASTLiteral call), st) /\
        unastify env call = Ok (VNode (AstClass "List") [("elts", val)]%string)).
Proof.
  intros env tree val st v rest nfs lfs Hst Hv Htree HN HNnd HNid HL HLnd HLelts.
  split.
  - exists (lifted_node "Name" [ast_keyword "id" tree]). split.
    + unfold n, bind at 1. rewrite (@unquote_checks_pass "n" v rest st Hst Hv).
      apply quotelevel_changed_by_runs with (v := v) (rest := rest);
        [exact Hst|lia|reflexivity].
    + unfold lifted_node.
      rewrite (@unastify_call_with_keyword env
                 (ast_Attribute_Load (_mcpy_quotes_attr "ast") "Name") tree val
                 "mcpy.quotes.ast.Name" "id" (construct_node "Name" nfs)
                 eq_refl (@lookup_thing_node_class env "Name" nfs eq_refl HN) Htree).
      apply construct_node_one_field; assumption.
  - eexists. split.
    + unfold s, bind at 1. rewrite (@unquote_checks_pass "s" v rest st Hst Hv). reflexivity.
    + rewrite (@unastify_call_with_keyword env
                 (VNode (AstClass "Attribute")
                    [("value", _mcpy_quotes_attr "ast"); ("attr", VStr "List")]%string)
                 tree val "mcpy.quotes.ast.List" "elts" (construct_node "List" lfs)
                 eq_refl (@lookup_thing_node_class env "List" lfs eq_refl HL) Htree).
      apply construct_node_one_field; assumption.
Qed.

Lemma n_and_s_build_name_and_list_witness :
  (exists call,
      n (ast_Constant (VStr "x")) "expr" (set_quotelevel [1; 0] fresh_state)
      = Some (Ok (mk_ASTLiteral call), set_quotelevel [1; 0] fresh_state) /\
      unastify sample_env call
      = Ok (VNode (AstClass "Name") [("id", VStr "x")]%string)) /\
  (exists call,
      s (ast_Constant (VStr "x")) "expr" (set_quotelevel [1; 0] fresh_state)
      = Some (Ok (mk_ASTLiteral call), set_quotelevel [1; 0] fresh_state) /\
      unastify sample_env call
      = Ok (VNode (AstClass "List") [("elts", VStr "x")]%string)).
Proof.
  apply (@n_and_s_build_name_and_list sample_env (ast_Constant (VStr "x"))
           (VStr "x") (set_quotelevel [1; 0] fresh_state) 1 [0]
           ["id"; "ctx"]%string ["elts"; "ctx"]%string eq_refl);
    try reflexivity; try lia;
    try (repeat constructor; cbn; intuition discriminate);
    cbn; tauto.
Defined.

Lemma match_Name_string {A} (name : string) (x y : A) :
  match name with "Name"%string => x | _ => y end =
  if String.eqb name "Name" then x else y.
Proof.
  do 4 (destruct name as [|[[] [] [] [] [] [] [] []] name]; try reflexivity).
  destruct name; reflexivity.
Qed.

Lemma match_Name {A} (target : value) (x y : A) :
  match target with VNode (AstClass "Name") _ => x | _ => y end =
  match target with
  | VNode c _ => if is_class c "Name" then x else y
  | _ => y
  end.
Proof.
  destruct target as [?|?|?|?|?| |?|?|?|?|c f|?]; try reflexivity.
  destruct c as [name|chain]; [|reflexivity].
  cbn [is_class]. apply match_Name_string.
Qed.

Section TrackerInversion.
Import NestingLevelTracker.
Variable S : Type.
Variable get : S -> t.
Variable put : t -> S -> S.

Lemma set_to_Ok_inv A (v : value) (body : comp S A) (s s' : S) (a : A) :
  set_to get put v body s = Some (Ok a, s') ->
  exists z s1, int_of_atom v = Some z /\
               body (put (z :: get s) s) = Some (Ok a, s1).
Proof.
  unfold set_to. destruct (int_of_atom v) as [z|]; [|discriminate].
  destruct (z <? 0); [discriminate|].
  destruct (body (put (z :: get s) s)) as [[r s1]|] eqn:E; [|discriminate].
  destruct (get s1) as [|x rest]; [discriminate|].
  destruct rest; [discriminate|].
  intros H. injection H as -> _. exists z, s1. split; [reflexivity|exact E].
Qed.

Lemma changed_by_Ok_inv A (d : Z) (body : comp S A) (s s' : S) (a : A) :
  changed_by get put d body s = Some (Ok a, s') ->
  exists v s1, _get_value (get s) = Ok v /\
               body (put ((v + d) :: get s) s) = Some (Ok a, s1).
Proof.
  unfold changed_by. destruct (_get_value (get s)) as [v|e]; [|discriminate].
  intros H. apply set_to_Ok_inv in H. destruct H as (z & s1 & Hz & H).
  cbn [int_of_atom] in Hz. injection Hz as <-.
  exists v, s1. split; [reflexivity|exact H].
Qed.
End TrackerInversion.

(** X11. What [q] returns satisfies its postcondition, whatever the
    expander does: in expression mode the tree returned holds no
    [QuasiquoteMarker]; in block mode [optional_vars] was a [Name] and the
    tree returned is the assignment of a tree without [QuasiquoteMarker]s to
    it. In any other case [q] does not return a tree. *)
Theorem q_returns_only_marker_free_trees :
  forall (env : pyenv) (walk : expander -> value -> comp estate value)
         (tree : value) (syntax : string) (e : expander)
         (optional_vars : option value) (st st' : estate) (t : value),
    q env walk tree syntax e optional_vars st = Some (Ok t, st') ->
    (syntax = "expr"%string /\ get_markers QuasiquoteMarker t = Ok []) \/
    (syntax = "block"%string /\
     exists target_fields quoted,
       optional_vars = Some (VNode (AstClass "Name") target_fields) /\
       t = VNode (AstClass "Assign")
                 [("targets", VList [VNode (AstClass "Name") target_fields]);
                  ("value", quoted)]%string /\
       get_markers QuasiquoteMarker quoted = Ok []).
Proof.
  intros env walk tree syntax e ov st st' t. unfold q.
  destruct (str_in syntax ["expr"; "block"]%string) eqn:Hsyntax;
    cbn [negb]; [|discriminate].
  apply str_in_In in Hsyntax.
  intros H. unfold quotelevel_changed_by in H.
  apply changed_by_Ok_inv in H. destruct H as (v & s1 & _ & H).
  apply bind_Ok_inv in H. destruct H as (expanded & s2 & _ & H).
  apply bind_Ok_inv in H. destruct H as (quoted & s3 & _ & H).
  apply bind_Ok_inv in H. destruct H as (ps & s4 & Hps & H).
  apply lift_Ok_inv in Hps. destruct Hps as [Hps ->].
  destruct ps as [|p ps]; [|discriminate].
  destruct (String.eqb_spec syntax "block") as [->|Hne].
  - right. split; [reflexivity|].
    destruct ov as [target|]; [|discriminate].
    rewrite match_Name in H.
    destruct target as [?|?|?|?|?| |?|?|?|?|c f|?]; try discriminate.
    destruct (is_class c "Name") eqn:Hc; [|discriminate].
    apply is_class_eq in Hc. subst c.
    apply ret_Ok_inv in H. destruct H as [-> _].
    exists f, quoted. repeat split. exact Hps.
  - left. destruct Hsyntax as [<-|[<-|[]]]; [|contradiction Hne; reflexivity].
    split; [reflexivity|].
    apply ret_Ok_inv in H. destruct H as [-> _]. exact Hps.
Qed.

Lemma q_returns_only_marker_free_trees_witness :
  exists t st',
    q sample_env (expander_visit sample_env 20) (invoke "a" (ast_Name_Load "x"))
      "expr" sample_expander None fresh_state = Some (Ok t, st') /\
    get_markers QuasiquoteMarker t = Ok [].
Proof.
  eexists. eexists. split; [reflexivity|].
  destruct (@q_returns_only_marker_free_trees sample_env
              (expander_visit sample_env 20) (invoke "a" (ast_Name_Load "x"))
              "expr" sample_expander None fresh_state _ _ eq_refl)
    as [[_ H]|[H _]]; [exact H|discriminate H].
Defined.

(** ** quotes.py: the helpers of unastify *)

Lemma dotted_name_ast_snoc (root attr : string) (attrs : list string) :
  dotted_name_ast root (attrs ++ [attr])
  = ast_Attribute_Load (dotted_name_ast root attrs) attr.
Proof. unfold dotted_name_ast. rewrite fold_left_app. reflexivity. Qed.

Lemma dotted_acc_chain (root attr : string) (attrs : list string) :
  dotted_acc (dotted_name_ast root (attrs ++ [attr]))
  = Ok (map VStr (attr :: rev attrs ++ [root])).
Proof.
  revert attr. induction attrs as [|a attrs IH] using rev_ind; intros attr.
  - reflexivity.
  - rewrite dotted_name_ast_snoc. unfold ast_Attribute_Load at 1.
    rewrite dotted_acc_eq. cbn [getattr String.eqb Ascii.eqb Bool.eqb].
    rewrite with_attr_getattr. cbn [getattr String.eqb Ascii.eqb Bool.eqb].
    rewrite dotted_name_ast_snoc. unfold ast_Attribute_Load at 1.
    cbn [is_class String.eqb Ascii.eqb Bool.eqb].
    change (VNode (AstClass "Attribute")
              [("value", dotted_name_ast root attrs); ("attr", VStr a);
               ("ctx", ast_Load)]%string)
      with (ast_Attribute_Load (dotted_name_ast root attrs) a).
    rewrite <- dotted_name_ast_snoc, IH, rev_app_distr. reflexivity.
Qed.

Lemma strs_of_map (l : list string) : strs_of (map VStr l) = Ok l.
Proof.
  induction l as [|x l IH]; cbn [map strs_of]; [reflexivity|].
  rewrite IH. reflexivity.
Qed.

(** X12. For the tree of a dotted name [root.a1. ... .an], with one
    attribute at least, [attr_ast_to_dotted_name] returns the names joined
    by dots, in the order in which they are written. *)
Theorem dotted_name_of_attribute_chain :
  forall (root attr : string) (attrs : list string),
    attr_ast_to_dotted_name (dotted_name_ast root (attr :: attrs))
    = Ok (join "." (root :: attr :: attrs)) /\
    _mcpy_quotes_attr attr = dotted_name_ast "mcpy" ["quotes"; attr]%string.
Proof.
  intros root attr attrs. split; [|reflexivity].
  destruct (@exists_last _ (attr :: attrs)) as (front & final & Heq);
    [discriminate|].
  rewrite Heq. unfold attr_ast_to_dotted_name.
  rewrite dotted_acc_chain.
  rewrite dotted_name_ast_snoc. unfold ast_Attribute_Load at 1.
  cbn [is_class String.eqb Ascii.eqb Bool.eqb].
  rewrite <- map_rev, strs_of_map.
  cbn [rev]. rewrite rev_app_distr, rev_involutive. reflexivity.
Qed.

Lemma string_app_assoc (a b c : string) :
  ((a ++ b) ++ c)%string = (a ++ b ++ c)%string.
Proof.
  induction a as [|ch a IH]; cbn [String.append]; [reflexivity|].
  rewrite IH. reflexivity.
Qed.

Lemma no_dot_app (a b : string) :
  no_dot a = true -> no_dot b = true -> no_dot (a ++ b) = true.
Proof.
  induction a as [|ch a IH]; cbn [String.append no_dot]; [intros _ H; exact H|].
  intros H Hb. apply andb_prop in H. destruct H as [-> Ha]. cbn [andb].
  apply IH; assumption.
Qed.

(** X13. [lookup_thing] checks the module part of a dotted name by its
    prefix only: whatever text without a dot follows [mcpy.quotes], the name
    [mcpy.quotes<text>.ast.<Class>] resolves to the node class [Class] of
    the [ast] module, as [mcpy.quotes.ast.<Class>] does. *)
Theorem lookup_thing_checks_a_prefix_only :
  forall (env : pyenv) (text c : string) (fs : list string),
    no_dot text = true -> no_dot c = true ->
    ast_fields env c = Some fs ->
    lookup_thing env ("mcpy.quotes" ++ text ++ ".ast." ++ c)
    = Ok (construct_node c fs) /\
    lookup_thing env ("mcpy.quotes.ast." ++ c) = Ok (construct_node c fs).
Proof.
  intros env text c fs Htext Hc Hfs. split;
    [|apply lookup_thing_node_class; assumption].
  unfold lookup_thing.
  change (String.prefix "mcpy.quotes" ("mcpy.quotes" ++ text ++ ".ast." ++ c))
    with (String.prefix "" (text ++ ".ast." ++ c)).
  assert (Hp : forall x, String.prefix "" x = true) by (intros []; reflexivity).
  rewrite Hp. cbn [negb].
  change ("mcpy.quotes" ++ text ++ ".ast." ++ c)%string
    with ("mcpy" ++ String "." ("quotes" ++ text ++ ".ast." ++ c))%string.
  rewrite split_on_component by reflexivity.
  change (".ast." ++ c)%string with (String "." ("ast" ++ String "." c))%string.
  rewrite <- string_app_assoc.
  rewrite split_on_component by (apply no_dot_app; [reflexivity|exact Htext]).
  rewrite split_on_component by reflexivity.
  rewrite (split_on_no_dot _ Hc).
  cbn [List.length Nat.ltb Nat.leb skipn]. rewrite Hfs. reflexivity.
Qed.

Lemma lookup_thing_checks_a_prefix_only_witness :
  lookup_thing sample_env "mcpy.quotesque.ast.Name"
  = Ok (construct_node "Name" ["id"; "ctx"]%string).
Proof.
  exact (proj1 (@lookup_thing_checks_a_prefix_only sample_env "que" "Name"
                  ["id"; "ctx"]%string eq_refl eq_refl eq_refl)).
Defined.

(** ** markers.py *)

Lemma is_prefix_refl (l : list string) : is_prefix l l = true.
Proof.
  induction l as [|x l IH]; cbn [is_prefix]; [reflexivity|].
  rewrite String.eqb_refl. exact IH.
Qed.

Lemma is_prefix_trans (a b c : list string) :
  is_prefix a b = true -> is_prefix b c = true -> is_prefix a c = true.
Proof.
  revert b c. induction a as [|x a IH]; intros b c; [reflexivity|].
  destruct b as [|y b]; [discriminate|]. destruct c as [|z c]; [discriminate|].
  cbn [is_prefix]. intros H1 H2.
  apply andb_prop in H1. destruct H1 as [Hxy Hab].
  apply andb_prop in H2. destruct H2 as [Hyz Hbc].
  apply String.eqb_eq in Hxy. apply String.eqb_eq in Hyz. subst.
  rewrite String.eqb_refl. cbn [andb]. eapply IH; eassumption.
Qed.

Lemma isinstance_marker_base (base cls : list string) (m : value) :
  is_prefix base cls = true ->
  isinstance_marker m cls = true -> isinstance_marker m base = true.
Proof.
  intros Hp. destruct m as [?|?|?|?|?| |?|?|?|?|c f|?]; try discriminate.
  destruct c as [?|chain]; [discriminate|]. cbn [isinstance_marker].
  apply is_prefix_trans. exact Hp.
Qed.

Lemma filter_flat_map {A B} (p : B -> bool) (f : A -> list B) (l : list A) :
  filter p (flat_map f l) = flat_map (fun a => filter p (f a)) l.
Proof.
  induction l as [|a l IH]; cbn [flat_map]; [reflexivity|].
  rewrite filter_app, IH. reflexivity.
Qed.

Lemma found_by_class (base cls : list string) (v : value) :
  is_prefix base cls = true ->
  found_in_field cls v
  = filter (fun m => isinstance_marker m cls) (found_in_field base v).
Proof.
  intros Hp.
  induction v as [z|b|str|b|b| |l IH|l IH|l IH|items IH|c fields IH|n]
    using value_ind; try reflexivity.
  - cbn [found_in_field]. rewrite filter_flat_map.
    apply flat_map_ext_in. intros item Hin.
    rewrite Forall_forall in IH. specialize (IH item Hin).
    destruct item; try reflexivity. exact IH.
  - cbn [found_in_field]. rewrite !examine_markers_node, filter_app, filter_flat_map.
    f_equal.
    + destruct (isinstance_marker (VNode c fields) cls) eqn:Hc.
      * rewrite (@isinstance_marker_base base cls _ Hp Hc). cbn [filter]. rewrite Hc.
        reflexivity.
      * destruct (isinstance_marker (VNode c fields) base); [|reflexivity].
        cbn [filter]. rewrite Hc. reflexivity.
    + apply flat_map_ext_in. intros fv Hin.
      rewrite Forall_forall in IH. exact (IH fv Hin).
Qed.

Lemma get_markers_by_base (base cls : list string) (tree : value) :
  is_prefix base cls = true ->
  get_markers cls tree =
  match get_markers base tree with
  | Ok found => Ok (filter (fun m => isinstance_marker m cls) found)
  | Err e => Err e
  end.
Proof.
  intros Hp.
  induction tree as [z|b|str|b|b| |l IH|l IH|l IH|items IH|c fields IH|n]
    using value_ind; try reflexivity.
  - cbn [get_markers].
    assert (Hseq : sequence (map (get_markers cls) l) =
                   match sequence (map (get_markers base) l) with
                   | Ok founds =>
                       Ok (map (filter (fun m => isinstance_marker m cls)) founds)
                   | Err e => Err e
                   end).
    { induction IH as [|x l Hx _ IHl]; [reflexivity|].
      cbn [map sequence]. rewrite Hx, IHl.
      destruct (get_markers base x); [|reflexivity].
      destruct (sequence (map (get_markers base) l)); reflexivity. }
    rewrite Hseq. destruct (sequence (map (get_markers base) l)) as [founds|e];
      [|reflexivity].
    f_equal. clear. induction founds as [|f founds IH]; [reflexivity|].
    cbn [map List.concat]. rewrite filter_app, IH. reflexivity.
  - cbn [get_markers]. f_equal.
    exact (@found_by_class base cls (VNode c fields) Hp).
Qed.

Lemma filter_Forall {A} (p : A -> bool) (l : list A) :
  Forall (fun x => p x = true) (filter p l).
Proof.
  induction l as [|x l IH]; cbn [filter]; [constructor|].
  destruct (p x) eqn:E; [constructor; assumption|exact IH].
Qed.

(** X14. [get_markers(tree, cls)] returns instances of [cls] only; and for
    a class [base] from which [cls] derives (or [cls] itself), what it
    returns for [cls] is what it returns for [base], in the same order, with
    the instances of [cls] kept and the others left out. It raises for [cls]
    exactly when it raises for [base]. *)
Theorem get_markers_selects_by_class :
  forall (base cls : list string) (tree : value),
    (forall found,
        get_markers cls tree = Ok found ->
        Forall (fun m => isinstance_marker m cls = true) found) /\
    (is_prefix base cls = true ->
     get_markers cls tree =
     match get_markers base tree with
     | Ok found => Ok (filter (fun m => isinstance_marker m cls) found)
     | Err e => Err e
     end).
Proof.
  intros base cls tree. split.
  - intros found H.
    pose proof (@get_markers_by_base cls cls tree (is_prefix_refl cls)) as Hb.
    rewrite H in Hb. injection Hb as Hb. rewrite Hb. apply filter_Forall.
  - apply get_markers_by_base.
Qed.

(** X15. [check_no_markers_remaining] passes exactly when [get_markers]
    finds no [ASTMarker]; and then [get_markers] finds no instance of any
    marker class in the tree. When a marker is found, what is raised is a
    [MacroExpansionError]. *)
Theorem check_no_markers_covers_every_class :
  forall (tree : value) (filename : string),
    (check_no_markers_remaining tree filename = Ok tt <->
     get_markers ASTMarker tree = Ok []) /\
    (check_no_markers_remaining tree filename = Ok tt ->
     forall cls, get_markers cls tree = Ok []) /\
    (forall m found,
        get_markers ASTMarker tree = Ok (m :: found) ->
        exists msg,
          check_no_markers_remaining tree filename
          = Err (Exn MacroExpansionError msg None)).
Proof.
  intros tree filename.
  assert (Hiff : check_no_markers_remaining tree filename = Ok tt <->
                 get_markers ASTMarker tree = Ok []).
  { unfold check_no_markers_remaining.
    destruct (get_markers ASTMarker tree) as [[|m found]|e]; split;
      intros H; try reflexivity; discriminate. }
  split; [exact Hiff|]. split.
  - intros H cls. apply Hiff in H.
    rewrite (@get_markers_by_base ASTMarker cls tree eq_refl), H. reflexivity.
  - intros m found H. unfold check_no_markers_remaining. rewrite H.
    eexists. reflexivity.
Qed.

Lemma flat_map_eq_nil {A B} (f : A -> list B) (l : list A) :
  flat_map f l = [] -> Forall (fun a => f a = []) l.
Proof.
  induction l as [|a l IH]; cbn [flat_map]; [constructor|].
  intros H. apply app_eq_nil in H. destruct H as [Ha Hl].
  constructor; [exact Ha|apply IH; exact Hl].
Qed.

Lemma visit_fields_cons (visit : value -> result value) (name : string)
  (old_value : value) (rest : list (string * value)) :
  visit_fields visit ((name, old_value) :: rest) =
  match
    match old_value with
    | VList items =>
        match
          sequence
            (map (fun item =>
                    match item with
                    | VNode _ _ =>
                        match visit item with
                        | Ok VNone => Ok []
                        | Ok (VNode c f) => Ok [VNode c f]
                        | Ok other =>
                            match py_iter other with
                            | Ok l => Ok l
                            | Err e => Err e
                            end
                        | Err e => Err e
                        end
                    | _ => Ok [item]
                    end) items)
        with
        | Ok new_values => Ok [(name, VList (List.concat new_values))]
        | Err e => Err e
        end
    | VNode _ _ =>
        match visit old_value with
        | Ok VNone => Ok []
        | Ok new_node => Ok [(name, new_node)]
        | Err e => Err e
        end
    | _ => Ok [(name, old_value)]
    end
  with
  | Err e => Err e
  | Ok field =>
      match visit_fields visit rest with
      | Ok rest' => Ok (field ++ rest')
      | Err e => Err e
      end
  end.
Proof. reflexivity. Qed.

Lemma visit_items_kept (cls : list string) (items : list value) :
  Forall (fun item => match item with
                      | VNode _ _ => transform_markers cls item = Ok item
                      | _ => True
                      end) items ->
  sequence
    (map (fun item =>
            match item with
            | VNode _ _ =>
                match transform_markers cls item with
                | Ok VNone => Ok []
                | Ok (VNode c f) => Ok [VNode c f]
                | Ok other =>
                    match py_iter other with
                    | Ok l => Ok l
                    | Err e => Err e
                    end
                | Err e => Err e
                end
            | _ => Ok [item]
            end) items)
  = Ok (map (fun item => [item]) items).
Proof.
  induction 1 as [|item items Hitem _ IH]; [reflexivity|].
  cbn [map sequence]. rewrite IH.
  destruct item; try reflexivity. rewrite Hitem. reflexivity.
Qed.

Lemma concat_singletons {A} (l : list A) :
  List.concat (map (fun x => [x]) l) = l.
Proof.
  induction l as [|x l IH]; [reflexivity|].
  cbn [map List.concat app]. rewrite IH. reflexivity.
Qed.

Lemma visit_fields_kept (cls : list string) (fields : list (string * value)) :
  Forall (fun fv => kept_as_is cls (snd fv)) fields ->
  flat_map (fun fv => found_in_field cls (snd fv)) fields = [] ->
  visit_fields (transform_markers cls) fields = Ok fields.
Proof.
  induction 1 as [|[name old] fields Hold _ IH]; [reflexivity|].
  cbn [flat_map snd]. intros Hnil. apply app_eq_nil in Hnil.
  destruct Hnil as [Hhere Hrest].
  rewrite visit_fields_cons, (IH Hrest).
  specialize (Hold Hhere). cbn [snd] in Hold.
  destruct old; try reflexivity.
  - rewrite (@visit_items_kept cls _ Hold), concat_singletons. reflexivity.
  - rewrite Hold. reflexivity.
Qed.

Lemma transform_markers_kept (cls : list string) (v : value) :
  kept_as_is cls v.
Proof.
  induction v as [z|b|str|b|b| |l IH|l IH|l IH|items IH|c fields IH|n]
    using value_ind; unfold kept_as_is; try (intros _; exact I).
  - cbn [found_in_field]. intros Hnil. apply flat_map_eq_nil in Hnil.
    rewrite Forall_forall in *. intros item Hin.
    specialize (IH item Hin). specialize (Hnil item Hin).
    destruct item; try exact I. apply IH. exact Hnil.
  - cbn [found_in_field]. rewrite examine_markers_node. intros Hnil.
    apply app_eq_nil in Hnil. destruct Hnil as [Hroot Hfields].
    cbn [transform_markers].
    destruct (isinstance_marker (VNode c fields) cls); [discriminate|].
    rewrite (@visit_fields_kept cls fields IH Hfields). reflexivity.
Qed.

(** X16. [delete_markers] returns a node in which [get_markers] finds no
    instance of [cls] as it is: nothing is rebuilt, dropped or reordered. *)
Theorem delete_markers_keeps_marker_free_tree :
  forall (cls : list string) (c : pyclass) (fields : list (string * value)),
    get_markers cls (VNode c fields) = Ok [] ->
    delete_markers cls (VNode c fields) = Ok (VNode c fields).
Proof.
  intros cls c fields H. cbn [get_markers] in H. injection H as H.
  exact (@transform_markers_kept cls (VNode c fields) H).
Qed.

Lemma delete_markers_keeps_marker_free_tree_witness :
  delete_markers QuasiquoteMarker s_of_list_of_u = Ok s_of_list_of_u.
Proof.
  apply (@delete_markers_keeps_marker_free_tree QuasiquoteMarker). reflexivity.
Defined.

Lemma visit_items_cleaned (cls : list string) (items : list value) :
  Forall (fun item => match item with
                      | VNode _ _ => cleaned_node cls item
                      | _ => True
                      end) items ->
  forallb (fun item => match item with
                       | VNode _ _ => deletable cls item
                       | _ => true
                       end) items = true ->
  exists new_values,
    sequence
      (map (fun item =>
              match item with
              | VNode _ _ =>
                  match transform_markers cls item with
                  | Ok VNone => Ok []
                  | Ok (VNode c f) => Ok [VNode c f]
                  | Ok other =>
                      match py_iter other with
                      | Ok l => Ok l
                      | Err e => Err e
                      end
                  | Err e => Err e
                  end
              | _ => Ok [item]
              end) items)
    = Ok new_values /\
    flat_map (found_in_item cls) (List.concat new_values) = [].
Proof.
  induction 1 as [|item items Hitem _ IH]; cbn [forallb]; intros Hd.
  - exists []. split; reflexivity.
  - apply andb_prop in Hd. destruct Hd as [Hhere Hrest].
    destruct (IH Hrest) as (news & Hseq & Hnone).
    cbn [map sequence]. rewrite Hseq.
    destruct item as [?|?|?|?|?| |?|?|?|?|c f|?];
      try (eexists; split; [reflexivity|]; cbn [List.concat app flat_map];
           rewrite Hnone; reflexivity).
    destruct (Hitem Hhere) as (c' & f' & Ht & Hclean). rewrite Ht.
    eexists. split; [reflexivity|].
    cbn [List.concat app flat_map found_in_item]. rewrite Hclean, Hnone.
    reflexivity.
Qed.

Lemma visit_fields_cleaned (cls : list string) (fields : list (string * value)) :
  Forall (fun fv => cleaned cls (snd fv)) fields ->
  forallb
    (fun fv =>
       match snd fv with
       | VList items =>
           forallb (fun item => match item with
                                | VNode _ _ => deletable cls item
                                | _ => true
                                end) items
       | VNode _ _ => deletable cls (snd fv)
       | _ => true
       end) fields = true ->
  exists fields',
    visit_fields (transform_markers cls) fields = Ok fields' /\
    flat_map (fun fv => found_in_field cls (snd fv)) fields' = [].
Proof.
  induction 1 as [|[name old] fields Hold _ IH]; cbn [forallb snd]; intros Hd.
  - exists []. split; reflexivity.
  - apply andb_prop in Hd. destruct Hd as [Hhere Hrest].
    destruct (IH Hrest) as (rest' & Hvisit & Hnone).
    rewrite visit_fields_cons, Hvisit. cbn [snd] in Hold.
    destruct old as [?|?|?|?|?| |items|?|?|?|c f|?];
      try (eexists; split; [reflexivity|]; cbn [app flat_map snd found_in_field];
           exact Hnone).
    + destruct (@visit_items_cleaned cls items Hold Hhere) as (news & Hseq & Hitems).
      rewrite Hseq. eexists. split; [reflexivity|].
      cbn [app flat_map snd found_in_field]. rewrite Hitems, Hnone. reflexivity.
    + destruct (Hold Hhere) as (c' & f' & Ht & Hclean). rewrite Ht.
      eexists. split; [reflexivity|].
      cbn [app flat_map snd found_in_field]. rewrite Hclean, Hnone. reflexivity.
Qed.

Lemma transform_markers_plain_node (cls : list string) (c : pyclass)
  (fields : list (string * value)) :
  isinstance_marker (VNode c fields) cls = false ->
  transform_markers cls (VNode c fields) =
  match visit_fields (transform_markers cls) fields with
  | Ok fields' => Ok (VNode c fields')
  | Err e => Err e
  end.
Proof. intros H. cbn [transform_markers]. rewrite H. reflexivity. Qed.

Lemma transform_markers_marker (cls : list string) (c cb : pyclass)
  (fields fb : list (string * value)) :
  isinstance_marker (VNode c fields) cls = true ->
  getattr fields "body" = Ok (VNode cb fb) ->
  isinstance_marker (VNode cb fb) cls = false ->
  transform_markers cls (VNode c fields) = transform_markers cls (VNode cb fb).
Proof.
  intros Hc Hbody Hcb. rewrite (@transform_markers_plain_node cls cb fb Hcb).
  cbn [transform_markers]. rewrite Hc, with_attr_getattr, Hbody. reflexivity.
Qed.

Lemma transform_markers_cleaned (cls : list string) (v : value) :
  cleaned cls v.
Proof.
  induction v as [z|b|str|b|b| |l IH|l IH|l IH|items IH|c fields IH|n]
    using value_ind; try exact I.
  - cbn [cleaned]. eapply Forall_impl; [|exact IH].
    intros item Hitem. destruct item; try exact I. exact Hitem.
  - cbn [cleaned]. unfold cleaned_node. cbn [deletable]. intros Hd.
    apply andb_prop in Hd. destruct Hd as [Hroot Hfields].
    destruct (isinstance_marker (VNode c fields) cls) eqn:Hc.
    + destruct (getattr fields "body") as [body|] eqn:Hbody; [|discriminate].
      destruct body as [?|?|?|?|?| |?|?|?|?|cb fb|?]; try discriminate.
      apply negb_true_iff in Hroot.
      rewrite (@transform_markers_marker cls c cb fields fb Hc Hbody Hroot).
      pose proof (@getattr_In fields "body" _ Hbody) as Hin.
      rewrite Forall_forall in IH. specialize (IH _ Hin). cbn [snd cleaned] in IH.
      apply IH. rewrite forallb_forall in Hfields. exact (Hfields _ Hin).
    + rewrite (@transform_markers_plain_node cls c fields Hc).
      destruct (@visit_fields_cleaned cls fields IH Hfields) as (fields' & Hvisit & Hnone).
      rewrite Hvisit. exists c, fields'. split; [reflexivity|].
      rewrite examine_markers_node.
      change (isinstance_marker (VNode c fields') cls)
        with (isinstance_marker (VNode c fields) cls).
      rewrite Hc. exact Hnone.
Qed.

(** X17. When no instance of [cls] sits directly inside another, that is,
    when the body of every instance of [cls] in the tree is a node that is
    not an instance of [cls], [delete_markers] returns a node in which
    [get_markers] finds no instance of [cls]; and after deleting every
    [ASTMarker], [check_no_markers_remaining] passes. *)
Theorem delete_markers_deletes_unnested_markers :
  forall (cls : list string) (c : pyclass) (fields : list (string * value)),
    deletable cls (VNode c fields) = true ->
    exists c' fields',
      delete_markers cls (VNode c fields) = Ok (VNode c' fields') /\
      get_markers cls (VNode c' fields') = Ok [] /\
      (cls = ASTMarker ->
       forall filename,
         check_no_markers_remaining (VNode c' fields') filename = Ok tt).
Proof.
  intros cls c fields Hd.
  destruct (@transform_markers_cleaned cls (VNode c fields) Hd)
    as (c' & fields' & Ht & Hclean).
  exists c', fields'. split; [exact Ht|]. split.
  - cbn [get_markers]. rewrite Hclean. reflexivity.
  - intros -> filename. unfold check_no_markers_remaining.
    cbn [get_markers]. rewrite Hclean. reflexivity.
Qed.

Lemma delete_markers_deletes_unnested_markers_witness :
  exists c' fields',
    delete_markers ASTMarker
      (ast_elts "List"
         [mk_ASTLiteral (ast_Name_Load "x");
          mk_CaptureLater (ast_Name_Load "y") (VStr "y")])
    = Ok (VNode c' fields') /\
    get_markers ASTMarker (VNode c' fields') = Ok [] /\
    check_no_markers_remaining (VNode c' fields') "demo.py" = Ok tt.
Proof.
  destruct (@delete_markers_deletes_unnested_markers ASTMarker (AstClass "List")
              [("elts", VList [mk_ASTLiteral (ast_Name_Load "x");
                               mk_CaptureLater (ast_Name_Load "y") (VStr "y")])]%string
              eq_refl) as (c' & fields' & Hdel & Hget & Hcheck).
  exists c', fields'. split; [exact Hdel|]. split; [exact Hget|].
  apply Hcheck. reflexivity.
Defined.

(** ** visitors.py and the expander at work *)

Lemma mapC_same {S A B} (f : A -> comp S B) (g : A -> B) (l : list A) :
  (forall a, In a l -> forall st, f a st = Some (Ok (g a), st)) ->
  forall st, mapC f l st = Some (Ok (map g l), st).
Proof.
  induction l as [|a l IH]; intros Hf st; [reflexivity|].
  cbn [mapC map]. unfold bind at 1. rewrite (Hf a (or_introl eq_refl)).
  unfold bind at 1. rewrite IH; [reflexivity|].
  intros b Hb. apply Hf. right. exact Hb.
Qed.

Section SiteFree.
Variable bs : list (string * macro).
Variable fuel : nat.
Variable walk : value -> comp estate value.
Hypothesis walk_same :
  forall c f st,
    site_free bs (VNode c f) = true -> (depth (VNode c f) <= fuel)%nat ->
    walk (VNode c f) st = Some (Ok (VNode c f), st).

Lemma visit_item_same (item : value) (st : estate) :
  match item with VNode _ _ => site_free bs item | _ => true end = true ->
  (match item with VNode _ _ => depth item | _ => O end <= fuel)%nat ->
  visit_item walk item st = Some (Ok [item], st).
Proof.
  intros Hfree Hdepth. destruct item; try reflexivity.
  unfold visit_item, bind. rewrite (walk_same _ Hfree Hdepth). reflexivity.
Qed.

Lemma visit_field_same (fv : string * value) (st : estate) :
  match snd fv with
  | VList items =>
      forallb (fun item => match item with
                           | VNode _ _ => site_free bs item
                           | _ => true
                           end) items
  | VNode _ _ => site_free bs (snd fv)
  | _ => true
  end = true ->
  (match snd fv with
   | VList items =>
       list_max (map (fun item => match item with
                                  | VNode _ _ => depth item
                                  | _ => O
                                  end) items)
   | VNode _ _ => depth (snd fv)
   | _ => O
   end <= fuel)%nat ->
  visit_field walk fv st = Some (Ok [fv], st).
Proof.
  destruct fv as [name v]. cbn [snd]. intros Hfree Hdepth.
  destruct v as [?|?|?|?|?| |items|?|?|?|c f|?]; try reflexivity.
  - unfold visit_field, bind. cbn [snd fst].
    rewrite (@mapC_same estate _ _ (visit_item walk) (fun item => [item]) items).
    + unfold ret. rewrite concat_singletons. reflexivity.
    + intros item Hin st0. rewrite forallb_forall in Hfree.
      apply list_max_le in Hdepth. rewrite Forall_forall in Hdepth.
      apply visit_item_same; [apply Hfree, Hin|].
      apply Hdepth. apply in_map_iff. exists item. split; [reflexivity|exact Hin].
  - unfold visit_field, bind. cbn [snd fst].
    rewrite (walk_same _ Hfree Hdepth). reflexivity.
Qed.

Lemma generic_visit_same (c : pyclass) (fields : list (string * value))
  (st : estate) :
  site_free bs (VNode c fields) = true ->
  (depth (VNode c fields) <= S fuel)%nat ->
  generic_visit walk (VNode c fields) st = Some (Ok (VNode c fields), st).
Proof.
  cbn [site_free depth]. intros Hfree Hdepth.
  apply andb_prop in Hfree. destruct Hfree as [_ Hfree].
  apply le_S_n in Hdepth. apply list_max_le in Hdepth.
  rewrite Forall_forall in Hdepth. rewrite forallb_forall in Hfree.
  unfold generic_visit, bind.
  rewrite (@mapC_same estate _ _ (visit_field walk) (fun fv => [fv]) fields).
  - unfold ret. rewrite concat_singletons. reflexivity.
  - intros fv Hin st0. apply visit_field_same; [apply Hfree, Hin|].
    apply Hdepth. apply in_map_iff. exists fv. split; [reflexivity|exact Hin].
Qed.
End SiteFree.

Lemma expander_visit_site_free (env : pyenv) (fuel : nat) :
  forall (self : expander) (c : pyclass) (fields : list (string * value))
         (st : estate),
    site_free (bindings self) (VNode c fields) = true ->
    (depth (VNode c fields) <= fuel)%nat ->
    expander_visit env fuel self (VNode c fields) st
    = Some (Ok (VNode c fields), st).
Proof.
  induction fuel as [|fuel IH]; intros self c fields st Hfree Hdepth.
  - cbn [depth] in Hdepth. inversion Hdepth.
  - cbn [expander_visit]. unfold visit.
    destruct (bindings self) as [|b bs] eqn:Hb; [reflexivity|].
    unfold super_visit, NodeTransformerListMixin.visit.
    assert (Hsite : invocation_site (b :: bs) (VNode c fields) = None).
    { cbn [site_free] in Hfree. apply andb_prop in Hfree.
      destruct Hfree as [Hsite _].
      destruct (invocation_site (b :: bs) (VNode c fields)); [discriminate|].
      reflexivity. }
    rewrite Hb, Hsite.
    apply generic_visit_same with (bs := b :: bs) (fuel := fuel);
      [|exact Hfree|exact Hdepth].
    intros c0 f0 st0 Hfree0 Hdepth0. apply IH; [rewrite Hb; exact Hfree0|exact Hdepth0].
Qed.

Lemma invocation_site_invoke (bs : list (string * macro)) (name : string)
  (arg : value) (m : macro) :
  dict_getitem name bs = Some m ->
  invocation_site bs (invoke name arg) = Some (name, arg).
Proof.
  intros H. unfold invoke, invocation_site, ast_Name_Load.
  cbn [is_class getattr String.eqb Ascii.eqb Bool.eqb]. rewrite H. reflexivity.
Qed.

(** X19. A use [name[arg]] of a macro other than the six operators, whose
    function returns a node. With [visit_once], the expander returns that
    node after the fix-ups and does not walk it, so macro invocations inside
    it stay as they are; in recursive mode the result is what the walk of
    the node, after the fix-ups, gives. *)
Theorem visit_once_expands_one_layer :
  forall (env : pyenv) (fuel : nat) (self : expander) (name function : string)
         (arg : value) (c : pyclass) (fields : list (string * value))
         (st : estate),
    dict_getitem name (bindings self) = Some (Mother function) ->
    other_macro env function arg "expr" = Ok (VNode c fields) ->
    visit_once (super_visit env (expander_visit env fuel)) self
               (invoke name arg) st
    = Some (Ok (fix_missing env (VNode c fields)), st) /\
    expander_visit env (S fuel) (with_recursive true self) (invoke name arg) st
    = expander_visit env fuel (with_recursive true self)
                     (fix_missing env (VNode c fields)) st.
Proof.
  intros env fuel self name function arg c fields st Hm Hf.
  assert (Hne : bindings self <> []).
  { intros Hnil. rewrite Hnil in Hm. discriminate. }
  split.
  - unfold visit_once, visit. cbn [with_recursive bindings].
    destruct (bindings self) as [|b bs] eqn:Hb; [contradiction Hne; reflexivity|].
    unfold super_visit, NodeTransformerListMixin.visit. cbn [with_recursive bindings invoke].
    fold (invoke name arg). rewrite Hb.
    rewrite (@invocation_site_invoke (b :: bs) name arg _ Hm).
    unfold _expand. cbn [with_recursive bindings]. rewrite Hb, Hm.
    unfold apply_macro, lift. rewrite Hf.
    unfold _visit_expansion. cbn [with_recursive _recursive]. reflexivity.
  - cbn [expander_visit]. unfold visit at 1. cbn [with_recursive bindings].
    destruct (bindings self) as [|b bs] eqn:Hb; [contradiction Hne; reflexivity|].
    unfold super_visit, NodeTransformerListMixin.visit. cbn [with_recursive bindings invoke].
    fold (invoke name arg). rewrite Hb.
    rewrite (@invocation_site_invoke (b :: bs) name arg _ Hm).
    unfold _expand. cbn [with_recursive bindings]. rewrite Hb, Hm.
    unfold apply_macro, lift. rewrite Hf.
    unfold _visit_expansion. cbn [with_recursive _recursive].
    unfold visit. cbn [with_recursive bindings]. rewrite Hb. reflexivity.
Qed.

Lemma visit_once_expands_one_layer_witness :
  visit_once (super_visit sample_env (expander_visit sample_env 0))
             other_expander
             (invoke "m" (invoke "m" (ast_Name_Load "x"))) fresh_state
  = Some (Ok (invoke "m" (ast_Name_Load "x")), fresh_state).
Proof.
  exact (proj1 (@visit_once_expands_one_layer sample_env 0 other_expander
                  "m" "m" (invoke "m" (ast_Name_Load "x"))
                  (AstClass "Subscript")
                  [("value", ast_Name_Load "m"); ("slice", ast_Name_Load "x");
                   ("ctx", ast_Load)]%string
                  fresh_state eq_refl eq_refl)).
Defined.

(** *** Error reports have one layer *)

Lemma plain_is_flat (e : exn) :
  exn_cls e <> MacroExpansionError -> flat_error e.
Proof. intros H Hcls. contradiction. Qed.

Section FlatErrors.
Variable S : Type.

Lemma ret_flat A (a : A) : raises_flat (@ret S A a).
Proof. intros s e s' H. discriminate. Qed.

Lemma none_flat A : raises_flat (fun _ : S => @None (result A * S)).
Proof. intros s e s' H. discriminate. Qed.

Lemma throw_flat A (e : exn) : flat_error e -> raises_flat (@throw S A e).
Proof. intros He s e' s' H. injection H as <- _. exact He. Qed.

Lemma lift_flat A (r : result A) :
  (forall e, r = Err e -> flat_error e) -> raises_flat (@lift S A r).
Proof. intros Hr s e s' H. injection H as -> _. apply Hr. reflexivity. Qed.

Lemma bind_flat A B (c : comp S A) (k : A -> comp S B) :
  raises_flat c -> (forall a, raises_flat (k a)) -> raises_flat (bind c k).
Proof.
  intros Hc Hk s e s'. unfold bind.
  destruct (c s) as [[[a|e0] s1]|] eqn:E; [| |discriminate].
  - apply Hk.
  - intros H. injection H as <- _. eapply Hc. exact E.
Qed.

Lemma mapC_flat A B (f : A -> comp S B) (l : list A) :
  (forall a, raises_flat (f a)) -> raises_flat (mapC f l).
Proof.
  intros Hf. induction l as [|a l IH]; cbn [mapC]; [apply ret_flat|].
  apply bind_flat; [apply Hf|]. intros b.
  apply bind_flat; [exact IH|]. intros bs. apply ret_flat.
Qed.

Variable get : S -> NestingLevelTracker.t.
Variable put : NestingLevelTracker.t -> S -> S.

Lemma set_to_flat A (v : value) (body : comp S A) :
  raises_flat body -> raises_flat (NestingLevelTracker.set_to get put v body).
Proof.
  intros Hbody s e s'. unfold NestingLevelTracker.set_to.
  destruct (int_of_atom v) as [z|].
  2:{ intros H. injection H as <- _. apply plain_is_flat. discriminate. }
  destruct (z <? 0).
  { intros H. injection H as <- _. apply plain_is_flat. discriminate. }
  destruct (body (put (z :: get s) s)) as [[r s1]|] eqn:E; [|discriminate].
  destruct (get s1) as [|x rest].
  { intros H. injection H as <- _. apply plain_is_flat. discriminate. }
  destruct rest.
  { intros H. injection H as <- _. apply plain_is_flat. discriminate. }
  intros H. injection H as -> _. eapply Hbody. exact E.
Qed.

Lemma changed_by_flat A (d : Z) (body : comp S A) :
  raises_flat body -> raises_flat (NestingLevelTracker.changed_by get put d body).
Proof.
  intros Hbody s e s'. unfold NestingLevelTracker.changed_by.
  destruct (NestingLevelTracker._get_value (get s)) as [v|e0] eqn:E.
  - apply set_to_flat. exact Hbody.
  - intros H. injection H as <- _. apply plain_is_flat.
    destruct (get s); [|discriminate]. injection E as <-. discriminate.
Qed.
End FlatErrors.

Lemma getattr_flat (fields : list (string * value)) (name : string) (e : exn) :
  getattr fields name = Err e -> flat_error e.
Proof.
  induction fields as [|[n0 v] fields IH]; cbn [getattr].
  - intros H. injection H as <-. apply plain_is_flat. discriminate.
  - destruct (String.eqb n0 name); [discriminate|exact IH].
Qed.

Lemma py_iter_flat (v : value) (e : exn) : py_iter v = Err e -> flat_error e.
Proof.
  destruct v; cbn [py_iter]; try discriminate;
    intros H; injection H as <-; apply plain_is_flat; discriminate.
Qed.

Lemma ismacroname_flat (ex : expander) (name : value) (e : exn) :
  ismacroname ex name = Err e -> flat_error e.
Proof.
  destruct name; cbn [ismacroname]; try discriminate;
    try (destruct (hashable _); [discriminate|]);
    intros H; injection H as <-; apply plain_is_flat; discriminate.
Qed.

Lemma sequence_Err {A B} (f : A -> result B) (l : list A) (e : exn) :
  sequence (map f l) = Err e -> exists a, In a l /\ f a = Err e.
Proof.
  induction l as [|a l IH]; cbn [map sequence]; [discriminate|].
  destruct (f a) as [b|e0] eqn:E.
  - destruct (sequence (map f l)); [discriminate|].
    intros H. injection H as ->. destruct (IH eq_refl) as (x & Hin & Hx).
    exists x. split; [right; exact Hin|exact Hx].
  - intros H. injection H as ->. exists a. split; [left; reflexivity|exact E].
Qed.

Lemma get_markers_flat (cls : list string) (tree : value) (e : exn) :
  get_markers cls tree = Err e -> flat_error e.
Proof.
  revert e.
  induction tree as [z|b|str|b|b| |l IH|l IH|l IH|items IH|c fields IH|n0]
    using value_ind; intros e; cbn [get_markers];
    try (intros H; injection H as <-; apply plain_is_flat; discriminate);
    try discriminate.
  destruct (sequence (map (get_markers cls) l)) as [found|e0] eqn:E;
    [discriminate|].
  intros H. injection H as <-.
  apply sequence_Err in E. destruct E as (x & Hin & Hx).
  rewrite Forall_forall in IH. exact (IH x Hin _ Hx).
Qed.

Ltac flat_step :=
  first
    [ assumption
    | apply ret_flat
    | apply none_flat
    | apply throw_flat; apply plain_is_flat; discriminate
    | apply lift_flat; intros ?; first [apply getattr_flat
                                       |apply py_iter_flat
                                       |apply ismacroname_flat
                                       |apply get_markers_flat]
    | apply bind_flat; [|intros ?]
    | apply mapC_flat; intros ?
    | match goal with
      | |- raises_flat (match ?x with _ => _ end) => destruct x
      | |- raises_flat (if ?b then _ else _) => destruct b
      | H : forall e t, raises_flat (?visit e t) |- raises_flat (?visit _ _) =>
          apply H
      end ].

Ltac flat_auto := repeat flat_step.

Lemma quotelevel_value_flat : raises_flat quotelevel_value.
Proof.
  intros s e s'. unfold quotelevel_value.
  destruct (_quotelevel s); cbn [NestingLevelTracker._get_value];
    [|discriminate].
  intros H. injection H as <- _. apply plain_is_flat. discriminate.
Qed.

Lemma capture_macro_flat (f : macro) (name : string) :
  raises_flat (capture_macro f name).
Proof.
  intros s e s'. unfold capture_macro.
  destruct (_capture_into _ _ _ _ _) as [[[k m] g]|]; discriminate.
Qed.

Lemma astify_flat (e : option expander) (x : value) : raises_flat (astify e x).
Proof.
  induction x as [z|b|s0|b|b| |l IH|l IH|l IH|items IH|c fields IH|n0]
    using value_ind; cbn [astify]; try (apply ret_flat);
    try (apply throw_flat; apply plain_is_flat; discriminate).
  - apply bind_flat; [|intros; apply ret_flat].
    induction IH; cbn [mapC]; flat_auto.
  - apply bind_flat; [|intros; apply ret_flat].
    induction IH; cbn [mapC]; flat_auto.
  - apply bind_flat; [|intros; apply ret_flat].
    induction IH; cbn [mapC]; flat_auto.
  - apply bind_flat.
    + induction IH as [|kv items [Hk Hv] _ IHi]; cbn [mapC]; flat_auto.
    + intros ks. apply bind_flat; [|intros; apply ret_flat].
      induction IH as [|kv items [Hk Hv] _ IHi]; cbn [mapC]; flat_auto.
  - destruct (is_marker_class c ASTLiteral); [flat_auto|].
    destruct (is_marker_class c CaptureLater).
    + destruct e as [e|]; flat_auto; apply capture_macro_flat.
    + apply bind_flat; [|intros; apply ret_flat].
      induction IH; cbn [mapC]; flat_auto.
Qed.

Section FlatFamily.
Variable env : pyenv.
Hypothesis other_macro_flat :
  forall name tree syntax e,
    other_macro env name tree syntax = Err e -> flat_error e.
Variable walk : expander -> value -> comp estate value.
Hypothesis walk_flat : forall e t, raises_flat (walk e t).

Lemma reading_flat {A} (f : estate -> comp estate A) :
  (forall x, raises_flat (f x)) -> raises_flat (fun st => f st st).
Proof. intros H s e s' E. exact (H s s e s' E). Qed.

Lemma unquote_expand_flat (tree : value) (e : expander) :
  raises_flat (_unquote_expand env walk tree e).
Proof.
  unfold _unquote_expand.
  apply bind_flat; [apply quotelevel_value_flat|]. intros level.
  unfold visit_recursively, _expand_quasiquotes, expand_macros.
  set (w := if level =? 0 then walk (with_recursive true e) tree
            else walk {| bindings := filter (fun kv => is_quasiquote_macro (snd kv))
                                            (bindings e);
                         filename := filename e; _recursive := true |} tree).
  assert (Hwalk : raises_flat w) by (unfold w; destruct (level =? 0); apply walk_flat).
  assert (Hkept : forall (f : estate -> value),
             raises_flat (fun st => bind w (fun _ => ret (f st)) st)).
  { intros f. apply (@reading_flat value (fun x => bind w (fun _ => ret (f x)))).
    intros x. apply bind_flat; [exact Hwalk|intros; apply ret_flat]. }
  destruct tree; try apply Hkept;
    try (destruct (invocation_site _ _); [apply Hkept|exact Hwalk]);
    exact Hwalk.
Qed.

Lemma unquote_checks_flat (name syntax : string) :
  raises_flat (unquote_checks name syntax).
Proof.
  unfold unquote_checks.
  destruct (negb _); [apply throw_flat; apply plain_is_flat; discriminate|].
  apply bind_flat; [apply quotelevel_value_flat|].
  intros level. flat_auto.
Qed.

Lemma q_flat (tree : value) (syntax : string) (e : expander)
  (ov : option value) :
  raises_flat (q env walk tree syntax e ov).
Proof.
  unfold q.
  destruct (negb _); [apply throw_flat; apply plain_is_flat; discriminate|].
  unfold quotelevel_changed_by. apply changed_by_flat.
  apply bind_flat; [apply walk_flat|]. intros t1.
  apply bind_flat; [apply astify_flat|]. intros t2.
  apply bind_flat; [flat_step|]. intros ps.
  destruct ps; [|flat_step].
  destruct (String.eqb syntax "block"); [|apply ret_flat].
  destruct ov as [target|]; [|flat_step].
  rewrite match_Name. flat_auto.
Qed.

Lemma apply_macro_flat (m : macro) (tree : value) (syntax : string)
  (e : expander) (ov : option value) :
  raises_flat (apply_macro env walk m tree syntax e ov).
Proof.
  destruct m; cbn [apply_macro].
  - apply q_flat.
  - unfold u. apply bind_flat; [apply unquote_checks_flat|]. intros _.
    unfold quotelevel_changed_by. apply changed_by_flat.
    apply bind_flat; [apply unquote_expand_flat|]. intros; apply ret_flat.
  - unfold n. apply bind_flat; [apply unquote_checks_flat|]. intros _.
    unfold quotelevel_changed_by. apply changed_by_flat.
    apply bind_flat; [apply astify_flat|]. intros; apply ret_flat.
  - unfold a. apply bind_flat; [apply unquote_checks_flat|]. intros _.
    unfold quotelevel_changed_by. apply changed_by_flat. apply ret_flat.
  - unfold s. apply bind_flat; [apply unquote_checks_flat|]. intros _.
    apply ret_flat.
  - unfold h. apply bind_flat; [apply unquote_checks_flat|]. intros _.
    unfold quotelevel_changed_by. apply changed_by_flat.
    apply bind_flat; [apply unquote_expand_flat|]. intros; apply ret_flat.
  - apply lift_flat. intros e0. apply other_macro_flat.
Qed.

Lemma visit_flat (e : expander) (tree : value) :
  raises_flat (visit walk e tree).
Proof.
  unfold visit. destruct (bindings e); [apply ret_flat|apply walk_flat].
Qed.

Lemma visit_expansion_flat (e : expander) (expansion target : value) :
  raises_flat (_visit_expansion env walk e expansion target).
Proof.
  unfold _visit_expansion.
  assert (Heach : forall x,
             raises_flat
               (if _recursive e then visit walk e (fix_missing env x)
                else ret (fix_missing env x))).
  { intros x. destruct (_recursive e); [apply visit_flat|apply ret_flat]. }
  destruct expansion; cbn [py_iter]; try apply ret_flat; try apply Heach;
    try (apply throw_flat; apply plain_is_flat; discriminate);
    try (apply bind_flat; [apply mapC_flat; intros ?; apply Heach
                          |intros ?; apply ret_flat]).
Qed.

Lemma expand_flat (e : expander) (syntax : string) (target : value)
  (lineno : option Z) (macroname : string) (tree : value) (ov : option value) :
  raises_flat
    (_expand env (apply_macro env walk) walk e syntax target lineno macroname
             tree ov).
Proof.
  unfold _expand. destruct (dict_getitem macroname (bindings e)) as [m|];
    [|apply throw_flat; apply plain_is_flat; discriminate].
  intros st err st' H.
  destruct (apply_macro env walk m tree syntax e ov st) as [[[x|err0] st1]|] eqn:E;
    [| |discriminate].
  - eapply visit_expansion_flat. exact H.
  - apply apply_macro_flat in E. injection H as <- _.
    intros _. cbn [exn_cause].
    destruct (exn_cls err0) eqn:Hcls; try (cbn; rewrite Hcls; discriminate).
    apply E. exact Hcls.
Qed.

Lemma generic_visit_flat (e : expander) (tree : value) :
  raises_flat (generic_visit (walk e) tree).
Proof.
  unfold generic_visit.
  destruct tree; try (apply throw_flat; apply plain_is_flat; discriminate).
  apply bind_flat; [|intros; apply ret_flat].
  apply mapC_flat. intros [name v]. unfold visit_field. cbn [snd fst].
  destruct v; try apply ret_flat.
  - apply bind_flat; [|intros; apply ret_flat].
    apply mapC_flat. intros item. unfold visit_item.
    destruct item; try apply ret_flat.
    apply bind_flat; [apply walk_flat|]. intros r.
    destruct r; first [apply ret_flat
                      |apply lift_flat; intros ?; apply py_iter_flat].
  - apply bind_flat; [apply walk_flat|]. intros r.
    destruct r; apply ret_flat.
Qed.

Lemma super_visit_flat (e : expander) (tree : value) :
  raises_flat (super_visit env walk e tree).
Proof.
  unfold super_visit, NodeTransformerListMixin.visit.
  assert (Hnode : raises_flat
            match invocation_site (bindings e) tree with
            | Some (macroname, arg) =>
                _expand env (apply_macro env walk) walk e "expr" tree None
                        macroname arg None
            | None => generic_visit (walk e) tree
            end).
  { destruct (invocation_site (bindings e) tree) as [[name arg]|];
      [apply expand_flat|apply generic_visit_flat]. }
  destruct tree; try exact Hnode.
  - apply ret_flat.
  - apply bind_flat; [|intros; apply ret_flat].
    apply mapC_flat. intros x. apply walk_flat.
Qed.
End FlatFamily.

Lemma expander_visit_flat (env : pyenv) (fuel : nat) :
  (forall name tree syntax e,
      other_macro env name tree syntax = Err e -> flat_error e) ->
  forall e t, raises_flat (expander_visit env fuel e t).
Proof.
  intros Henv. induction fuel as [|fuel IH]; intros e t; cbn [expander_visit].
  - apply none_flat.
  - apply visit_flat. intros e' t'. apply super_visit_flat; assumption.
Qed.



(** *** A quote around an unquote *)

Lemma dict_getitem_filter {V} (p : string * V -> bool) (k : string) (v : V)
  (m : registry V) :
  dict_getitem k m = Some v -> p (k, v) = true ->
  dict_getitem k (filter p m) = Some v.
Proof.
  induction m as [|[k0 v0] m IH]; cbn [dict_getitem filter]; [discriminate|].
  destruct (String.eqb_spec k0 k) as [->|Hne].
  - intros H Hp. injection H as ->. rewrite Hp. cbn [dict_getitem].
    rewrite String.eqb_refl. reflexivity.
  - intros H Hp. destruct (p (k0, v0)); cbn [dict_getitem].
    + destruct (String.eqb_spec k0 k) as [->|_]; [contradiction Hne; reflexivity|].
      apply IH; assumption.
    + apply IH; assumption.
Qed.

Lemma filter_idem {A} (p : A -> bool) (l : list A) :
  filter p (filter p l) = filter p l.
Proof.
  induction l as [|x l IH]; cbn [filter]; [reflexivity|].
  destruct (p x) eqn:E; [|exact IH]. cbn [filter]. rewrite E, IH. reflexivity.
Qed.

Lemma site_free_root (bs : list (string * macro)) (c : pyclass)
  (fields : list (string * value)) :
  site_free bs (VNode c fields) = true ->
  invocation_site bs (VNode c fields) = None.
Proof.
  cbn [site_free]. intros H. apply andb_prop in H. destruct H as [H _].
  destruct (invocation_site bs (VNode c fields)); [discriminate|reflexivity].
Qed.

Lemma site_free_astify_call (bs : list (string * macro)) (x : value) :
  match x with VNode _ _ => site_free bs x | _ => true end = true ->
  site_free bs (mk_ASTLiteral (ast_Call (_mcpy_quotes_attr "astify") [x] []))
  = true.
Proof.
  intros H. unfold mk_ASTLiteral, ast_Call.
  cbn [site_free invocation_site is_class forallb snd andb].
  change (site_free bs (_mcpy_quotes_attr "astify")) with true.
  rewrite H. reflexivity.
Qed.

Lemma depth_astify_call (c : pyclass) (fields : list (string * value)) :
  (depth (mk_ASTLiteral
            (ast_Call (_mcpy_quotes_attr "astify") [VNode c fields] []))
   <= depth (VNode c fields) + 6)%nat.
Proof.
  change (depth (mk_ASTLiteral
                   (ast_Call (_mcpy_quotes_attr "astify") [VNode c fields] [])))
    with (S (Nat.max
               (S (Nat.max 4 (Nat.max (Nat.max (depth (VNode c fields)) 0)
                                      (Nat.max 0 0))))
               0)).
  lia.
Qed.

Lemma visit_nonempty (walk : expander -> value -> comp estate value)
  (self : expander) (tree : value) :
  bindings self <> [] -> visit walk self tree = walk self tree.
Proof.
  intros H. unfold visit. destruct (bindings self); [contradiction H|]; reflexivity.
Qed.
Section QuoteUnquote.
Variable env : pyenv.
Variable fuel : nat.
Variable bs : list (string * macro).
Variable file : string.
Variable c : pyclass.
Variable fields : list (string * value).

(** The second expander instance that [_expand_quasiquotes] makes sees the
    quasiquote operators only. *)
Local Abbreviation operators :=
  (filter (fun kv : string * macro => is_quasiquote_macro (snd kv)) bs).
Local Abbreviation second :=
  {| bindings := operators; filename := file; _recursive := true |}.
Local Abbreviation x := (VNode c fields).
Local Abbreviation spliced :=
  (mk_ASTLiteral (ast_Call (_mcpy_quotes_attr "astify") [x] [])).

Hypothesis u_bound : dict_getitem "u" bs = Some Mu.
Hypothesis x_site_free : site_free operators x = true.
Hypothesis x_depth : (depth x + 6 <= fuel)%nat.
Hypothesis fix_missing_spliced : fix_missing env spliced = spliced.

Lemma u_is_operator : dict_getitem "u" operators = Some Mu.
Proof. apply dict_getitem_filter; [exact u_bound|reflexivity]. Qed.

Lemma operators_bound : bindings second <> [].
Proof.
  cbn [bindings]. intros H. pose proof u_is_operator as Hu.
  rewrite H in Hu. discriminate Hu.
Qed.

Lemma unquote_expand_site_free (st : estate) (level : Z) (rest : list Z) :
  _quotelevel st = level :: rest ->
  _unquote_expand env (expander_visit env fuel) x second st = Some (Ok x, st).
Proof.
  intros Hst. unfold _unquote_expand, bind, quotelevel_value.
  rewrite Hst. cbn [NestingLevelTracker._get_value bindings].
  rewrite filter_idem.
  destruct (level =? 0);
    rewrite (@site_free_root operators c fields x_site_free).
  - unfold visit_recursively.
    apply expander_visit_site_free; [exact x_site_free|lia].
  - unfold _expand_quasiquotes, expand_macros. cbn [bindings filename].
    rewrite filter_idem.
    apply expander_visit_site_free; [exact x_site_free|lia].
Qed.

Lemma u_site_free (st : estate) (v : Z) (rest : list Z) :
  _quotelevel st = v :: rest -> 1 <= v ->
  u env (expander_visit env fuel) x "expr" second st = Some (Ok spliced, st).
Proof.
  intros Hst Hv. unfold u, bind at 1.
  rewrite (@unquote_checks_pass "u" v rest st Hst Hv).
  apply quotelevel_changed_by_runs with (v := v) (rest := rest);
    [exact Hst|lia|].
  unfold bind.
  rewrite (@unquote_expand_site_free
             (set_quotelevel ((v + -1) :: v :: rest) st) (v + -1) (v :: rest)
             eq_refl).
  reflexivity.
Qed.

Lemma expand_u_site_free (st : estate) (v : Z) (rest : list Z)
  (target : value) :
  _quotelevel st = v :: rest -> 1 <= v ->
  _expand env (apply_macro env (expander_visit env fuel))
          (expander_visit env fuel) second "expr" target None "u" x None st
  = Some (Ok spliced, st).
Proof.
  intros Hst Hv. unfold _expand. cbn [bindings].
  rewrite u_is_operator. cbn [apply_macro].
  rewrite (@u_site_free st v rest Hst Hv).
  unfold _visit_expansion, mk_ASTLiteral at 1. cbv iota.
  fold (mk_ASTLiteral (ast_Call (_mcpy_quotes_attr "astify") [x] [])).
  rewrite fix_missing_spliced. cbn [_recursive].
  rewrite visit_nonempty by exact operators_bound.
  apply expander_visit_site_free.
  - apply site_free_astify_call. exact x_site_free.
  - eapply Nat.le_trans; [apply depth_astify_call|exact x_depth].
Qed.

Lemma expand_quasiquotes_u (e : expander) (st : estate) (v : Z) (rest : list Z) :
  bindings e = bs -> filename e = file ->
  _quotelevel st = v :: rest -> 1 <= v ->
  _expand_quasiquotes (expander_visit env (S fuel)) (invoke "u" x) e st
  = Some (Ok spliced, st).
Proof.
  intros Hbs Hfile Hst Hv. unfold _expand_quasiquotes, expand_macros.
  rewrite Hbs, Hfile.
  cbn [expander_visit]. rewrite visit_nonempty by exact operators_bound.
  unfold super_visit, NodeTransformerListMixin.visit, invoke at 1. cbv iota.
  fold (invoke "u" x). cbn [bindings].
  rewrite (@invocation_site_invoke operators "u" x Mu u_is_operator).
  apply expand_u_site_free with (v := v) (rest := rest); assumption.
Qed.
End QuoteUnquote.

(** X21. A quote around an unquote, from end to end. [q], called as an
    expression macro on [u[x]] at a level of 0 or more, where [u] is bound
    to the unquote operator, [x] is a node that holds no invocation of a
    quasiquote operator and no [QuasiquoteMarker], and the fuel covers the
    depth of [x]: the inner expander expands [u[x]], [astify] unwraps the
    marker that [u] made, the postcondition holds, and [q] returns the call
    [mcpy.quotes.astify(x)] and leaves the state as it was. *)
Theorem q_of_u_is_a_call_of_astify :
  forall (env : pyenv) (fuel : nat) (e : expander) (c : pyclass)
         (fields : list (string * value)) (st : estate) (v : Z)
         (rest : list Z),
    _quotelevel st = v :: rest -> 0 <= v ->
    dict_getitem "u" (bindings e) = Some Mu ->
    site_free (filter (fun kv => is_quasiquote_macro (snd kv)) (bindings e))
              (VNode c fields) = true ->
    get_markers QuasiquoteMarker (VNode c fields) = Ok [] ->
    fix_missing env
      (mk_ASTLiteral (ast_Call (_mcpy_quotes_attr "astify") [VNode c fields] []))
    = mk_ASTLiteral (ast_Call (_mcpy_quotes_attr "astify") [VNode c fields] []) ->
    (depth (VNode c fields) + 7 <= fuel)%nat ->
    q env (expander_visit env fuel) (invoke "u" (VNode c fields)) "expr" e None st
    = Some (Ok (ast_Call (_mcpy_quotes_attr "astify") [VNode c fields] []), st).
Proof.
  intros env fuel e c fields st v rest Hst Hv Hu Hfree Hmarkers Hfix Hdepth.
  destruct fuel as [|fuel]; [lia|].
  unfold q. cbn [str_in existsb String.eqb Ascii.eqb Bool.eqb orb negb].
  apply quotelevel_changed_by_runs with (v := v) (rest := rest);
    [exact Hst|lia|].
  unfold bind at 1.
  rewrite (@expand_quasiquotes_u env fuel (bindings e) (filename e) c fields
             Hu Hfree ltac:(lia) Hfix e
             (set_quotelevel ((v + 1) :: v :: rest) st) (v + 1) (v :: rest)
             eq_refl eq_refl eq_refl ltac:(lia)).
  unfold bind at 1.
  change (astify (Some e)
            (mk_ASTLiteral
               (ast_Call (_mcpy_quotes_attr "astify") [VNode c fields] []))
            (set_quotelevel ((v + 1) :: v :: rest) st))
    with (Some (Ok (ast_Call (_mcpy_quotes_attr "astify") [VNode c fields] []),
                set_quotelevel ((v + 1) :: v :: rest) st)).
  assert (Hnone : get_markers QuasiquoteMarker
                    (ast_Call (_mcpy_quotes_attr "astify") [VNode c fields] [])
                  = Ok []).
  { assert (Hx : examine_markers QuasiquoteMarker (VNode c fields) = []).
    { change (get_markers QuasiquoteMarker (VNode c fields))
        with (Ok (examine_markers QuasiquoteMarker (VNode c fields)))
        in Hmarkers.
      injection Hmarkers as Hm. exact Hm. }
    change (get_markers QuasiquoteMarker
              (ast_Call (_mcpy_quotes_attr "astify") [VNode c fields] []))
      with (Ok (found_in_field QuasiquoteMarker (_mcpy_quotes_attr "astify") ++
                (examine_markers QuasiquoteMarker (VNode c fields) ++ []) ++
                [] ++ [])).
    rewrite Hx. reflexivity. }
  unfold bind at 1, lift. rewrite Hnone. reflexivity.
Qed.

Lemma q_of_u_is_a_call_of_astify_witness :
  q sample_env (expander_visit sample_env 10)
    (invoke "u" (invoke "f" (ast_Name_Load "x"))) "expr" sample_expander None
    fresh_state
  = Some (Ok (ast_Call (_mcpy_quotes_attr "astify")
                       [invoke "f" (ast_Name_Load "x")] []),
          fresh_state).
Proof.
  apply (@q_of_u_is_a_call_of_astify sample_env 10 sample_expander
           (AstClass "Subscript")
           [("value", ast_Name_Load "f"); ("slice", ast_Name_Load "x");
            ("ctx", ast_Load)]%string
           fresh_state 0 [] eq_refl);
    try reflexivity; cbn; lia.
Defined.

(** ** importer.py *)

Section PhaseFacts.
Variable env : pyenv.
Variable destructure_candidate : value -> result (value * value).

Local Abbreviation iswithphase' := (iswithphase env destructure_candidate).
Local Abbreviation phase_of' := (phase_of env destructure_candidate).
Local Abbreviation has_phase' := (has_phase env destructure_candidate).
Local Abbreviation loop := (highest_phase_loop env destructure_candidate).
Local Abbreviation split_loop' := (split_loop env destructure_candidate).
Local Abbreviation split' :=
  (split_multiphase_module_ast env destructure_candidate).

Lemma iswithphase_range (stmt n : value) :
  iswithphase' stmt = Ok n ->
  n = VBool false \/ exists z, int_of_atom n = Some z /\ 1 <= z.
Proof.
  intros H. unfold iswithphase in H.
  repeat (match type of H with
          | context [match ?x with _ => _ end] => destruct x eqn:?
          | context [if ?b then _ else _] => destruct b eqn:?
          end;
          try discriminate;
          try (injection H as <-; left; reflexivity)).
  all: injection H as <-; right; eexists; split; [eassumption|lia].
Qed.

Lemma iswithphase_int (stmt n : value) :
  iswithphase' stmt = Ok n -> exists z, int_of_atom n = Some z /\ 0 <= z.
Proof.
  intros H. destruct (@iswithphase_range stmt n H) as [->|(z & Hz & Hle)].
  - exists 0. split; [reflexivity|lia].
  - exists z. split; [exact Hz|lia].
Qed.

Lemma highest_phase_loop_step (maxn n stmt : value) (rest : list value)
  (zmax zn : Z) :
  iswithphase' stmt = Ok n ->
  int_of_atom maxn = Some zmax -> int_of_atom n = Some zn ->
  loop maxn (stmt :: rest) =
  if zmax <? zn then loop n rest else loop maxn rest.
Proof.
  intros Hn Hmax Hzn. cbn [highest_phase_loop]. rewrite Hn, Hzn, Hmax.
  destruct maxn; try discriminate; destruct n; try discriminate; reflexivity.
Qed.

Lemma highest_phase_loop_spec (stmts : list value) :
  forall (maxn : value) (zmax : Z),
    int_of_atom maxn = Some zmax ->
    (forall s, In s stmts -> exists n, iswithphase' s = Ok n) ->
    exists r z,
      loop maxn stmts = Ok r /\ int_of_atom r = Some z /\ zmax <= z /\
      (forall s zs, In s stmts -> phase_of' s = Some zs -> zs <= z) /\
      (r = maxn \/ exists s, In s stmts /\ iswithphase' s = Ok r).
Proof.
  induction stmts as [|stmt rest IH]; intros maxn zmax Hmax Hall.
  - exists maxn, zmax. split; [reflexivity|]. split; [exact Hmax|].
    split; [lia|]. split; [intros s zs []|left; reflexivity].
  - destruct (Hall stmt (or_introl eq_refl)) as [n Hn].
    destruct (@iswithphase_int stmt n Hn) as (zn & Hzn & _).
    rewrite (@highest_phase_loop_step maxn n stmt rest zmax zn Hn Hmax Hzn).
    assert (Hrest : forall s, In s rest -> exists n, iswithphase' s = Ok n).
    { intros s Hs. apply Hall. right. exact Hs. }
    assert (Hhere : phase_of' stmt = Some zn).
    { unfold phase_of. rewrite Hn. exact Hzn. }
    destruct (Z.ltb_spec zmax zn) as [Hlt|Hge].
    + destruct (IH n zn Hzn Hrest) as (r & z & Hr & Hz & Hle & Hmaxi & Hin).
      exists r, z. split; [exact Hr|]. split; [exact Hz|]. split; [lia|]. split.
      * intros s zs [<-|Hs] Hp; [|eapply Hmaxi; eassumption].
        rewrite Hhere in Hp. injection Hp as <-. exact Hle.
      * right. destruct Hin as [->|(s & Hs & Hsr)].
        -- exists stmt. split; [left; reflexivity|exact Hn].
        -- exists s. split; [right; exact Hs|exact Hsr].
    + destruct (IH maxn zmax Hmax Hrest) as (r & z & Hr & Hz & Hle & Hmaxi & Hin).
      exists r, z. split; [exact Hr|]. split; [exact Hz|]. split; [lia|]. split.
      * intros s zs [<-|Hs] Hp; [|eapply Hmaxi; eassumption].
        rewrite Hhere in Hp. injection Hp as <-. lia.
      * destruct Hin as [->|(s & Hs & Hsr)]; [left; reflexivity|].
        right. exists s. split; [right; exact Hs|exact Hsr].
Qed.

Lemma detect_highest_phase_body (c : pyclass) (fields : list (string * value))
  (stmts : list value) :
  getattr fields "body" = Ok (VList stmts) ->
  detect_highest_phase env destructure_candidate (VNode c fields)
  = loop VNone stmts.
Proof.
  intros H. unfold detect_highest_phase. cbn [node_attr]. rewrite H. reflexivity.
Qed.

Lemma highest_phase_loop_first (stmt n : value) (rest : list value) :
  iswithphase' stmt = Ok n -> loop VNone (stmt :: rest) = loop n rest.
Proof. intros H. cbn [highest_phase_loop]. rewrite H. reflexivity. Qed.

Lemma highest_phase_loop_all (stmts : list value) :
  forall maxn r,
    loop maxn stmts = Ok r ->
    forall s, In s stmts -> exists n, iswithphase' s = Ok n.
Proof.
  induction stmts as [|stmt rest IH]; intros maxn r H s Hs; [destruct Hs|].
  cbn [highest_phase_loop] in H.
  destruct (iswithphase' stmt) as [n|e] eqn:Hn; [|discriminate].
  destruct Hs as [<-|Hs]; [exists n; exact Hn|].
  destruct maxn; destruct n; cbn [int_of_atom] in H;
    repeat (match type of H with
            | context [if ?b then _ else _] => destruct b
            end);
    try discriminate; eapply IH; eassumption.
Qed.

Lemma has_phase_eq (k : Z) (stmt n : value) :
  iswithphase' stmt = Ok n ->
  match int_of_atom n with
  | Some z => z =? k
  | None => false
  end = has_phase' k stmt.
Proof. intros H. unfold has_phase, phase_of. rewrite H. reflexivity. Qed.

Lemma split_loop_spec (k : Z) (stmts : list value) :
  forall remaining thisphase,
    (forall s, In s stmts -> exists n, iswithphase' s = Ok n) ->
    (forall s, In s stmts -> has_phase' k s = true ->
               exists block, node_attr s "body" = Ok (VList block)) ->
    split_loop' k stmts remaining thisphase
    = Ok (remaining ++ filter (fun s => negb (has_phase' k s)) stmts,
          thisphase ++ flat_map block_of (filter (has_phase' k) stmts)).
Proof.
  induction stmts as [|stmt rest IH]; intros remaining thisphase Hall Hblocks.
  - cbn [split_loop filter flat_map]. rewrite !app_nil_r. reflexivity.
  - destruct (Hall stmt (or_introl eq_refl)) as [n Hn].
    cbn [split_loop filter]. rewrite Hn, (@has_phase_eq k stmt n Hn).
    assert (Hall' : forall s, In s rest -> exists n, iswithphase' s = Ok n).
    { intros s Hs. apply Hall. right. exact Hs. }
    assert (Hblocks' : forall s, In s rest -> has_phase' k s = true ->
                                 exists block, node_attr s "body" = Ok (VList block)).
    { intros s Hs. apply Hblocks. right. exact Hs. }
    destruct (has_phase' k stmt) eqn:Hp; cbn [negb].
    + destruct (Hblocks stmt (or_introl eq_refl) Hp) as [block Hb].
      rewrite Hb. cbn [py_iter]. rewrite (IH _ _ Hall' Hblocks').
      cbn [flat_map]. unfold block_of at 2. rewrite Hb.
      rewrite app_assoc. reflexivity.
    + rewrite (IH _ _ Hall' Hblocks'). rewrite <- app_assoc. reflexivity.
Qed.

Lemma getattr_setattr (fields : list (string * value)) (name : string)
  (v : value) :
  getattr (setattr fields name v) name = Ok v.
Proof.
  induction fields as [|[n0 old] fields IH]; cbn [setattr getattr].
  - rewrite String.eqb_refl. reflexivity.
  - destruct (String.eqb n0 name) eqn:E; cbn [getattr]; rewrite E;
      [reflexivity|exact IH].
Qed.

Lemma setattr_setattr (fields : list (string * value)) (name : string)
  (v v' : value) :
  setattr (setattr fields name v) name v' = setattr fields name v'.
Proof.
  induction fields as [|[n0 old] fields IH]; cbn [setattr].
  - rewrite String.eqb_refl. reflexivity.
  - destruct (String.eqb n0 name) eqn:E; cbn [setattr]; rewrite E;
      [reflexivity|rewrite IH; reflexivity].
Qed.

Lemma split_spec (c : pyclass) (fields : list (string * value))
  (stmts : list value) (k : Z) :
  1 <= k ->
  getattr fields "body" = Ok (VList stmts) ->
  (forall s, In s stmts -> exists n, iswithphase' s = Ok n) ->
  (forall s, In s stmts -> has_phase' k s = true ->
             exists block, node_attr s "body" = Ok (VList block)) ->
  split' (VNode c fields) (VInt k)
  = Ok (VNode c (setattr fields "body"
                   (VList (flat_map block_of (filter (has_phase' k) stmts)))),
        VNode c (setattr fields "body"
                   (VList (filter (fun s => negb (has_phase' k s)) stmts)))).
Proof.
  intros Hk Hbody Hall Hblocks. unfold split_multiphase_module_ast.
  cbn [int_of_atom node_attr].
  destruct (Z.ltb_spec k 0) as [H|_]; [lia|].
  destruct (Z.eqb_spec k 0) as [H|_]; [lia|].
  rewrite Hbody. cbn [py_iter].
  rewrite (@split_loop_spec k stmts [] [] Hall Hblocks). reflexivity.
Qed.

Lemma filter_none {A} (p : A -> bool) (l : list A) :
  filter p (filter (fun x => negb (p x)) l) = [].
Proof.
  induction l as [|x l IH]; cbn [filter]; [reflexivity|].
  destruct (p x) eqn:E; cbn [negb filter]; [exact IH|].
  rewrite E. exact IH.
Qed.

Lemma detect_highest_phase_spec (c : pyclass) (fields : list (string * value))
  (stmts : list value) :
  getattr fields "body" = Ok (VList stmts) ->
  (forall s, In s stmts -> exists n, iswithphase' s = Ok n) ->
  stmts <> [] ->
  exists r z,
    detect_highest_phase env destructure_candidate (VNode c fields) = Ok r /\
    int_of_atom r = Some z /\
    (exists s, In s stmts /\ iswithphase' s = Ok r) /\
    (forall s zs, In s stmts -> phase_of' s = Some zs -> zs <= z).
Proof.
  intros Hbody Hall Hne.
  destruct stmts as [|stmt rest]; [contradiction Hne; reflexivity|].
  rewrite (@detect_highest_phase_body c fields _ Hbody).
  destruct (Hall stmt (or_introl eq_refl)) as [n Hn].
  rewrite (@highest_phase_loop_first stmt n rest Hn).
  destruct (@iswithphase_int stmt n Hn) as (zn & Hzn & _).
  destruct (@highest_phase_loop_spec rest n zn Hzn
              (fun s Hs => Hall s (or_intror Hs)))
    as (r & z & Hr & Hz & Hle & Hmaxi & Hin).
  exists r, z. split; [exact Hr|]. split; [exact Hz|]. split.
  - destruct Hin as [->|(s & Hs & Hsr)].
    + exists stmt. split; [left; reflexivity|exact Hn].
    + exists s. split; [right; exact Hs|exact Hsr].
  - intros s zs [<-|Hs] Hp; [|eapply Hmaxi; eassumption].
    unfold phase_of in Hp. rewrite Hn, Hzn in Hp. injection Hp as <-. exact Hle.
Qed.
End PhaseFacts.

(** X22. [iswithphase] returns [False] or an integer that is at least 1.
    [detect_highest_phase], on a module whose statements [iswithphase] can
    examine, returns [None] for an empty body; for any other body it returns
    what [iswithphase] returned for one of the statements, and no statement
    of the body has a higher phase ([False] counting as 0). So for a body
    that is not empty and has no [with phase] block, it returns [False]. *)
Theorem detect_highest_phase_is_the_highest :
  forall (env : pyenv) (destructure_candidate : value -> result (value * value))
         (c : pyclass) (fields : list (string * value)) (stmts : list value),
    getattr fields "body" = Ok (VList stmts) ->
    (forall s, In s stmts ->
               exists n, iswithphase env destructure_candidate s = Ok n) ->
    (forall s n,
        iswithphase env destructure_candidate s = Ok n ->
        n = VBool false \/ exists z, int_of_atom n = Some z /\ 1 <= z) /\
    (stmts = [] ->
     detect_highest_phase env destructure_candidate (VNode c fields) = Ok VNone) /\
    (stmts <> [] ->
     exists r z,
       detect_highest_phase env destructure_candidate (VNode c fields) = Ok r /\
       int_of_atom r = Some z /\
       (exists s, In s stmts /\ iswithphase env destructure_candidate s = Ok r) /\
       (forall s zs, In s stmts ->
                     phase_of env destructure_candidate s = Some zs -> zs <= z)) /\
    (stmts <> [] ->
     (forall s, In s stmts ->
                iswithphase env destructure_candidate s = Ok (VBool false)) ->
     detect_highest_phase env destructure_candidate (VNode c fields)
     = Ok (VBool false)).
Proof.
  intros env dc c fields stmts Hbody Hall.
  pose proof (@detect_highest_phase_spec env dc c fields stmts Hbody Hall) as Hmain.
  split; [intros s n; apply iswithphase_range|].
  split; [|split; [exact Hmain|]].
  - intros ->. rewrite (@detect_highest_phase_body env dc c fields _ Hbody).
    reflexivity.
  - intros Hne Hfalse. destruct (Hmain Hne) as (r & z & Hr & _ & (s & Hs & Hsr) & _).
    rewrite (Hfalse s Hs) in Hsr. injection Hsr as <-. exact Hr.
Qed.

Lemma sample_statements_examined (s : value) :
  In s sample_statements ->
  exists n, iswithphase sample_env sample_destructure s = Ok n.
Proof. intros [<-|[<-|[<-|[]]]]; eexists; reflexivity. Qed.

Lemma sample_statements_blocks (s : value) :
  In s sample_statements ->
  has_phase sample_env sample_destructure 1 s = true ->
  exists block, node_attr s "body" = Ok (VList block).
Proof.
  intros [<-|[<-|[<-|[]]]] H; try (eexists; reflexivity).
  vm_compute in H. discriminate H.
Qed.

Lemma detect_highest_phase_is_the_highest_witness :
  exists r z,
    detect_highest_phase sample_env sample_destructure sample_module = Ok r /\
    int_of_atom r = Some z /\
    (exists s, In s sample_statements /\
               iswithphase sample_env sample_destructure s = Ok r) /\
    (forall s zs,
        In s sample_statements ->
        phase_of sample_env sample_destructure s = Some zs -> zs <= z).
Proof.
  refine (proj1 (proj2 (proj2
            (@detect_highest_phase_is_the_highest sample_env sample_destructure
               (AstClass "Module") [("body", VList sample_statements)]%string
               sample_statements eq_refl sample_statements_examined))) _).
  discriminate.
Defined.

(** X23. [split_multiphase_module_ast] at a phase [k] of 1 or more, on a
    module whose statements [iswithphase] can examine and whose blocks of
    phase [k] have lists as bodies. The module returned holds the bodies of
    the blocks of phase [k], concatenated in their order; [tree] is left
    with the other statements, in their order, every other field of the
    module as it was; no block of phase [k] is left in [tree]; and
    splitting [tree] again at the same phase returns an empty module and
    changes nothing more. *)
Theorem split_takes_the_blocks_of_the_phase :
  forall (env : pyenv) (destructure_candidate : value -> result (value * value))
         (c : pyclass) (fields : list (string * value)) (stmts : list value)
         (k : Z),
    1 <= k ->
    getattr fields "body" = Ok (VList stmts) ->
    (forall s, In s stmts ->
               exists n, iswithphase env destructure_candidate s = Ok n) ->
    (forall s, In s stmts -> has_phase env destructure_candidate k s = true ->
               exists block, node_attr s "body" = Ok (VList block)) ->
    exists remaining thisphase,
      split_multiphase_module_ast env destructure_candidate
        (VNode c fields) (VInt k)
      = Ok (VNode c (setattr fields "body" (VList thisphase)),
            VNode c (setattr fields "body" (VList remaining))) /\
      thisphase
      = flat_map block_of (filter (has_phase env destructure_candidate k) stmts) /\
      remaining
      = filter (fun s => negb (has_phase env destructure_candidate k s)) stmts /\
      (forall s, In s remaining ->
                 phase_of env destructure_candidate s <> Some k) /\
      split_multiphase_module_ast env destructure_candidate
        (VNode c (setattr fields "body" (VList remaining))) (VInt k)
      = Ok (VNode c (setattr fields "body" (VList [])),
            VNode c (setattr fields "body" (VList remaining))).
Proof.
  intros env dc c fields stmts k Hk Hbody Hall Hblocks.
  exists (filter (fun s => negb (has_phase env dc k s)) stmts),
         (flat_map block_of (filter (has_phase env dc k) stmts)).
  split; [exact (@split_spec env dc c fields stmts k Hk Hbody Hall Hblocks)|].
  split; [reflexivity|]. split; [reflexivity|]. split.
  - intros s Hs Hp. apply filter_In in Hs. destruct Hs as [_ Hs].
    unfold has_phase in Hs. rewrite Hp, Z.eqb_refl in Hs. discriminate Hs.
  - rewrite (@split_spec env dc c _
               (filter (fun s => negb (has_phase env dc k s)) stmts) k Hk
               (getattr_setattr fields "body" _)).
    + rewrite !setattr_setattr, filter_none.
      rewrite (@filter_idem _ (fun s => negb (has_phase env dc k s))).
      reflexivity.
    + intros s Hs. apply filter_In in Hs. apply Hall, Hs.
    + intros s Hs. apply filter_In in Hs. apply Hblocks, Hs.
Qed.

Lemma split_takes_the_blocks_of_the_phase_witness :
  split_multiphase_module_ast sample_env sample_destructure sample_module (VInt 1)
  = Ok (VNode (AstClass "Module")
              [("body", VList [VNode (AstClass "Break") [];
                               VNode (AstClass "Continue") []])]%string,
        VNode (AstClass "Module")
              [("body",
                VList [with_phase 2 [VNode (AstClass "Pass") []];
                       VNode (AstClass "Expr")
                             [("value", ast_Name_Load "x")]%string])]%string).
Proof.
  destruct (@split_takes_the_blocks_of_the_phase sample_env sample_destructure
              (AstClass "Module") [("body", VList sample_statements)]%string
              sample_statements 1 ltac:(lia) eq_refl
              sample_statements_examined sample_statements_blocks)
    as (remaining & thisphase & Hsplit & -> & -> & _).
  exact Hsplit.
Defined.

(** X24. The countdown of [multiphase_compile] goes down: when
    [detect_highest_phase] finds the highest phase [k] of a module, 1 or
    more, and the module is split at phase [k], what
    [detect_highest_phase] finds in the module that is left is [None], for
    an empty body, or a phase below [k]. *)
Theorem highest_phase_goes_down_after_split :
  forall (env : pyenv) (destructure_candidate : value -> result (value * value))
         (c : pyclass) (fields : list (string * value)) (stmts : list value)
         (r : value) (k : Z),
    getattr fields "body" = Ok (VList stmts) ->
    detect_highest_phase env destructure_candidate (VNode c fields) = Ok r ->
    int_of_atom r = Some k -> 1 <= k ->
    (forall s, In s stmts -> has_phase env destructure_candidate k s = true ->
               exists block, node_attr s "body" = Ok (VList block)) ->
    exists out tree' r',
      split_multiphase_module_ast env destructure_candidate
        (VNode c fields) (VInt k) = Ok (out, tree') /\
      detect_highest_phase env destructure_candidate tree' = Ok r' /\
      (r' = VNone \/ exists k', int_of_atom r' = Some k' /\ 0 <= k' < k).
Proof.
  intros env dc c fields stmts r k Hbody Hdetect Hr Hk Hblocks.
  assert (Hall : forall s, In s stmts -> exists n, iswithphase env dc s = Ok n).
  { rewrite (@detect_highest_phase_body env dc c fields stmts Hbody) in Hdetect.
    exact (@highest_phase_loop_all env dc stmts VNone r Hdetect). }
  assert (Hmax : forall s zs, In s stmts -> phase_of env dc s = Some zs -> zs <= k).
  { destruct stmts as [|stmt rest] eqn:Hstmts.
    - intros s zs [].
    - destruct (@detect_highest_phase_spec env dc c fields _ Hbody Hall)
        as (r0 & z0 & Hr0 & Hz0 & _ & Hmax); [discriminate|].
      rewrite Hdetect in Hr0. injection Hr0 as <-.
      rewrite Hr in Hz0. injection Hz0 as <-. exact Hmax. }
  pose proof (@split_spec env dc c fields stmts k Hk Hbody Hall Hblocks) as Hsplit.
  set (remaining := filter (fun s => negb (has_phase env dc k s)) stmts) in *.
  assert (Hall' : forall s, In s remaining ->
                            exists n, iswithphase env dc s = Ok n).
  { intros s Hs. apply filter_In in Hs. apply Hall, Hs. }
  assert (Hleft : exists r',
             detect_highest_phase env dc
               (VNode c (setattr fields "body" (VList remaining))) = Ok r' /\
             (r' = VNone \/ exists k', int_of_atom r' = Some k' /\ 0 <= k' < k)).
  { assert (Hcases : remaining = [] \/ remaining <> []).
    { destruct remaining; [left; reflexivity|right; discriminate]. }
    destruct Hcases as [Hnil|Hne].
    - exists VNone. split; [|left; reflexivity].
      rewrite (@detect_highest_phase_body env dc c _ remaining
                 (getattr_setattr fields "body" _)).
      rewrite Hnil. reflexivity.
    - destruct (@detect_highest_phase_spec env dc c _ remaining
                  (getattr_setattr fields "body" _) Hall' Hne)
        as (r' & k' & Hr' & Hk' & (s & Hs & Hsr) & _).
      exists r'. split; [exact Hr'|]. right.
      exists k'. split; [exact Hk'|].
      apply filter_In in Hs. destruct Hs as [Hin Hnot].
      assert (Hp : phase_of env dc s = Some k').
      { unfold phase_of. rewrite Hsr. exact Hk'. }
      pose proof (Hmax s k' Hin Hp) as Hle.
      unfold has_phase in Hnot. rewrite Hp in Hnot.
      destruct (Z.eqb_spec k' k) as [->|Hne']; [discriminate Hnot|].
      destruct (@iswithphase_int env dc s r' Hsr) as (z & Hz & Hz0).
      rewrite Hk' in Hz. injection Hz as <-. lia. }
  destruct Hleft as (r' & Hr' & Hlow).
  eexists. eexists. exists r'. split; [exact Hsplit|]. split; assumption.
Qed.

Lemma highest_phase_goes_down_after_split_witness :
  exists out tree' r',
    split_multiphase_module_ast sample_env sample_destructure sample_module
      (VInt 2) = Ok (out, tree') /\
    detect_highest_phase sample_env sample_destructure tree' = Ok r' /\
    (r' = VNone \/ exists k', int_of_atom r' = Some k' /\ 0 <= k' < 2).
Proof.
  apply (@highest_phase_goes_down_after_split sample_env sample_destructure
           (AstClass "Module") [("body", VList sample_statements)]%string
           sample_statements (VInt 2) 2 eq_refl eq_refl eq_refl); [lia|].
  intros s [<-|[<-|[<-|[]]]] H; try (eexists; reflexivity).
  vm_compute in H. discriminate H.
Defined.

(** *** The unquote operators on code without macro invocations *)

Lemma dict_getitem_filter_none {V} (p : string * V -> bool) (k : string)
  (m : registry V) :
  dict_getitem k m = None -> dict_getitem k (filter p m) = None.
Proof.
  induction m as [|[k0 v0] m IH]; cbn [dict_getitem filter]; [reflexivity|].
  destruct (String.eqb k0 k) eqn:E; [discriminate|]. intros H.
  destruct (p (k0, v0)); cbn [dict_getitem]; [rewrite E|]; apply IH; exact H.
Qed.

Lemma invocation_site_filter (p : string * macro -> bool)
  (bs : list (string * macro)) (node : value) :
  invocation_site bs node = None -> invocation_site (filter p bs) node = None.
Proof.
  unfold invocation_site.
  destruct node as [?|?|?|?|?| |?|?|?|?|c fields|?]; try reflexivity.
  destruct (is_class c "Subscript"); [|reflexivity].
  destruct (getattr fields "value") as [[?|?|?|?|?| |?|?|?|?|cn fn|?]|];
    try reflexivity.
  destruct (getattr fields "slice") as [tree|]; [|reflexivity].
  destruct (is_class cn "Name"); [|reflexivity].
  destruct (getattr fn "id") as [[?|?|name|?|?| |?|?|?|?|? ?|?]|];
    try reflexivity.
  destruct (dict_getitem name bs) eqn:E; [discriminate|]. intros _.
  rewrite (dict_getitem_filter_none p _ _ E). reflexivity.
Qed.

Lemma site_free_filter (p : string * macro -> bool)
  (bs : list (string * macro)) (v : value) :
  (site_free bs v = true -> site_free (filter p bs) v = true) /\
  (forall items, v = VList items ->
     forallb (fun item => match item with
                          | VNode _ _ => site_free bs item
                          | _ => true
                          end) items = true ->
     forallb (fun item => match item with
                          | VNode _ _ => site_free (filter p bs) item
                          | _ => true
                          end) items = true).
Proof.
  induction v as [z|b|str|b|b| |l IH|l IH|l IH|items IH|c fields IH|n0]
    using value_ind;
    try (split; [intros _; reflexivity|intros ? H; discriminate H]).
  - split; [intros _; reflexivity|]. intros items Heq. injection Heq as <-.
    rewrite !forallb_forall. intros H item Hin. specialize (H item Hin).
    rewrite Forall_forall in IH. destruct item; try reflexivity.
    apply (proj1 (IH _ Hin)). exact H.
  - split; [|intros ? H; discriminate H].
    cbn [site_free]. intros H. apply andb_prop in H. destruct H as [Hroot Hfields].
    apply andb_true_intro. split.
    + destruct (invocation_site bs (VNode c fields)) eqn:E; [discriminate|].
      rewrite (invocation_site_filter p _ _ E). reflexivity.
    + rewrite forallb_forall in *. intros fv Hin. specialize (Hfields fv Hin).
      rewrite Forall_forall in IH. specialize (IH fv Hin).
      destruct (snd fv) as [?|?|?|?|?| |items|?|?|?|c' f'|?]; try reflexivity.
      * apply (proj2 IH items eq_refl). exact Hfields.
      * apply (proj1 IH). exact Hfields.
Qed.

Lemma unquote_expand_leaves_alone (env : pyenv) (fuel : nat) (e : expander)
  (c : pyclass) (fields : list (string * value)) (st : estate) (level : Z)
  (rest : list Z) :
  _quotelevel st = level :: rest ->
  site_free (bindings e) (VNode c fields) = true ->
  (depth (VNode c fields) <= fuel)%nat ->
  _unquote_expand env (expander_visit env fuel) (VNode c fields) e st
  = Some (Ok (VNode c fields), st).
Proof.
  intros Hst Hfree Hdepth.
  pose proof (proj1 (site_free_filter
                       (fun kv => is_quasiquote_macro (snd kv)) (bindings e)
                       (VNode c fields)) Hfree) as Hfree'.
  unfold _unquote_expand, bind, quotelevel_value.
  rewrite Hst. cbn [NestingLevelTracker._get_value].
  destruct (level =? 0).
  - rewrite (@site_free_root _ c fields Hfree).
    unfold visit_recursively.
    apply expander_visit_site_free; [exact Hfree|exact Hdepth].
  - rewrite (@site_free_root _ c fields Hfree').
    unfold _expand_quasiquotes, expand_macros.
    apply expander_visit_site_free; [exact Hfree'|exact Hdepth].
Qed.

(** X25. At a level of 1 or more, on a node that holds no invocation of a
    macro bound in the expander, and with fuel for the depth of the node,
    [u] and [h], called as expression macros, leave the node and the state
    as they were: [u] returns an [ASTLiteral] around the call
    [mcpy.quotes.astify(node)], and [h] returns a [CaptureLater] around the
    node, named by the source text of the node. *)
Theorem u_and_h_wrap_code_without_macros :
  forall (env : pyenv) (fuel : nat) (e : expander) (c : pyclass)
         (fields : list (string * value)) (st : estate) (v : Z)
         (rest : list Z),
    _quotelevel st = v :: rest -> 1 <= v ->
    site_free (bindings e) (VNode c fields) = true ->
    (depth (VNode c fields) <= fuel)%nat ->
    u env (expander_visit env fuel) (VNode c fields) "expr" e st
    = Some (Ok (mk_ASTLiteral
                  (ast_Call (_mcpy_quotes_attr "astify") [VNode c fields] [])),
            st) /\
    h env (expander_visit env fuel) (VNode c fields) "expr" e st
    = Some (Ok (mk_CaptureLater (VNode c fields)
                                (VStr (unparse env (VNode c fields)))),
            st).
Proof.
  intros env fuel e c fields st v rest Hst Hv Hfree Hdepth. split.
  - unfold u, bind at 1. rewrite (@unquote_checks_pass "u" v rest st Hst Hv).
    apply quotelevel_changed_by_runs with (v := v) (rest := rest);
      [exact Hst|lia|].
    unfold bind.
    rewrite (@unquote_expand_leaves_alone env fuel e c fields
               (set_quotelevel ((v + -1) :: v :: rest) st) (v + -1) (v :: rest)
               eq_refl Hfree Hdepth).
    reflexivity.
  - unfold h, bind at 1. rewrite (@unquote_checks_pass "h" v rest st Hst Hv).
    apply quotelevel_changed_by_runs with (v := v) (rest := rest);
      [exact Hst|lia|].
    unfold bind.
    rewrite (@unquote_expand_leaves_alone env fuel e c fields
               (set_quotelevel ((v + -1) :: v :: rest) st) (v + -1) (v :: rest)
               eq_refl Hfree Hdepth).
    reflexivity.
Qed.

Lemma u_and_h_wrap_code_without_macros_witness :
  h sample_env (expander_visit sample_env 3) (ast_Name_Load "x") "expr"
    sample_expander (set_quotelevel [1; 0] fresh_state)
  = Some (Ok (mk_CaptureLater (ast_Name_Load "x") (VStr "<source>")),
          set_quotelevel [1; 0] fresh_state).
Proof.
  refine (proj2 (@u_and_h_wrap_code_without_macros sample_env 3 sample_expander
                   (AstClass "Name") [("id", VStr "x"); ("ctx", ast_Load)]%string
                   (set_quotelevel [1; 0] fresh_state) 1 [0] eq_refl _ eq_refl _)).
  - lia.
  - cbn. lia.
Defined.

Lemma mapC_walked {S : Type} (visit : value -> comp S value)
  (items : list value) :
  forall st outcomes st',
    mapC visit items st = Some (Ok outcomes, st') <->
    walked visit items st outcomes st'.
Proof.
  induction items as [|item rest IH]; intros st outcomes st'; cbn [mapC].
  - unfold ret. split.
    + intros H. injection H as <- <-. constructor.
    + intros H. inversion H; subst. reflexivity.
  - unfold bind. split.
    + destruct (visit item st) as [[[r|e] st1]|] eqn:E; try discriminate.
      destruct (mapC visit rest st1) as [[[rs|e] st2]|] eqn:Er; try discriminate.
      unfold ret. intros H. injection H as <- <-.
      econstructor; [exact E|]. apply IH. exact Er.
    + intros H. inversion H as [|? ? ? st1 ? r rs E Hrest]; subst.
      rewrite E. apply IH in Hrest. rewrite Hrest. reflexivity.
Qed.

Lemma mapC_stops {S : Type} (visit : value -> comp S value)
  (done : list value) :
  forall item rest st outcomes st1 e st2,
    walked visit done st outcomes st1 ->
    visit item st1 = Some (Err e, st2) ->
    mapC visit (done ++ item :: rest) st = Some (Err e, st2).
Proof.
  induction done as [|x done IH]; intros item rest st outcomes st1 e st2 Hw He.
  - inversion Hw; subst. cbn [app mapC]. unfold bind. rewrite He. reflexivity.
  - inversion Hw as [|? ? ? st0 ? r rs E Hrest]; subst.
    cbn [app mapC]. unfold bind at 1. rewrite E. unfold bind.
    rewrite (IH item rest st0 rs st1 e st2 Hrest He). reflexivity.
Qed.

(** X26. [NodeTransformerListMixin.visit], whatever the [visit] of the
    class and of the next class in line: [None] stays [None], and nothing
    is called; a list is walked item by item, first item first, each call
    starting in the state that the call before it left, and what comes back
    is [flatten_suite] of the values returned, so [None] or a list that is
    not empty; the first call that raises ends the walk with its exception,
    and the items after it are not visited; anything else goes to the next
    class in line. *)
Theorem list_mixin_walks_item_by_item :
  forall (S : Type) (self_visit super_visit : value -> comp S value),
    (forall st,
        NodeTransformerListMixin.visit self_visit super_visit VNone st
        = Some (Ok VNone, st)) /\
    (forall items st outcomes st',
        walked self_visit items st outcomes st' ->
        NodeTransformerListMixin.visit self_visit super_visit (VList items) st
        = Some (Ok (flatten_suite outcomes), st')) /\
    (forall items st r st',
        NodeTransformerListMixin.visit self_visit super_visit (VList items) st
        = Some (Ok r, st') ->
        (exists outcomes,
            walked self_visit items st outcomes st' /\
            r = flatten_suite outcomes) /\
        (r = VNone \/ exists x l, r = VList (x :: l))) /\
    (forall done item rest st outcomes st1 e st2,
        walked self_visit done st outcomes st1 ->
        self_visit item st1 = Some (Err e, st2) ->
        NodeTransformerListMixin.visit self_visit super_visit
          (VList (done ++ item :: rest)) st
        = Some (Err e, st2)) /\
    (forall tree,
        tree <> VNone -> (forall l, tree <> VList l) ->
        NodeTransformerListMixin.visit self_visit super_visit tree
        = super_visit tree).
Proof.
  intros S self_visit super_visit. repeat split.
  - intros items st outcomes st' H. cbn [NodeTransformerListMixin.visit].
    unfold bind. apply mapC_walked in H. rewrite H. reflexivity.
  - cbn [NodeTransformerListMixin.visit] in H. unfold bind in H.
    destruct (mapC self_visit items st) as [[[outcomes|e] st1]|] eqn:E;
      try discriminate.
    unfold ret in H. injection H as <- <-.
    exists outcomes. split; [apply mapC_walked; exact E|reflexivity].
  - cbn [NodeTransformerListMixin.visit] in H. unfold bind in H.
    destruct (mapC self_visit items st) as [[[outcomes|e] st1]|] eqn:E;
      try discriminate.
    unfold ret in H. injection H as <- <-.
    unfold flatten_suite.
    destruct (flat_map _ outcomes) as [|x l]; [left; reflexivity|].
    right. exists x, l. reflexivity.
  - intros done item rest st outcomes st1 e st2 Hw He.
    cbn [NodeTransformerListMixin.visit]. unfold bind.
    rewrite (@mapC_stops S self_visit done item rest st outcomes st1 e st2
               Hw He).
    reflexivity.
  - intros tree Hnone Hlist.
    destruct tree; try reflexivity;
      [contradiction Hnone; reflexivity|contradiction (Hlist elts); reflexivity].
Qed.

Lemma list_mixin_walks_item_by_item_witness :
  walked counting_visit [VInt 0; VInt 1; VInt 2] 0%nat
         [VNone; VList [VInt 7; VInt 8]; VInt 2] 3%nat /\
  NodeTransformerListMixin.visit counting_visit counting_visit
    (VList [VInt 0; VInt 1; VInt 2]) 0%nat
  = Some (Ok (VList [VInt 7; VInt 8; VInt 2]), 3%nat).
Proof.
  assert (H : walked counting_visit [VInt 0; VInt 1; VInt 2] 0%nat
                     [VNone; VList [VInt 7; VInt 8]; VInt 2] 3%nat)
    by (repeat (econstructor; [reflexivity|]); constructor).
  split; [exact H|].
  exact (proj1 (proj2 (@list_mixin_walks_item_by_item nat counting_visit
                         counting_visit))
               [VInt 0; VInt 1; VInt 2] 0%nat
               [VNone; VList [VInt 7; VInt 8]; VInt 2] 3%nat H).
Defined.
